(** * Azure CLI extensions: the AzureMLKubernetes installer and the
      alertsmanagement argument actions

    A shallow embedding of
    - [src/k8s-extension/azext_k8s_extension/partner_extensions/AzureMLKubernetes.py]
    - [src/alertsmanagement/azext_alertsmanagement/generated/action.py]
    and the properties their specification states about them.

    Conventions of the embedding.
    - A Python [str] is a [string] whose characters are the code points
      U+0000..U+00FF; [str.lower], [str.isalnum] and the UTF-8 encoding are
      Python's on that range.  (Outside that range the only code points that
      Python lowercases to something containing an ASCII letter are U+0130 and
      U+212A, giving "i" followed by U+0307 and "k"; none of the words compared
      against below can be produced that way.)
    - A Python [dict] with string keys that is only read by key is a
      [gmap string _]; a dict whose iteration order matters is an association
      list in insertion order.
    - A Python [int] is a [Z].
    - A method that mutates its arguments, logs or calls a collaborator is a
      computation in the monad [M] over the two configuration dictionaries and
      the trace of events. *)

From Stdlib Require Import ZArith Ascii String List Bool Lia.
From stdpp Require Import gmap strings list fin_maps.

Local Open Scope Z_scope.

(** ** Python strings *)

Module PyStr.

Definition code (c : ascii) : Z := Z.of_N (N_of_ascii c).
Definition chr (z : Z) : ascii := ascii_of_N (Z.to_N z).

Definition between (lo hi : Z) (z : Z) : bool := (lo <=? z) && (z <=? hi).

(** [str.lower] on one character: A-Z, and the Latin-1 capitals U+00C0..U+00DE
    except the multiplication sign U+00D7. *)
Definition lower_char (c : ascii) : ascii :=
  let z := code c in
  if between 65 90 z then chr (z + 32)
  else if between 192 222 z && negb (z =? 215) then chr (z + 32)
  else c.

Fixpoint lower (s : string) : string :=
  match s with
  | EmptyString => EmptyString
  | String c s' => String (lower_char c) (lower s')
  end.

(** [str.isalnum] on one character. *)
Definition isalnum_char (c : ascii) : bool :=
  let z := code c in
  between 48 57 z || between 65 90 z || between 97 122 z
  || (z =? 170) || (z =? 178) || (z =? 179) || (z =? 181) || (z =? 185)
  || (z =? 186) || between 188 190 z
  || between 192 214 z || between 216 246 z || between 248 255 z.

(** [''.join(filter(p, s))] *)
Fixpoint filter (p : ascii -> bool) (s : string) : string :=
  match s with
  | EmptyString => EmptyString
  | String c s' => if p c then String c (filter p s') else filter p s'
  end.

Definition len (s : string) : Z := Z.of_nat (String.length s).

Fixpoint take (n : nat) (s : string) : string :=
  match n, s with
  | S n', String c s' => String c (take n' s')
  | _, _ => EmptyString
  end.

(** [s[:n]] for an arbitrary integer [n]: a negative bound counts from the
    end, and both bounds are clamped. *)
Definition slice_to (s : string) (n : Z) : string :=
  if 0 <=? n then take (Z.to_nat n) s else take (Z.to_nat (len s + n)) s.

(** [sub in s] *)
Fixpoint contains (sub s : string) : bool :=
  String.prefix sub s ||
  match s with
  | EmptyString => false
  | String _ s' => contains sub s'
  end.

(** [s.endswith(suffix)] *)
Fixpoint endswith (suffix s : string) : bool :=
  String.eqb s suffix ||
  match s with
  | EmptyString => false
  | String _ s' => endswith suffix s'
  end.

(** [s.encode("utf8")], as a list of byte values. *)
Definition utf8_char (c : ascii) : list Z :=
  let z := code c in
  if z <? 128 then [z]
  else [Z.lor 192 (Z.shiftr z 6); Z.lor 128 (Z.land z 63)].

Fixpoint encode_utf8 (s : string) : list Z :=
  match s with
  | EmptyString => []
  | String c s' => utf8_char c ++ encode_utf8 s'
  end.

(** [s.encode("ascii")]: fails on a character above U+007F. *)
Fixpoint encode_ascii (s : string) : option (list Z) :=
  match s with
  | EmptyString => Some []
  | String c s' =>
      if code c <? 128
      then match encode_ascii s' with
           | Some bs => Some (code c :: bs)
           | None => None
           end
      else None
  end.

End PyStr.

(** ** [hashlib.md5]: RFC 1321 on 32-bit words held in [Z] *)

Module MD5.

Definition w32 (x : Z) : Z := x mod 4294967296.
Definition add32 (a b : Z) : Z := w32 (a + b).
Definition not32 (a : Z) : Z := 4294967295 - a.
Definition rotl32 (x c : Z) : Z :=
  w32 (Z.lor (Z.shiftl x c) (Z.shiftr x (32 - c))).

Definition K : list Z :=
  [3614090360; 3905402710; 606105819; 3250441966; 4118548399; 1200080426;
   2821735955; 4249261313; 1770035416; 2336552879; 4294925233; 2304563134;
   1804603682; 4254626195; 2792965006; 1236535329; 4129170786; 3225465664;
   643717713; 3921069994; 3593408605; 38016083; 3634488961; 3889429448;
   568446438; 3275163606; 4107603335; 1163531501; 2850285829; 4243563512;
   1735328473; 2368359562; 4294588738; 2272392833; 1839030562; 4259657740;
   2763975236; 1272893353; 4139469664; 3200236656; 681279174; 3936430074;
   3572445317; 76029189; 3654602809; 3873151461; 530742520; 3299628645;
   4096336452; 1126891415; 2878612391; 4237533241; 1700485571; 2399980690;
   4293915773; 2240044497; 1873313359; 4264355552; 2734768916; 1309151649;
   4149444226; 3174756917; 718787259; 3951481745].

Definition S : list Z :=
  [7; 12; 17; 22; 7; 12; 17; 22; 7; 12; 17; 22; 7; 12; 17; 22;
   5; 9; 14; 20; 5; 9; 14; 20; 5; 9; 14; 20; 5; 9; 14; 20;
   4; 11; 16; 23; 4; 11; 16; 23; 4; 11; 16; 23; 4; 11; 16; 23;
   6; 10; 15; 21; 6; 10; 15; 21; 6; 10; 15; 21; 6; 10; 15; 21].

Definition nthZ (l : list Z) (i : Z) : Z := nth (Z.to_nat i) l 0.

Record regs := Regs { ra : Z; rb : Z; rc : Z; rd : Z }.

Definition init : regs :=
  Regs 1732584193 4023233417 2562383102 271733878.

(** Message padding: a 1 bit, zeros up to 56 mod 64, the bit length on 8
    little-endian bytes. *)
Definition le_bytes (n : nat) (x : Z) : list Z :=
  map (fun i => Z.shiftr x (8 * Z.of_nat i) mod 256) (seq 0 n).

Definition pad (msg : list Z) : list Z :=
  let l := Z.of_nat (length msg) in
  let zeros := (55 - l) mod 64 in
  msg ++ [128] ++ repeat 0 (Z.to_nat zeros) ++ le_bytes 8 (8 * l).

Definition word_at (block : list Z) (g : Z) : Z :=
  nthZ block (4 * g) + 256 * nthZ block (4 * g + 1)
  + 65536 * nthZ block (4 * g + 2) + 16777216 * nthZ block (4 * g + 3).

Definition round (block : list Z) (r : regs) (i : Z) : regs :=
  let '(Regs a b c d) := r in
  let '(f, g) :=
    if i <? 16 then (Z.lor (Z.land b c) (Z.land (not32 b) d), i)
    else if i <? 32 then (Z.lor (Z.land d b) (Z.land (not32 d) c), (5 * i + 1) mod 16)
    else if i <? 48 then (Z.lxor (Z.lxor b c) d, (3 * i + 5) mod 16)
    else (Z.lxor c (Z.lor b (not32 d)), (7 * i) mod 16) in
  let f' := add32 (add32 (add32 f a) (nthZ K i)) (word_at block g) in
  Regs d (add32 b (rotl32 f' (nthZ S i))) b c.

Definition compress (r : regs) (block : list Z) : regs :=
  let '(Regs a b c d) :=
    fold_left (round block) (map Z.of_nat (seq 0 64)) r in
  Regs (add32 (ra r) a) (add32 (rb r) b) (add32 (rc r) c) (add32 (rd r) d).

Definition blocks (bytes : list Z) : list (list Z) :=
  map (fun j => firstn 64 (skipn (64 * j) bytes)) (seq 0 (length bytes / 64)).

Definition state (msg : list Z) : regs := fold_left compress (blocks (pad msg)) init.

Definition digest (msg : list Z) : list Z :=
  let r := state msg in
  le_bytes 4 (ra r) ++ le_bytes 4 (rb r) ++ le_bytes 4 (rc r) ++ le_bytes 4 (rd r).

Definition hex_digit (z : Z) : ascii :=
  if z <? 10 then PyStr.chr (48 + z) else PyStr.chr (87 + z).

Definition hex_byte (z : Z) (rest : string) : string :=
  String (hex_digit (z / 16)) (String (hex_digit (z mod 16)) rest).

(** [md5(msg).hexdigest()] *)
Definition hexdigest (msg : list Z) : string :=
  fold_right hex_byte EmptyString (digest msg).

End MD5.


(** ** [base64.b64encode] *)

Module Base64.

Definition alphabet : string :=
  "ABCDEFGHIJKLMNOPQRSTUVWXYZabcdefghijklmnopqrstuvwxyz0123456789+/".

Definition digit (z : Z) : ascii :=
  match String.get (Z.to_nat z) alphabet with
  | Some c => c
  | None => "="%char
  end.

Fixpoint b64encode (bs : list Z) : string :=
  match bs with
  | [] => EmptyString
  | [a] =>
      String (digit (a / 4)) (String (digit (a mod 4 * 16)) "==")
  | [a; b] =>
      String (digit (a / 4)) (String (digit (a mod 4 * 16 + b / 16))
        (String (digit (b mod 16 * 4)) "="))
  | a :: b :: c :: rest =>
      String (digit (a / 4)) (String (digit (a mod 4 * 16 + b / 16))
        (String (digit (b mod 16 * 4 + c / 64)) (String (digit (c mod 64))
          (b64encode rest))))
  end.

End Base64.


(** ** Values, exceptions, events *)

(** What the configuration dictionaries hold: the strings the caller gave, the
    booleans the installer writes back, and [None]. *)
Inductive value :=
| VNone
| VStr (s : string)
| VBool (b : bool).

Global Instance value_eq_dec : EqDecision value.
Proof. solve_decision. Defined.

(** [str(v)] *)
Definition py_str (v : value) : string :=
  match v with
  | VStr s => s
  | VBool true => "True"
  | VBool false => "False"
  | VNone => "None"
  end.

(** Truthiness, as tested by [not v] and [a and b]. *)
Definition truthy (v : value) : bool :=
  match v with
  | VStr s => negb (String.eqb s "")
  | VBool b => b
  | VNone => false
  end.

(** [v is not None] *)
Definition is_not_None (v : value) : bool :=
  match v with VNone => false | _ => true end.

(** [str(v).lower() == word] *)
Definition str_lower_is (word : string) (v : value) : bool :=
  String.eqb (PyStr.lower (py_str v)) word.

(** [d.get(k, dflt)] and [d.get(k)] *)
Definition get_default (d : gmap string value) (k : string) (dflt : value) : value :=
  default dflt (d !! k).
Definition py_get (d : gmap string value) (k : string) : value :=
  get_default d k VNone.

(** Exceptions raised by the collaborators: the resource client
    ([CloudError]), the azure-core based SDKs ([HttpResponseError] and its
    subclasses, with the status code of the response), the relay SDK
    ([ErrorResponseException]), anything else by its class name. *)
Inductive foreign_error :=
| CloudError (msg : string)
| HttpResponseError (status_code : Z)
| ErrorResponseException (status_code : Z)
| OtherError (name : string).

Inductive exn :=
| InvalidArgumentValueError (msg : string)
| MutuallyExclusiveArgumentError (msg : string)
| ResourceNotFoundError (msg : string)
| AzureResponseError (msg : string)
| AssertionError (msg : string)
| UnicodeEncodeError
| TypeError (msg : string)
| IndexError (msg : string)
| CLIError (msg : string)
| Foreign (e : foreign_error).

(** The calls to the management SDKs. *)
Inductive remote_call :=
| ResourcesGetById (resource_id api_version : string)
| RelayNamespacesCreateOrUpdate (rg ns location : string)
| RelayHybridConnectionsCreateOrUpdate (rg ns hc : string)
| RelayCreateOrUpdateAuthorizationRule (rg ns hc rule : string)
| RelayListKeys (rg ns hc rule : string)
| ServiceBusNamespacesCreateOrUpdate (rg ns location : string)
| ServiceBusTopicsCreateOrUpdate (rg ns topic : string)
| ServiceBusSubscriptionsCreateOrUpdate (rg ns topic sub : string)
| ServiceBusNamespacesGet (rg ns : string)
| ServiceBusListAuthorizationRules (rg ns : string)
| ServiceBusListKeys (rg ns rule : string)
| WorkspacesCreateOrUpdate (rg ws location : string)
| WorkspacesGetSharedKeys (rg ws : string).

Inductive event :=
| LogWarning (msg : string)
| LogInfo (msg : string)
| Remote (c : remote_call)
| Confirmation (yes : bool) (message : option string)
| OpenFile (path : value).

Definition is_remote (e : event) : bool :=
  match e with Remote _ => true | _ => false end.

Definition is_open_file (e : event) : bool :=
  match e with OpenFile _ => true | _ => false end.

Definition creates_workspace (e : event) : bool :=
  match e with Remote (WorkspacesCreateOrUpdate _ _ _) => true | _ => false end.

(** The environment of an invocation: the collaborators reached through
    [cmd], and the file system.  Each field gives the outcome of one call.  A
    long-running operation is polled by the installer until it is done; the
    outcome given here is the one of the completed operation.
    [get_cluster_rp_api_version] (azext_k8s_extension.utils) and
    [user_confirmation_factory] (DefaultExtension) are functions of the
    extension that the installer imports. *)
Record Env := {
  get_subscription_id : string;
  get_cluster_rp_api_version : string -> foreign_error + (string * string);
  user_confirmation_factory : bool -> option string -> foreign_error + unit;
  read_file : value -> foreign_error + string;
  resources_get_by_id : string -> string -> foreign_error + string;
  relay_namespaces_create_or_update :
    string -> string -> string -> foreign_error + unit;
  relay_hybrid_connections_create_or_update :
    string -> string -> string -> foreign_error + string;
  relay_create_or_update_authorization_rule :
    string -> string -> string -> string -> foreign_error + unit;
  relay_list_keys :
    string -> string -> string -> string -> foreign_error + string;
  servicebus_namespaces_create_or_update :
    string -> string -> string -> foreign_error + unit;
  servicebus_topics_create_or_update :
    string -> string -> string -> foreign_error + unit;
  servicebus_subscriptions_create_or_update :
    string -> string -> string -> string -> foreign_error + unit;
  servicebus_namespaces_get : string -> string -> foreign_error + string;
  servicebus_list_authorization_rules :
    string -> string -> foreign_error + list string;
  servicebus_list_keys :
    string -> string -> string -> foreign_error + string;
  workspaces_create_or_update :
    string -> string -> string -> foreign_error + string;
  workspaces_get_shared_keys : string -> string -> foreign_error + string
}.

(** ** The monad of the installer's methods *)

(** The dictionaries a method can hold a reference to: the caller's two
    configuration dictionaries, and the copy [Update] makes with
    [_dereference]. *)
Inductive dict_ref := TheSettings | TheProtected | TheCopy.

Record store := Store {
  settings : gmap string value;
  protected : gmap string value;
  copied : gmap string value;
  trace : list event
}.

Definition M (A : Type) : Type := store -> (exn + A) * store.

Definition run {A} (m : M A) (cs cps : gmap string value) : (exn + A) * store :=
  m (Store cs cps ∅ []).

Global Instance M_ret : MRet M := fun A a st => (inr a, st).
Global Instance M_bind : MBind M := fun A B f m st =>
  match m st with
  | (inl e, st') => (inl e, st')
  | (inr a, st') => f a st'
  end.

Definition raise {A} (e : exn) : M A := fun st => (inl e, st).

Definition emit (ev : event) : M unit := fun st =>
  (inr tt, Store (settings st) (protected st) (copied st) (trace st ++ [ev])).

Definition read (r : dict_ref) : M (gmap string value) := fun st =>
  (inr match r with
       | TheSettings => settings st
       | TheProtected => protected st
       | TheCopy => copied st
       end, st).

Definition modify (r : dict_ref) (f : gmap string value -> gmap string value)
  : M unit := fun st =>
  (inr tt,
   match r with
   | TheSettings => Store (f (settings st)) (protected st) (copied st) (trace st)
   | TheProtected => Store (settings st) (f (protected st)) (copied st) (trace st)
   | TheCopy => Store (settings st) (protected st) (f (copied st)) (trace st)
   end).

(** [d[k] = v] and [d.pop(k, None)] *)
Definition write (r : dict_ref) (k : string) (v : value) : M unit :=
  modify r (<[k := v]>).
Definition pop (r : dict_ref) (k : string) : M unit :=
  modify r (delete k).

(** A call to a collaborator: recorded, and its exception propagated. *)
Definition outcome {A} (res : foreign_error + A) : M A :=
  match res with
  | inl e => raise (Foreign e)
  | inr a => mret a
  end.

Definition call {A} (c : remote_call) (res : foreign_error + A) : M A :=
  emit (Remote c);; outcome res.

(** [try: m except: h]: the handler sees the exception and may re-raise. *)
Definition try_except {A} (m : M A) (h : exn -> M A) : M A := fun st =>
  match m st with
  | (inl e, st') => h e st'
  | (inr a, st') => (inr a, st')
  end.

Definition warning (msg : string) : M unit := emit (LogWarning msg).
Definition info (msg : string) : M unit := emit (LogInfo msg).

Fixpoint for_each {A} (l : list A) (body : A -> M unit) : M unit :=
  match l with
  | [] => mret tt
  | x :: l' => body x;; for_each l' body
  end.

(** ** AzureMLKubernetes.py: module-level functions *)

Definition _get_valid_name (input_name : string) (suffix_len max_len : Z)
  : M string :=
  let normalized_str := PyStr.filter PyStr.isalnum_char input_name in
  if String.eqb normalized_str ""
  then raise (AssertionError "normalized name empty")
  else if PyStr.len normalized_str <=? max_len then mret normalized_str
  else
    suffix_len ←
      (if max_len <? suffix_len
       then warning "suffix length is bigger than max length. Set suffix length to max length.";;
            mret max_len
       else mret suffix_len);
    let md5_suffix :=
      PyStr.slice_to (MD5.hexdigest (PyStr.encode_utf8 input_name)) suffix_len in
    let new_name :=
      PyStr.slice_to normalized_str (max_len - suffix_len) +:+ md5_suffix in
    mret new_name.

(** [copy.deepcopy] of a dictionary of immutable values is the dictionary.
    [ref_mapping_dict.items()] comes in insertion order. *)
Definition _dereference (ref_mapping_dict : list (string * list string))
    (output_dict : gmap string value) : gmap string value :=
  fold_left
    (fun output_dict '(ref_key, ref_list) =>
       match output_dict !! ref_key with
       | None => output_dict
       | Some ref_value =>
           fold_left
             (fun output_dict key =>
                <[key := get_default output_dict key ref_value]> output_dict)
             ref_list output_dict
       end)
    ref_mapping_dict output_dict.

Definition _get_value_from_config_protected_config (key : string)
    (config protected_config : gmap string value) : value :=
  match config !! key with
  | Some v => v
  | None => py_get protected_config key
  end.

(** The iteration order of a Python set is unspecified; the result does not
    depend on it. *)
Definition _check_nodeselector_existed
    (configuration_settings configuration_protected_settings : gmap string value)
  : bool :=
  let all_keys := dom configuration_settings ∪ dom configuration_protected_settings in
  existsb (PyStr.contains "nodeSelector") (elements all_keys).

Section Collaborators.

Context (cmd : Env).

Definition _get_relay_connection_str
    (subscription_id resource_group_name cluster_name cluster_location
       auth_rule_name : string) (get_key_only : bool)
  : M (string * string * string) :=
  let cluster_id :=
    cluster_name +:+ "-" +:+ subscription_id +:+ "-" +:+ resource_group_name
    +:+ "-relay" in
  relay_namespace_name ← _get_valid_name cluster_id 6 50;
  let hybrid_connection_name := cluster_name in
  hc_resource_id ←
    (if negb get_key_only then
       call (RelayNamespacesCreateOrUpdate resource_group_name
               relay_namespace_name cluster_location)
            (relay_namespaces_create_or_update cmd resource_group_name
               relay_namespace_name cluster_location);;
       hc_id ← call (RelayHybridConnectionsCreateOrUpdate resource_group_name
                       relay_namespace_name hybrid_connection_name)
                    (relay_hybrid_connections_create_or_update cmd
                       resource_group_name relay_namespace_name
                       hybrid_connection_name);
       call (RelayCreateOrUpdateAuthorizationRule resource_group_name
               relay_namespace_name hybrid_connection_name auth_rule_name)
            (relay_create_or_update_authorization_rule cmd resource_group_name
               relay_namespace_name hybrid_connection_name auth_rule_name);;
       mret hc_id
     else mret "");
  key ← call (RelayListKeys resource_group_name relay_namespace_name
                hybrid_connection_name auth_rule_name)
             (relay_list_keys cmd resource_group_name relay_namespace_name
                hybrid_connection_name auth_rule_name);
  mret (key, hc_resource_id, hybrid_connection_name).

(** Returns [None] when the namespace has no authorization rule: the [for]
    loop over them returns at the first one. *)
Definition _get_service_bus_connection_string
    (subscription_id resource_group_name cluster_name cluster_location : string)
    (topic_sub_mapping : list (string * string)) (get_key_only : bool)
  : M (option (string * string)) :=
  let cluster_id :=
    cluster_name +:+ "-" +:+ subscription_id +:+ "-" +:+ resource_group_name
    +:+ "-service-bus" in
  service_bus_namespace_name ← _get_valid_name cluster_id 6 50;
  (if negb get_key_only then
     call (ServiceBusNamespacesCreateOrUpdate resource_group_name
             service_bus_namespace_name cluster_location)
          (servicebus_namespaces_create_or_update cmd resource_group_name
             service_bus_namespace_name cluster_location);;
     for_each topic_sub_mapping (fun '(topic_name, service_bus_subscription_name) =>
       call (ServiceBusTopicsCreateOrUpdate resource_group_name
               service_bus_namespace_name topic_name)
            (servicebus_topics_create_or_update cmd resource_group_name
               service_bus_namespace_name topic_name);;
       call (ServiceBusSubscriptionsCreateOrUpdate resource_group_name
               service_bus_namespace_name topic_name service_bus_subscription_name)
            (servicebus_subscriptions_create_or_update cmd resource_group_name
               service_bus_namespace_name topic_name service_bus_subscription_name))
   else mret tt);;
  service_bus_resource_id ←
    call (ServiceBusNamespacesGet resource_group_name service_bus_namespace_name)
         (servicebus_namespaces_get cmd resource_group_name
            service_bus_namespace_name);
  auth_rules ←
    call (ServiceBusListAuthorizationRules resource_group_name
            service_bus_namespace_name)
         (servicebus_list_authorization_rules cmd resource_group_name
            service_bus_namespace_name);
  match auth_rules with
  | rule :: _ =>
      key ← call (ServiceBusListKeys resource_group_name
                    service_bus_namespace_name rule)
                 (servicebus_list_keys cmd resource_group_name
                    service_bus_namespace_name rule);
      mret (Some (key, service_bus_resource_id))
  | [] => mret None
  end.

Definition _get_log_analytics_ws_connection_string
    (subscription_id resource_group_name cluster_name cluster_location : string)
    (get_key_only : bool) : M (string * string) :=
  let cluster_id :=
    cluster_name +:+ "-" +:+ subscription_id +:+ "-" +:+ resource_group_name in
  log_analytics_ws_name ← _get_valid_name cluster_id 6 63;
  customer_id ←
    (if negb get_key_only then
       call (WorkspacesCreateOrUpdate resource_group_name log_analytics_ws_name
               cluster_location)
            (workspaces_create_or_update cmd resource_group_name
               log_analytics_ws_name cluster_location)
     else mret "");
  shared_key ←
    call (WorkspacesGetSharedKeys resource_group_name log_analytics_ws_name)
         (workspaces_get_shared_keys cmd resource_group_name
            log_analytics_ws_name);
  mret (customer_id, shared_key).

End Collaborators.

(** ** class AzureMLKubernetes *)

Module AzureMLKubernetes.

(** *** The constants set by [__init__] *)

Definition DEFAULT_RELEASE_NAMESPACE := "azureml".
Definition RELAY_CONNECTION_STRING_KEY := "relayserver.relayConnectionString".
Definition HC_RESOURCE_ID_KEY := "relayserver.hybridConnectionResourceID".
Definition RELAY_HC_NAME_KEY := "relayserver.hybridConnectionName".
Definition SERVICE_BUS_CONNECTION_STRING_KEY := "servicebus.connectionString".
Definition SERVICE_BUS_RESOURCE_ID_KEY := "servicebus.resourceID".
Definition SERVICE_BUS_TOPIC_SUB_MAPPING_KEY := "servicebus.topicSubMapping".
Definition AZURE_LOG_ANALYTICS_ENABLED_KEY := "azure_log_analytics.enabled".
Definition AZURE_LOG_ANALYTICS_CUSTOMER_ID_KEY := "azure_log_analytics.customer_id".
Definition AZURE_LOG_ANALYTICS_CONNECTION_STRING := "azure_log_analytics.connection_string".
Definition JOB_SCHEDULER_LOCATION_KEY := "jobSchedulerLocation".
Definition CLUSTER_NAME_FRIENDLY_KEY := "cluster_name_friendly".

Definition ENABLE_TRAINING := "enableTraining".
Definition ENABLE_INFERENCE := "enableInference".

Definition RELAY_SERVER_CONNECTION_STRING := "relayServerConnectionString".
Definition SERVICE_BUS_CONNECTION_STRING := "serviceBusConnectionString".
Definition LOG_ANALYTICS_WS_ENABLED := "logAnalyticsWS".

Definition RELAY_HC_AUTH_NAME := "azureml_rw".
Definition SERVICE_BUS_COMPUTE_STATE_TOPIC := "computestate-updatedby-computeprovider".
Definition SERVICE_BUS_COMPUTE_STATE_SUB := "compute-scheduler-computestate".
Definition SERVICE_BUS_JOB_STATE_TOPIC := "jobstate-updatedby-computeprovider".
Definition SERVICE_BUS_JOB_STATE_SUB := "compute-scheduler-jobstate".

Definition sslKeyPemFile := "sslKeyPemFile".
Definition sslCertPemFile := "sslCertPemFile".
Definition allowInsecureConnections := "allowInsecureConnections".
Definition privateEndpointILB := "privateEndpointILB".
Definition privateEndpointNodeport := "privateEndpointNodeport".
Definition inferenceLoadBalancerHA := "inferenceLoadBalancerHA".
Definition SSL_SECRET := "sslSecret".

Definition IS_AKS_MIGRATION := "isAKSMigration".

Definition installNvidiaDevicePlugin := "installNvidiaDevicePlugin".

Definition reference_mapping : list (string * list string) :=
  [ (RELAY_SERVER_CONNECTION_STRING, [RELAY_CONNECTION_STRING_KEY]);
    (SERVICE_BUS_CONNECTION_STRING, [SERVICE_BUS_CONNECTION_STRING_KEY]);
    ("cluster_name",
     ["clusterId"; "prometheus.prometheusSpec.externalLabels.cluster_name"]) ].

(** *** The messages of the errors and warnings *)

Definition invalid_scope_msg (scope : string) : string :=
  "Invalid scope '" +:+ scope
  +:+ "'.  This extension can be installed only at 'cluster' scope.".

Definition duplicate_key_warning (key : string) : string :=
  "Duplicate keys found in both configuration settings and configuration protected setttings: "
  +:+ key.

Definition duplicate_keys_msg : string := "Duplicate keys found.".

Definition enable_flags_msg : string :=
  "To create Microsoft.AzureML.Kubernetes extension, either "
  +:+ "enable Machine Learning training or inference by specifying "
  +:+ "'--configuration-settings " +:+ ENABLE_TRAINING
  +:+ "=true' or '--configuration-settings " +:+ ENABLE_INFERENCE +:+ "=true'".

Definition tls_msg (release_namespace : string) : string :=
  "To enable HTTPs endpoint, "
  +:+ "either provide sslCertPemFile and sslKeyPemFile to config protected settings, "
  +:+ "or provide sslSecret (kubernetes secret name) containing both ssl cert and ssl key under "
  +:+ release_namespace +:+ " namespace. "
  +:+ "Otherwise, to enable HTTP endpoint, explicitly set allowInsecureConnections=true.".

Definition mutually_exclusive_msg : string :=
  "Specify either privateEndpointNodeport=true or privateEndpointILB=true, but not both.".

Definition experimental_warning : string :=
  "The installed AzureML extension for AML inference is experimental and not covered by customer support. Please use with discretion.".

Definition insecure_warning : string :=
  "SSL is not enabled. Allowing insecure connections to the deployed services.".

Definition ilb_warning : string :=
  "Internal load balancer only supported on AKS and AKS Engine Clusters.".

(** *** The manifests *)

Record ScopeCluster := { sc_release_namespace : string }.

Record Scope := {
  scope_cluster : option ScopeCluster;
  scope_namespace : option string
}.

Record Extension := {
  extension_type : string;
  auto_upgrade_minor_version : option bool;
  release_train : string;
  version : option string;
  scope : Scope;
  configuration_settings : gmap string value;
  configuration_protected_settings : gmap string value;
  identity : option string;
  location : string
}.

Record PatchExtension := {
  patch_auto_upgrade_minor_version : option bool;
  patch_release_train : option string;
  patch_version : option string;
  patch_configuration_settings : gmap string value;
  patch_configuration_protected_settings : gmap string value
}.

Section Methods.

Context (cmd : Env).

(** The effective value of a key, read from the dictionaries as they are at
    this point. *)
Definition effective (key : string) (cs cps : dict_ref) : M value :=
  config ← read cs;
  protected_config ← read cps;
  mret (_get_value_from_config_protected_config key config protected_config).

Definition __set_inference_ssl_from_secret (cs : dict_ref) (fe_ssl_secret : value)
  : M unit :=
  write cs "scoringFe.sslSecret" fe_ssl_secret.

(** [open(path).read()], then [.encode("ascii")] and base64. *)
Definition read_b64 (path : value) : M string :=
  emit (OpenFile path);;
  data ← outcome (read_file cmd path);
  match PyStr.encode_ascii data with
  | Some data_bytes => mret (Base64.b64encode data_bytes)
  | None => raise UnicodeEncodeError
  end.

Definition __set_inference_ssl_from_file (cps : dict_ref)
    (fe_ssl_cert_file fe_ssl_key_file : value) : M unit :=
  ssl_cert ← read_b64 fe_ssl_cert_file;
  write cps "scoringFe.sslCert" (VStr ssl_cert);;
  ssl_key ← read_b64 fe_ssl_key_file;
  write cps "scoringFe.sslKey" (VStr ssl_key).

Definition __set_up_inference_ssl (cs cps : dict_ref) : M unit :=
  allow ← effective allowInsecureConnections cs cps;
  let allow := str_lower_is "true" allow in
  if negb allow then
    fe_ssl_secret ← effective SSL_SECRET cs cps;
    protected_config ← read cps;
    let fe_ssl_cert_file := py_get protected_config sslCertPemFile in
    let fe_ssl_key_file := py_get protected_config sslKeyPemFile in
    if truthy fe_ssl_cert_file && truthy fe_ssl_key_file
    then __set_inference_ssl_from_file cps fe_ssl_cert_file fe_ssl_key_file
    else __set_inference_ssl_from_secret cs fe_ssl_secret
  else warning insecure_warning.

Definition __validate_scoring_fe_settings (cs cps : dict_ref)
    (release_namespace : string) : M unit :=
  isTestCluster ← effective inferenceLoadBalancerHA cs cps;
  let isTestCluster := str_lower_is "false" isTestCluster in
  (if isTestCluster
   then write cs "clusterPurpose" (VStr "DevTest")
   else write cs "clusterPurpose" (VStr "FastProd"));;
  isAKSMigration ← effective IS_AKS_MIGRATION cs cps;
  let isAKSMigration := str_lower_is "true" isAKSMigration in
  (if isAKSMigration
   then write cs "scoringFe.namespace" (VStr "default");;
        write cs IS_AKS_MIGRATION (VStr "true")
   else mret tt);;
  sslSecret ← effective SSL_SECRET cs cps;
  protected_config ← read cps;
  let feSslCertFile := py_get protected_config sslCertPemFile in
  let feSslKeyFile := py_get protected_config sslKeyPemFile in
  allow ← effective allowInsecureConnections cs cps;
  let allow := str_lower_is "true" allow in
  let sslEnabled := (truthy feSslCertFile && truthy feSslKeyFile) || truthy sslSecret in
  (if negb sslEnabled && negb allow
   then raise (InvalidArgumentValueError (tls_msg release_namespace))
   else mret tt);;
  feIsNodePort ← effective privateEndpointNodeport cs cps;
  let feIsNodePort := str_lower_is "true" feIsNodePort in
  feIsInternalLoadBalancer ← effective privateEndpointILB cs cps;
  let feIsInternalLoadBalancer := str_lower_is "true" feIsInternalLoadBalancer in
  (if feIsNodePort && feIsInternalLoadBalancer
   then raise (MutuallyExclusiveArgumentError mutually_exclusive_msg)
   else mret tt);;
  if feIsNodePort
  then write cs "scoringFe.serviceType.nodePort" (VBool feIsNodePort)
  else if feIsInternalLoadBalancer
  then write cs "scoringFe.serviceType.internalLoadBalancer"
         (VBool feIsInternalLoadBalancer);;
       warning ilb_warning
  else mret tt.

(** The duplicate keys are logged in the iteration order of a Python set,
    which is unspecified; here in the order of [elements]. *)
Definition __validate_config (cs cps : dict_ref) (release_namespace : string)
  : M unit :=
  config ← read cs;
  protected_config ← read cps;
  let dup_keys : gset string := dom config ∩ dom protected_config in
  (if bool_decide (dup_keys ≠ ∅)
   then for_each (elements dup_keys) (fun key =>
          warning (duplicate_key_warning key));;
        raise (InvalidArgumentValueError duplicate_keys_msg)
   else mret tt);;
  enable_training ← effective ENABLE_TRAINING cs cps;
  let enable_training := str_lower_is "true" enable_training in
  enable_inference ← effective ENABLE_INFERENCE cs cps;
  let enable_inference := str_lower_is "true" enable_inference in
  (if enable_inference
   then warning experimental_warning;;
        __validate_scoring_fe_settings cs cps release_namespace;;
        __set_up_inference_ssl cs cps
   else if negb (enable_training || enable_inference)
   then raise (InvalidArgumentValueError enable_flags_msg)
   else mret tt);;
  config ← read cs;
  write cs ENABLE_TRAINING
    (get_default config ENABLE_TRAINING (VBool enable_training));;
  config ← read cs;
  write cs ENABLE_INFERENCE
    (get_default config ENABLE_INFERENCE (VBool enable_inference));;
  pop cps ENABLE_TRAINING;;
  pop cps ENABLE_INFERENCE.

Definition __create_required_resource (cs cps : dict_ref)
    (subscription_id resource_group_name cluster_name cluster_location : string)
  : M unit :=
  config ← read cs;
  protected_config ← read cps;
  (if str_lower_is "true" (get_default config LOG_ANALYTICS_WS_ENABLED (VBool false))
      && negb (truthy (py_get config AZURE_LOG_ANALYTICS_CONNECTION_STRING))
      && negb (truthy (py_get protected_config AZURE_LOG_ANALYTICS_CONNECTION_STRING))
   then
     info "==== BEGIN LOG ANALYTICS WORKSPACE CREATION ====";;
     '(ws_costumer_id, shared_key) ←
       _get_log_analytics_ws_connection_string cmd subscription_id
         resource_group_name cluster_name cluster_location false;
     info "==== END LOG ANALYTICS WORKSPACE CREATION ====";;
     write cs AZURE_LOG_ANALYTICS_ENABLED_KEY (VBool true);;
     write cs AZURE_LOG_ANALYTICS_CUSTOMER_ID_KEY (VStr ws_costumer_id);;
     write cps AZURE_LOG_ANALYTICS_CONNECTION_STRING (VStr shared_key)
   else mret tt);;
  config ← read cs;
  protected_config ← read cps;
  (if negb (truthy (py_get config RELAY_SERVER_CONNECTION_STRING))
      && negb (truthy (py_get protected_config RELAY_SERVER_CONNECTION_STRING))
   then
     info "==== BEGIN RELAY CREATION ====";;
     '(relay_connection_string, hc_resource_id, hc_name) ←
       _get_relay_connection_str cmd subscription_id resource_group_name
         cluster_name cluster_location RELAY_HC_AUTH_NAME false;
     info "==== END RELAY CREATION ====";;
     write cps RELAY_SERVER_CONNECTION_STRING (VStr relay_connection_string);;
     write cs HC_RESOURCE_ID_KEY (VStr hc_resource_id);;
     write cs RELAY_HC_NAME_KEY (VStr hc_name)
   else mret tt);;
  config ← read cs;
  protected_config ← read cps;
  if negb (truthy (py_get config SERVICE_BUS_CONNECTION_STRING))
     && negb (truthy (py_get protected_config SERVICE_BUS_CONNECTION_STRING))
  then
    info "==== BEGIN SERVICE BUS CREATION ====";;
    let topic_sub_mapping :=
      [ (SERVICE_BUS_COMPUTE_STATE_TOPIC, SERVICE_BUS_COMPUTE_STATE_SUB);
        (SERVICE_BUS_JOB_STATE_TOPIC, SERVICE_BUS_JOB_STATE_SUB) ] in
    res ← _get_service_bus_connection_string cmd subscription_id
            resource_group_name cluster_name cluster_location
            topic_sub_mapping false;
    match res with
    | None => raise (TypeError "cannot unpack non-iterable NoneType object")
    | Some (service_bus_connection_string, service_buse_resource_id) =>
        info "==== END SERVICE BUS CREATION ====";;
        write cps SERVICE_BUS_CONNECTION_STRING (VStr service_bus_connection_string);;
        write cs SERVICE_BUS_RESOURCE_ID_KEY (VStr service_buse_resource_id);;
        write cs (SERVICE_BUS_TOPIC_SUB_MAPPING_KEY +:+ "."
                  +:+ SERVICE_BUS_COMPUTE_STATE_TOPIC)
          (VStr SERVICE_BUS_COMPUTE_STATE_SUB);;
        write cs (SERVICE_BUS_TOPIC_SUB_MAPPING_KEY +:+ "."
                  +:+ SERVICE_BUS_JOB_STATE_TOPIC)
          (VStr SERVICE_BUS_JOB_STATE_SUB)
    end
  else mret tt.

(** [if not release_namespace] *)
Definition falsy_str (s : option string) : bool :=
  match s with
  | None => true
  | Some s => String.eqb s ""
  end.

(** [cs] and [cps] are the caller's two dictionaries: the validation and the
    provisioning update them in place, and the manifest holds the copies made
    by [_dereference].  [target_namespace] and the two file arguments are
    not used. *)
Definition Create (resource_group_name cluster_name name cluster_type
                     extension_type : string)
    (scope : option string) (auto_upgrade_minor_version : option bool)
    (release_train version target_namespace release_namespace : option string)
    (cs cps : dict_ref)
    (configuration_settings_file configuration_protected_settings_file
       : option string)
  : M (Extension * string * bool) :=
  (if bool_decide (scope = Some "namespace")
   then raise (InvalidArgumentValueError (invalid_scope_msg "namespace"))
   else mret tt);;
  let release_namespace :=
    if falsy_str release_namespace then DEFAULT_RELEASE_NAMESPACE
    else default "" release_namespace in
  let scope_cluster := {| sc_release_namespace := release_namespace |} in
  let ext_scope :=
    {| scope_cluster := Some scope_cluster; scope_namespace := None |} in
  __validate_config cs cps release_namespace;;
  let subscription_id := get_subscription_id cmd in
  '(cluster_rp, parent_api_version) ←
    outcome (get_cluster_rp_api_version cmd cluster_type);
  let cluster_resource_id :=
    "/subscriptions/" +:+ subscription_id +:+ "/resourceGroups/"
    +:+ resource_group_name +:+ "/providers/" +:+ cluster_rp +:+ "/"
    +:+ cluster_type +:+ "/" +:+ cluster_name in
  resource_location ←
    call (ResourcesGetById cluster_resource_id parent_api_version)
         (resources_get_by_id cmd cluster_resource_id parent_api_version);
  let cluster_location := PyStr.lower resource_location in
  config ← read cs;
  write cs "cluster_name"
    (get_default config "cluster_name" (VStr cluster_resource_id));;
  config ← read cs;
  write cs "domain"
    (get_default config "doamin" (VStr (cluster_location +:+ ".cloudapp.azure.com")));;
  config ← read cs;
  write cs "location" (get_default config "location" (VStr cluster_location));;
  config ← read cs;
  write cs JOB_SCHEDULER_LOCATION_KEY
    (get_default config JOB_SCHEDULER_LOCATION_KEY (VStr cluster_location));;
  config ← read cs;
  write cs CLUSTER_NAME_FRIENDLY_KEY
    (get_default config CLUSTER_NAME_FRIENDLY_KEY (VStr cluster_name));;
  __create_required_resource cs cps subscription_id resource_group_name
    cluster_name cluster_location;;
  config ← read cs;
  let configuration_settings := _dereference reference_mapping config in
  protected_config ← read cps;
  let configuration_protected_settings :=
    _dereference reference_mapping protected_config in
  let release_train := default "stable" release_train in
  let create_identity := true in
  let extension :=
    {| extension_type := extension_type;
       auto_upgrade_minor_version := auto_upgrade_minor_version;
       release_train := release_train;
       version := version;
       scope := ext_scope;
       configuration_settings := configuration_settings;
       configuration_protected_settings := configuration_protected_settings;
       identity := None;
       location := "" |} in
  mret (extension, name, create_identity).

Definition Delete (resource_group_name cluster_name name cluster_type : string)
    (yes : bool) : M unit :=
  warning ("If nvidia.com/gpu or fuse resource is not recognized by kubernetes after this deletion, "
           +:+ "you probably have installed nvidia-device-plugin or fuse-device-plugin before installing AMLArc extension. "
           +:+ "Please try to reinstall device plugins to fix this issue.");;
  emit (Confirmation yes None);;
  outcome (user_confirmation_factory cmd yes None).

Definition __normalize_config (cs cps : dict_ref) : M unit :=
  isTestCluster ← effective inferenceLoadBalancerHA cs cps;
  (if is_not_None isTestCluster then
     let isTestCluster := str_lower_is "false" isTestCluster in
     if isTestCluster
     then write cs "clusterPurpose" (VStr "DevTest")
     else write cs "clusterPurpose" (VStr "FastProd")
   else mret tt);;
  feIsNodePort ← effective privateEndpointNodeport cs cps;
  (if is_not_None feIsNodePort then
     let feIsNodePort := str_lower_is "true" feIsNodePort in
     write cs "scoringFe.serviceType.nodePort" (VBool feIsNodePort)
   else mret tt);;
  feIsInternalLoadBalancer ← effective privateEndpointILB cs cps;
  if is_not_None feIsInternalLoadBalancer then
    let feIsInternalLoadBalancer := str_lower_is "true" feIsInternalLoadBalancer in
    write cs "scoringFe.serviceType.internalLoadBalancer"
      (VBool feIsInternalLoadBalancer);;
    warning ilb_warning
  else mret tt.

Definition nl : string := String (ascii_of_nat 10) EmptyString.

Definition confirm (yes : bool) (message : string) : M unit :=
  emit (Confirmation yes (Some message));;
  outcome (user_confirmation_factory cmd yes (Some message)).

(** The first half of [Update]: the confirmation asked for when the new
    settings affect running workloads. *)
Definition Update_prompt (cs cps : dict_ref) (yes : bool) : M unit :=
  let messageBody := "" in
  enableTraining ← effective ENABLE_TRAINING cs cps;
  let disableTraining :=
    is_not_None enableTraining && str_lower_is "false" enableTraining in
  let messageBody :=
    if disableTraining
    then messageBody +:+ "enableTraining from True to False," +:+ nl
    else messageBody in
  enableInference ← effective ENABLE_INFERENCE cs cps;
  let disableInference :=
    is_not_None enableInference && str_lower_is "false" enableInference in
  let messageBody :=
    if disableInference
    then messageBody +:+ "enableInference from True to False," +:+ nl
    else messageBody in
  installNvidia ← effective installNvidiaDevicePlugin cs cps;
  let disableNvidiaDevicePlugin :=
    is_not_None installNvidia && str_lower_is "false" installNvidia in
  let messageBody :=
    if disableNvidiaDevicePlugin
    then messageBody
         +:+ "installNvidiaDevicePlugin from True to False if Nvidia GPU is used,"
         +:+ nl
    else messageBody in
  allow ← effective allowInsecureConnections cs cps;
  let hasAllowInsecureConnections := is_not_None allow in
  let messageBody :=
    if hasAllowInsecureConnections
    then messageBody +:+ "allowInsecureConnections" +:+ nl
    else messageBody in
  nodeport ← effective privateEndpointNodeport cs cps;
  let hasPrivateEndpointNodeport := is_not_None nodeport in
  let messageBody :=
    if hasPrivateEndpointNodeport
    then messageBody +:+ "privateEndpointNodeport" +:+ nl
    else messageBody in
  ilb ← effective privateEndpointILB cs cps;
  let hasPrivateEndpointILB := is_not_None ilb in
  let messageBody :=
    if hasPrivateEndpointILB
    then messageBody +:+ "privateEndpointILB" +:+ nl
    else messageBody in
  config ← read cs;
  protected_config ← read cps;
  let hasNodeSelector := _check_nodeselector_existed config protected_config in
  let messageBody :=
    if hasNodeSelector
    then messageBody
         +:+ "nodeSelector. Update operation can't remove an existed node selector, but can update or add new ones."
         +:+ nl
    else messageBody in
  logAnalyticsWS ← effective LOG_ANALYTICS_WS_ENABLED cs cps;
  let enableLogAnalyticsWS :=
    is_not_None logAnalyticsWS && str_lower_is "true" logAnalyticsWS in
  let messageBody :=
    if enableLogAnalyticsWS
    then messageBody
         +:+ "To update logAnalyticsWS from False to True, please provide all original configurationProtectedSettings. Otherwise, those settings would be considered obsolete and deleted."
         +:+ nl
    else messageBody in
  let impactScenario :=
    if disableTraining || disableNvidiaDevicePlugin || hasNodeSelector
    then "jobs" else "" in
  let impactScenario :=
    if disableInference || disableNvidiaDevicePlugin
       || hasAllowInsecureConnections || hasPrivateEndpointNodeport
       || hasPrivateEndpointILB || hasNodeSelector
    then if String.eqb impactScenario ""
         then "online endpoints and deployments"
         else impactScenario +:+ ", online endpoints and deployments"
    else impactScenario in
  if negb (String.eqb impactScenario "")
  then confirm yes
         (nl +:+ "The following configuration update will IMPACT your active Machine Learning "
          +:+ impactScenario
          +:+ ". It will be the safe update if the cluster doesn't have active Machine Learning "
          +:+ impactScenario +:+ "." +:+ nl +:+ nl +:+ messageBody +:+ nl
          +:+ "Proceed?")
  else if enableLogAnalyticsWS
  then confirm yes (nl +:+ messageBody +:+ nl +:+ "Proceed?")
  else mret tt.

(** [k in d] *)
Definition has_key (k : string) (d : gmap string value) : bool :=
  bool_decide (k ∈ dom d).

(** The second half of [Update], one step per auxiliary resource: a
    connection string missing from the protected settings is fetched from the
    resource. *)
Definition Update_log_analytics (cps : dict_ref)
    (subscription_id resource_group_name cluster_name : string) : M unit :=
  protected_config ← read cps;
  if negb (has_key AZURE_LOG_ANALYTICS_CONNECTION_STRING protected_config) then
  try_except
    ('(_, shared_key) ←
       _get_log_analytics_ws_connection_string cmd subscription_id
         resource_group_name cluster_name "" true;
     write cps AZURE_LOG_ANALYTICS_CONNECTION_STRING (VStr shared_key);;
     info "Get log analytics connection string succeeded.")
    (fun ex =>
       match ex with
       | Foreign (HttpResponseError _) =>
           info "Failed to get log analytics connection string."
       | _ => raise ex
       end)
  else mret tt.

Definition Update_relay (cps : dict_ref)
    (subscription_id resource_group_name cluster_name : string) : M unit :=
  protected_config ← read cps;
  if negb (has_key RELAY_SERVER_CONNECTION_STRING protected_config) then
  try_except
    ('(relay_connection_string, _, _) ←
       _get_relay_connection_str cmd subscription_id resource_group_name
         cluster_name "" RELAY_HC_AUTH_NAME true;
     write cps RELAY_SERVER_CONNECTION_STRING (VStr relay_connection_string);;
     info "Get relay connection string succeeded.")
    (fun ex =>
       match ex with
       | Foreign (ErrorResponseException status_code) =>
           if status_code =? 404
           then raise (ResourceNotFoundError "Relay server not found.")
           else raise (AzureResponseError "Failed to get relay connection string.")
       | _ => raise ex
       end)
  else mret tt.

Definition Update_service_bus (cps : dict_ref)
    (subscription_id resource_group_name cluster_name : string) : M unit :=
  protected_config ← read cps;
  if negb (has_key SERVICE_BUS_CONNECTION_STRING protected_config) then
  try_except
    (res ← _get_service_bus_connection_string cmd subscription_id
             resource_group_name cluster_name "" [] true;
     match res with
     | None => raise (TypeError "cannot unpack non-iterable NoneType object")
     | Some (service_bus_connection_string, _) =>
         write cps SERVICE_BUS_CONNECTION_STRING
           (VStr service_bus_connection_string);;
         info "Get service bus connection string succeeded."
     end)
    (fun ex =>
       match ex with
       | Foreign (HttpResponseError status_code) =>
           if status_code =? 404
           then raise (ResourceNotFoundError "Service bus not found.")
           else raise (AzureResponseError "Failed to get service bus connection string.")
       | _ => raise ex
       end)
  else mret tt.

Definition Update (resource_group_name cluster_name : string)
    (auto_upgrade_minor_version : option bool)
    (release_train version : option string) (cs cps : dict_ref) (yes : bool)
  : M PatchExtension :=
  __normalize_config cs cps;;
  config ← read cs;
  (if bool_decide (config ≠ ∅) then Update_prompt cs cps yes else mret tt);;
  protected_config ← read cps;
  cps' ←
    (if bool_decide (protected_config ≠ ∅) then
       let subscription_id := get_subscription_id cmd in
       Update_log_analytics cps subscription_id resource_group_name
         cluster_name;;
       Update_relay cps subscription_id resource_group_name cluster_name;;
       Update_service_bus cps subscription_id resource_group_name
         cluster_name;;
       protected_config ← read cps;
       modify TheCopy (fun _ => _dereference reference_mapping protected_config);;
       copy ← read TheCopy;
       (if has_key sslKeyPemFile copy && has_key sslCertPemFile copy
        then info ("Both " +:+ sslKeyPemFile +:+ " and " +:+ sslCertPemFile
                   +:+ " are set, update ssl key.");;
             __set_inference_ssl_from_file TheCopy (VStr sslCertPemFile)
               (VStr sslKeyPemFile)
        else mret tt);;
       mret TheCopy
     else mret cps);
  config ← read cs;
  protected_config ← read cps';
  mret {| patch_auto_upgrade_minor_version := auto_upgrade_minor_version;
          patch_release_train := release_train;
          patch_version := version;
          patch_configuration_settings := config;
          patch_configuration_protected_settings := protected_config |}.

End Methods.

End AzureMLKubernetes.

(** ** alertsmanagement/generated/action.py: class AddConditions *)

Module AddConditions.

(** [x.split('=', 1)] unpacked into [(k, v)]: [None] stands for the
    [ValueError] of unpacking a single element. *)
Fixpoint split_eq (x : string) : option (string * string) :=
  match x with
  | EmptyString => None
  | String c x' =>
      if Ascii.eqb c "="%char then Some (EmptyString, x')
      else match split_eq x' with
           | Some (k, v) => Some (String c k, v)
           | None => None
           end
  end.

(** [properties[k].append(v)] on a [defaultdict(list)], which keeps its keys
    in the order of their first insertion. *)
Fixpoint append_value (k v : string) (properties : list (string * list string))
  : list (string * list string) :=
  match properties with
  | [] => [(k, [v])]
  | (k', vs) :: rest =>
      if String.eqb k' k then (k', vs ++ [v]) :: rest
      else (k', vs) :: append_value k v rest
  end.

Fixpoint group (values : list string) (properties : list (string * list string))
  : option (list (string * list string)) :=
  match values with
  | [] => Some properties
  | x :: values' =>
      match split_eq x with
      | Some (k, v) => group values' (append_value k v properties)
      | None => None
      end
  end.

(** The dictionary [d]: a key that was never assigned is absent. *)
Record conditions := {
  field : option string;
  operator : option string;
  values : option (list string)
}.

Definition usage_msg (option_string : string) : string :=
  "usage error: " +:+ option_string +:+ " [KEY=VALUE ...]".

Definition permitted_keys : string := "field, operator, values".

Definition unsupported_msg (k : string) : string :=
  "Unsupported Key " +:+ k
  +:+ " is provided for parameter conditions. All possible keys are: "
  +:+ permitted_keys.

(** [v[0]] *)
Definition first (v : list string) : exn + string :=
  match v with
  | v0 :: _ => inr v0
  | [] => inl (IndexError "list index out of range")
  end.

(** One iteration of [for k in properties]. *)
Definition assign (d : conditions) (kv : string * list string)
  : exn + conditions :=
  let '(k, v) := kv in
  let kl := PyStr.lower k in
  if String.eqb kl "field" then
    match first v with
    | inr v0 => inr {| field := Some v0; operator := operator d; values := values d |}
    | inl e => inl e
    end
  else if String.eqb kl "operator" then
    match first v with
    | inr v0 => inr {| field := field d; operator := Some v0; values := values d |}
    | inl e => inl e
    end
  else if String.eqb kl "values" then
    inr {| field := field d; operator := operator d; values := Some v |}
  else inl (CLIError (unsupported_msg k)).

Fixpoint project (properties : list (string * list string)) (d : conditions)
  : exn + conditions :=
  match properties with
  | [] => inr d
  | kv :: rest =>
      match assign d kv with
      | inr d' => project rest d'
      | inl e => inl e
      end
  end.

Definition empty : conditions :=
  {| field := None; operator := None; values := None |}.

Definition get_action (vals : list string) (option_string : string)
  : exn + conditions :=
  match group vals [] with
  | None => inl (CLIError (usage_msg option_string))
  | Some properties => project properties empty
  end.

(** [__call__]: the parsed record is appended to the list the namespace
    holds for this option. *)
Definition __call__ (items : list conditions) (vals : list string)
    (option_string : string) : exn + list conditions :=
  match get_action vals option_string with
  | inr action => inr (items ++ [action])
  | inl e => inl e
  end.

(** *** The parser as the specification words it *)

Definition assoc (k : string) (l : list (string * list string))
  : option (list string) :=
  match List.find (fun kv => String.eqb (fst kv) k) l with
  | Some kv => Some (snd kv)
  | None => None
  end.

Definition permitted (k : string) : bool :=
  String.eqb k "field" || String.eqb k "operator" || String.eqb k "values".

(** Grouping "by lowercased key into a multi-valued map". *)
Fixpoint spec_group (pairs : list (string * string))
    (m : list (string * list string)) : list (string * list string) :=
  match pairs with
  | [] => m
  | (k, v) :: pairs' => spec_group pairs' (append_value (PyStr.lower k) v m)
  end.

(** "{field: first value of 'field', operator: first value of 'operator',
    values: all values of 'values'}", and an error ([None]) for a key outside
    the permitted set. *)
Definition spec_record (m : list (string * list string)) : option conditions :=
  if forallb (fun kv => permitted (fst kv)) m
  then Some {| field := assoc "field" m ≫= head;
               operator := assoc "operator" m ≫= head;
               values := assoc "values" m |}
  else None.

Fixpoint split_all (vals : list string) : option (list (string * string)) :=
  match vals with
  | [] => Some []
  | x :: vals' =>
      match split_eq x, split_all vals' with
      | Some kv, Some rest => Some (kv :: rest)
      | _, _ => None
      end
  end.

(** The parser as the specification words it, on a list of tokens. *)
Definition spec_get_action (vals : list string) : option conditions :=
  match split_all vals with
  | Some pairs => spec_record (spec_group pairs [])
  | None => None
  end.

(** *** Notions used by the properties *)

(** The groups [group] builds from tokens that all split. *)
Fixpoint group_pairs (pairs : list (string * string))
    (properties : list (string * list string)) : list (string * list string) :=
  match pairs with
  | [] => properties
  | (k, v) :: pairs' => group_pairs pairs' (append_value k v properties)
  end.

(** Keys that agree up to letter case are spelled the same. *)
Definition case_consistent (keys : list string) : bool :=
  forallb (fun a =>
             forallb (fun b =>
                        implb (String.eqb (PyStr.lower a) (PyStr.lower b))
                              (String.eqb a b))
                     keys)
          keys.

Definition consistent_on (keys : list string) : Prop :=
  forall a b, a ∈ keys -> b ∈ keys -> PyStr.lower a = PyStr.lower b -> a = b.

(** No key has an empty list of values. *)
Definition nonempty_groups (properties : list (string * list string)) : Prop :=
  Forall (fun kv => snd kv <> []) properties.

(** The record of a call that returned. *)
Definition parsed (r : exn + conditions) : option conditions :=
  match r with
  | inr d => Some d
  | inl _ => None
  end.

Definition lower_keys (properties : list (string * list string))
  : list (string * list string) :=
  map (fun kv => (PyStr.lower (fst kv), snd kv)) properties.

End AddConditions.

(** ** Sample environments

    Used to run the installer on concrete inputs.  In [lookup_env] every
    collaborator answers, but for three calls made when the connection
    strings are looked up, whose outcomes are given: the shared keys of the
    workspace, the keys of the relay, the service bus namespace.  In
    [sample_env] these three answer too. *)

Definition lookup_env (shared_keys relay_keys : foreign_error + string)
    (service_bus : foreign_error + string) : Env := {|
  get_subscription_id := "sub";
  get_cluster_rp_api_version := fun _ => inr ("Microsoft.Kubernetes", "2021-10-01");
  user_confirmation_factory := fun _ _ => inr tt;
  read_file := fun _ => inr "PEM";
  resources_get_by_id := fun _ _ => inr "EastUS";
  relay_namespaces_create_or_update := fun _ _ _ => inr tt;
  relay_hybrid_connections_create_or_update := fun _ _ _ => inr "hc-id";
  relay_create_or_update_authorization_rule := fun _ _ _ _ => inr tt;
  relay_list_keys := fun _ _ _ _ => relay_keys;
  servicebus_namespaces_create_or_update := fun _ _ _ => inr tt;
  servicebus_topics_create_or_update := fun _ _ _ => inr tt;
  servicebus_subscriptions_create_or_update := fun _ _ _ _ => inr tt;
  servicebus_namespaces_get := fun _ _ => service_bus;
  servicebus_list_authorization_rules := fun _ _ => inr ["RootManageSharedAccessKey"];
  servicebus_list_keys := fun _ _ _ => inr "sb-key";
  workspaces_create_or_update := fun _ _ _ => inr "customer";
  workspaces_get_shared_keys := fun _ _ => shared_keys
|}.

Definition sample_env : Env :=
  lookup_env (inr "shared") (inr "relay-key") (inr "sb-id").

(** [Create] as the command line calls it on the cluster "mycluster" of the
    resource group "rg". *)
Definition sample_Create (env : Env) (scope : option string)
    (cs cps : gmap string value) :=
  run (AzureMLKubernetes.Create env "rg" "mycluster" "amlarc"
         "connectedClusters" "Microsoft.AzureML.Kubernetes" scope None None
         None None None TheSettings TheProtected None None) cs cps.

(** [Update] in the same setting. *)
Definition sample_Update (env : Env) (cs cps : gmap string value) :=
  run (AzureMLKubernetes.Update env "rg" "mycluster" None None None
         TheSettings TheProtected true) cs cps.

(** ** Notions used by the properties *)

(** The alphanumeric-filtered form of a name, and the MD5 hex digest of its
    UTF-8 encoding. *)
Definition normalized (input_name : string) : string :=
  PyStr.filter PyStr.isalnum_char input_name.

Definition md5_hex (input_name : string) : string :=
  MD5.hexdigest (PyStr.encode_utf8 input_name).

(** A computation that, started in the store [st], does not raise an
    exception of the set [bad]; and one that never does. *)
Definition avoids_at {A} (bad : exn -> Prop) (m : M A) (st : store) : Prop :=
  forall e, fst (m st) = inl e -> ~ bad e.

Definition avoids {A} (bad : exn -> Prop) (m : M A) : Prop :=
  forall st, avoids_at bad m st.

(** The reading of a flag: the string form of its effective value (the
    settings first, then the protected settings), lowercased, is the word. *)
Definition reads (word key : string) (cs cps : gmap string value) : bool :=
  str_lower_is word (_get_value_from_config_protected_config key cs cps).

(** A reference mapping in which no concrete key is listed under two
    virtual keys. *)
Fixpoint lists_disjoint (m : list (string * list string)) : bool :=
  match m with
  | [] => true
  | (_, l) :: rest =>
      forallb (fun x =>
                 forallb (fun e => negb (existsb (String.eqb x) (snd e))) rest)
              l
      && lists_disjoint rest
  end.

(** The settings of the manifest [Create] returned. *)
Definition manifest_settings
    (r : (exn + (AzureMLKubernetes.Extension * string * bool)) * store)
  : option (gmap string value) :=
  match fst r with
  | inr (extension, _, _) =>
      Some (AzureMLKubernetes.configuration_settings extension)
  | inl _ => None
  end.

(** A computation that leaves the three dictionaries as they are. *)
Definition keeps_dicts {A} (m : M A) : Prop :=
  forall st,
    settings (snd (m st)) = settings st
    /\ protected (snd (m st)) = protected st
    /\ copied (snd (m st)) = copied st.

(** A computation that only adds events to the trace. *)
Definition extends {A} (m : M A) : Prop :=
  forall st, exists evs, trace (snd (m st)) = trace st ++ evs.

(** The first event of a run. *)
Definition first_event {A} (r : (exn + A) * store) : option event :=
  head (trace (snd r)).

(** The test that guards the creation of the Log Analytics workspace, on the
    dictionaries [__create_required_resource] starts with. *)
Definition log_analytics_guard (cs cps : gmap string value) : bool :=
  str_lower_is "true"
    (get_default cs AzureMLKubernetes.LOG_ANALYTICS_WS_ENABLED (VBool false))
  && negb (truthy (py_get cs AzureMLKubernetes.AZURE_LOG_ANALYTICS_CONNECTION_STRING))
  && negb (truthy (py_get cps AzureMLKubernetes.AZURE_LOG_ANALYTICS_CONNECTION_STRING)).

(** A run that returned. *)
Definition returned {A} (r : (exn + A) * store) : bool :=
  match fst r with
  | inr _ => true
  | inl _ => false
  end.

(** The errors that reject a scope. *)
Definition is_scope_error (e : exn) : Prop :=
  exists s, e = InvalidArgumentValueError (AzureMLKubernetes.invalid_scope_msg s).

(** The settings as the inference validation leaves them before its
    tests, and whether it finds TLS material, both read off the dictionaries
    it starts with. *)
Definition scoring_settings (cs cps : gmap string value) : gmap string value :=
  let cs1 :=
    <["clusterPurpose" :=
        VStr (if reads "false" AzureMLKubernetes.inferenceLoadBalancerHA cs cps
              then "DevTest" else "FastProd")]> cs in
  if reads "true" AzureMLKubernetes.IS_AKS_MIGRATION cs cps
  then <[AzureMLKubernetes.IS_AKS_MIGRATION := VStr "true"]>
         (<["scoringFe.namespace" := VStr "default"]> cs1)
  else cs1.

Definition ssl_enabled (cs cps : gmap string value) : bool :=
  (truthy (py_get cps AzureMLKubernetes.sslCertPemFile)
   && truthy (py_get cps AzureMLKubernetes.sslKeyPemFile))
  || truthy (_get_value_from_config_protected_config
               AzureMLKubernetes.SSL_SECRET cs cps).

(** What [__validate_config] does last: the two flags are written back to
    the settings unless the caller has set them there, and removed from the
    protected settings. *)
Definition write_back (training inference : bool) (st : store) : store :=
  let cs1 :=
    <[AzureMLKubernetes.ENABLE_TRAINING :=
        get_default (settings st) AzureMLKubernetes.ENABLE_TRAINING
          (VBool training)]> (settings st) in
  Store
    (<[AzureMLKubernetes.ENABLE_INFERENCE :=
         get_default cs1 AzureMLKubernetes.ENABLE_INFERENCE (VBool inference)]>
       cs1)
    (delete AzureMLKubernetes.ENABLE_INFERENCE
       (delete AzureMLKubernetes.ENABLE_TRAINING (protected st)))
    (copied st) (trace st).

(** The store [Create] and [Update] start in, and the store with more
    events logged. *)
Definition initial (cs cps : gmap string value) : store := Store cs cps ∅ [].

Definition logged (st : store) (evs : list event) : store :=
  Store (settings st) (protected st) (copied st) (trace st ++ evs).


(** ** Further notions used by the properties *)

(** [all(p(c) for c in s)] *)
Fixpoint all_chars (p : ascii -> bool) (s : string) : bool :=
  match s with
  | EmptyString => true
  | String c s' => p c && all_chars p s'
  end.

(** A computation that, started in the store [st], only adds events to the
    trace, all of them satisfying [P]; and one that does so from every
    store. *)
Definition emits_from {A} (P : event -> bool) (m : M A) (st : store) : Prop :=
  exists evs, trace (snd (m st)) = trace st ++ evs /\ forallb P evs = true.

Definition emits {A} (P : event -> bool) (m : M A) : Prop :=
  forall st, emits_from P m st.

(** A computation that keeps an invariant of the store, however it ends. *)
Definition preserves {A} (I : store -> Prop) (m : M A) : Prop :=
  forall st, I st -> I (snd (m st)).

(** An invariant that does not look at the trace. *)
Definition ignores_trace (I : store -> Prop) : Prop :=
  forall s p c t t', I (Store s p c t) -> I (Store s p c t').

(** A computation that leaves the protected settings as they are. *)
Definition keeps_protected {A} (m : M A) : Prop :=
  forall st, protected (snd (m st)) = protected st.

(** A computation whose result, when it returns, satisfies [Q]. *)
Definition returns_with {A} (Q : A -> Prop) (m : M A) : Prop :=
  forall st a st', m st = (inr a, st') -> Q a.

(** The remote calls that create or update a resource. *)
Definition is_creation (e : event) : bool :=
  match e with
  | Remote (RelayNamespacesCreateOrUpdate _ _ _)
  | Remote (RelayHybridConnectionsCreateOrUpdate _ _ _)
  | Remote (RelayCreateOrUpdateAuthorizationRule _ _ _ _)
  | Remote (ServiceBusNamespacesCreateOrUpdate _ _ _)
  | Remote (ServiceBusTopicsCreateOrUpdate _ _ _)
  | Remote (ServiceBusSubscriptionsCreateOrUpdate _ _ _ _)
  | Remote (WorkspacesCreateOrUpdate _ _ _) => true
  | _ => false
  end.

(** The remote calls to the Relay SDK. *)
Definition is_relay_call (e : event) : bool :=
  match e with
  | Remote (RelayNamespacesCreateOrUpdate _ _ _)
  | Remote (RelayHybridConnectionsCreateOrUpdate _ _ _)
  | Remote (RelayCreateOrUpdateAuthorizationRule _ _ _ _)
  | Remote (RelayListKeys _ _ _ _) => true
  | _ => false
  end.

(** The remote calls to the Service Bus SDK. *)
Definition is_service_bus_call (e : event) : bool :=
  match e with
  | Remote (ServiceBusNamespacesCreateOrUpdate _ _ _)
  | Remote (ServiceBusTopicsCreateOrUpdate _ _ _)
  | Remote (ServiceBusSubscriptionsCreateOrUpdate _ _ _ _)
  | Remote (ServiceBusNamespacesGet _ _)
  | Remote (ServiceBusListAuthorizationRules _ _)
  | Remote (ServiceBusListKeys _ _ _) => true
  | _ => false
  end.

Definition is_confirmation (e : event) : bool :=
  match e with Confirmation _ _ => true | _ => false end.

(** Events that stay on the machine: no remote call, no confirmation. *)
Definition is_local (e : event) : bool :=
  negb (is_remote e) && negb (is_confirmation e).

(** The remote calls to the Log Analytics SDK. *)
Definition is_workspace_call (e : event) : bool :=
  match e with
  | Remote (WorkspacesCreateOrUpdate _ _ _)
  | Remote (WorkspacesGetSharedKeys _ _) => true
  | _ => false
  end.

(** A file opened under the name of one of the two keys of the PEM files,
    and the events other than the opening of any other file. *)
Definition is_key_name (v : value) : bool :=
  match v with
  | VStr s => String.eqb s AzureMLKubernetes.sslCertPemFile
              || String.eqb s AzureMLKubernetes.sslKeyPemFile
  | _ => false
  end.

Definition opens_key_names (e : event) : bool :=
  match e with
  | OpenFile path => is_key_name path
  | _ => true
  end.

Definition is_assertion_error (e : exn) : Prop :=
  exists msg, e = AssertionError msg.

(** A reference mapping in which no concrete key is itself a virtual key. *)
Definition concrete_not_virtual (m : list (string * list string)) : bool :=
  forallb (fun e =>
             forallb (fun x => negb (existsb (String.eqb x) (map fst m)))
                     (snd e))
          m.

(** A key that some reference list names, and a virtual key that is present
    in the map. *)
Definition listed (m : list (string * list string)) (k : string) : bool :=
  existsb (fun e => existsb (String.eqb k) (snd e)) m.

Definition virtual_present (m : list (string * list string))
    (d : gmap string value) : bool :=
  existsb (fun e => AzureMLKubernetes.has_key (fst e) d) m.

(** ** alertsmanagement/generated/action.py: class AddActions *)

Module AddActions.

(** The dictionary [d]. *)
Record actions := { action_type : option string }.

Definition permitted_keys : string := "action-type".

Definition unsupported_msg (k : string) : string :=
  "Unsupported Key " +:+ k
  +:+ " is provided for parameter actions. All possible keys are: "
  +:+ permitted_keys.

Definition assign (d : actions) (kv : string * list string) : exn + actions :=
  let '(k, v) := kv in
  let kl := PyStr.lower k in
  if String.eqb kl "action-type" then
    match AddConditions.first v with
    | inr v0 => inr {| action_type := Some v0 |}
    | inl e => inl e
    end
  else inl (CLIError (unsupported_msg k)).

Fixpoint project (properties : list (string * list string)) (d : actions)
  : exn + actions :=
  match properties with
  | [] => inr d
  | kv :: rest =>
      match assign d kv with
      | inr d' => project rest d'
      | inl e => inl e
      end
  end.

Definition empty : actions := {| action_type := None |}.

Definition get_action (vals : list string) (option_string : string)
  : exn + actions :=
  match AddConditions.group vals [] with
  | None => inl (CLIError (AddConditions.usage_msg option_string))
  | Some properties => project properties empty
  end.

Definition __call__ (items : list actions) (vals : list string)
    (option_string : string) : exn + list actions :=
  match get_action vals option_string with
  | inr action => inr (items ++ [action])
  | inl e => inl e
  end.

Definition permitted (k : string) : bool := String.eqb k "action-type".

End AddActions.

(** ** alertsmanagement/generated/action.py: class AddRecurrences *)

Module AddRecurrences.

Record recurrences := {
  recurrence_type : option string;
  start_time : option string;
  end_time : option string
}.

Definition permitted_keys : string := "recurrence-type, start-time, end-time".

Definition unsupported_msg (k : string) : string :=
  "Unsupported Key " +:+ k
  +:+ " is provided for parameter recurrences. All possible keys are: "
  +:+ permitted_keys.

Definition assign (d : recurrences) (kv : string * list string)
  : exn + recurrences :=
  let '(k, v) := kv in
  let kl := PyStr.lower k in
  if String.eqb kl "recurrence-type" then
    match AddConditions.first v with
    | inr v0 => inr {| recurrence_type := Some v0; start_time := start_time d;
                       end_time := end_time d |}
    | inl e => inl e
    end
  else if String.eqb kl "start-time" then
    match AddConditions.first v with
    | inr v0 => inr {| recurrence_type := recurrence_type d;
                       start_time := Some v0; end_time := end_time d |}
    | inl e => inl e
    end
  else if String.eqb kl "end-time" then
    match AddConditions.first v with
    | inr v0 => inr {| recurrence_type := recurrence_type d;
                       start_time := start_time d; end_time := Some v0 |}
    | inl e => inl e
    end
  else inl (CLIError (unsupported_msg k)).

Fixpoint project (properties : list (string * list string)) (d : recurrences)
  : exn + recurrences :=
  match properties with
  | [] => inr d
  | kv :: rest =>
      match assign d kv with
      | inr d' => project rest d'
      | inl e => inl e
      end
  end.

Definition empty : recurrences :=
  {| recurrence_type := None; start_time := None; end_time := None |}.

Definition get_action (vals : list string) (option_string : string)
  : exn + recurrences :=
  match AddConditions.group vals [] with
  | None => inl (CLIError (AddConditions.usage_msg option_string))
  | Some properties => project properties empty
  end.

Definition __call__ (items : list recurrences) (vals : list string)
    (option_string : string) : exn + list recurrences :=
  match get_action vals option_string with
  | inr action => inr (items ++ [action])
  | inl e => inl e
  end.

Definition permitted (k : string) : bool :=
  String.eqb k "recurrence-type" || String.eqb k "start-time"
  || String.eqb k "end-time".

End AddRecurrences.

(** The tokens a parser accepts: each has an '=', and each key, lowercased,
    is permitted. *)
Definition accepts (permitted : string -> bool) (vals : list string) : bool :=
  match AddConditions.split_all vals with
  | Some pairs => forallb (fun kv => permitted (PyStr.lower (fst kv))) pairs
  | None => false
  end.

(** Among the split tokens, [v] was given under a key that lowercases to
    [key]; some value was given under such a key. *)
Definition given (pairs : list (string * string)) (key v : string) : Prop :=
  exists k, (k, v) ∈ pairs /\ PyStr.lower k = key.

Definition names (pairs : list (string * string)) (key : string) : Prop :=
  exists k v, (k, v) ∈ pairs /\ PyStr.lower k = key.

(** ** Notions for the properties of [Create] *)

(** The environment [env] but for the lookup of the cluster, whose outcome
    is given. *)
Definition with_cluster_lookup (env : Env) (res : foreign_error + string)
  : Env := {|
  get_subscription_id := get_subscription_id env;
  get_cluster_rp_api_version := get_cluster_rp_api_version env;
  user_confirmation_factory := user_confirmation_factory env;
  read_file := read_file env;
  resources_get_by_id := fun _ _ => res;
  relay_namespaces_create_or_update := relay_namespaces_create_or_update env;
  relay_hybrid_connections_create_or_update :=
    relay_hybrid_connections_create_or_update env;
  relay_create_or_update_authorization_rule :=
    relay_create_or_update_authorization_rule env;
  relay_list_keys := relay_list_keys env;
  servicebus_namespaces_create_or_update :=
    servicebus_namespaces_create_or_update env;
  servicebus_topics_create_or_update := servicebus_topics_create_or_update env;
  servicebus_subscriptions_create_or_update :=
    servicebus_subscriptions_create_or_update env;
  servicebus_namespaces_get := servicebus_namespaces_get env;
  servicebus_list_authorization_rules :=
    servicebus_list_authorization_rules env;
  servicebus_list_keys := servicebus_list_keys env;
  workspaces_create_or_update := workspaces_create_or_update env;
  workspaces_get_shared_keys := workspaces_get_shared_keys env
|}.

(** The remote calls among the events, in order. *)
Definition remote_calls (evs : list event) : list event :=
  List.filter is_remote evs.

Definition is_cluster_lookup (e : event) : bool :=
  match e with Remote (ResourcesGetById _ _) => true | _ => false end.

(** The first remote call, if there is one, is the lookup of the cluster;
    and the lookup of the cluster is the only remote call, if there is
    one. *)
Definition lookup_first (evs : list event) : bool :=
  match remote_calls evs with
  | [] => true
  | e :: _ => is_cluster_lookup e
  end.

Definition only_lookup (evs : list event) : bool :=
  match remote_calls evs with
  | [] => true
  | [e] => is_cluster_lookup e
  | _ => false
  end.

(** A run that, started in the store [st], only adds events to the trace,
    and events that together satisfy [good]. *)
Definition trace_from {A} (good : list event -> bool) (m : M A) (st : store)
  : Prop :=
  exists evs, trace (snd (m st)) = trace st ++ evs /\ good evs = true.

(** A run that fails, either before any remote call or with the error
    [err] of the lookup of the cluster, its only remote call. *)
Definition stops_at_lookup {A} (err : foreign_error) (m : M A) (st : store)
  : Prop :=
  exists evs e,
    trace (snd (m st)) = trace st ++ evs
    /\ fst (m st) = inl e
    /\ (remote_calls evs = []
        \/ (e = Foreign err /\ only_lookup evs = true)).

(** [d.get(k)] is truthy in one of the two dictionaries. *)
Definition has_truthy (k : string) (cs cps : gmap string value) : bool :=
  truthy (py_get cs k) || truthy (py_get cps k).

(** The store still has, under the watched keys, what the two dictionaries
    [s0] and [p0] have. *)
Definition watched (keys : list string) (k : string) : bool :=
  existsb (String.eqb k) keys.

Definition agrees_on (keys : list string) (s0 p0 : gmap string value)
    (st : store) : Prop :=
  forall k, watched keys k = true ->
            settings st !! k = s0 !! k /\ protected st !! k = p0 !! k.

(** Partial correctness: started in a store satisfying [P], a run that
    returns does so with a result and in a store satisfying [Q]. *)
Definition hoare {A} (P : store -> Prop) (m : M A) (Q : A -> store -> Prop)
  : Prop :=
  forall st a st', P st -> m st = (inr a, st') -> Q a st'.

(** The keys of the settings that [Create] always sets. *)
Definition generated_keys : list string :=
  [ AzureMLKubernetes.ENABLE_TRAINING; AzureMLKubernetes.ENABLE_INFERENCE;
    "cluster_name"; "domain"; "location";
    AzureMLKubernetes.JOB_SCHEDULER_LOCATION_KEY;
    AzureMLKubernetes.CLUSTER_NAME_FRIENDLY_KEY;
    "clusterId"; "prometheus.prometheusSpec.externalLabels.cluster_name" ].

(** [k in d] for one of the two dictionaries. *)
Definition present (k : string) (cs cps : gmap string value) : bool :=
  AzureMLKubernetes.has_key k cs || AzureMLKubernetes.has_key k cps.

(** A computation that, started in a store satisfying [I], only adds events
    satisfying [P] to the trace. *)
Definition emits_under {A} (I : store -> Prop) (P : event -> bool) (m : M A)
  : Prop :=
  forall st, I st -> emits_from P m st.

(** Every watched key is in the settings; no watched key is in the protected
    settings; a key is in one of the two dictionaries. *)
Definition settings_have (keys : list string) (st : store) : Prop :=
  forall k, watched keys k = true -> k ∈ dom (settings st).

Definition protected_lack (keys : list string) (st : store) : Prop :=
  forall k, watched keys k = true -> k ∉ dom (protected st).

Definition either_has (k : string) (st : store) : Prop :=
  k ∈ dom (settings st) \/ k ∈ dom (protected st).

(** What holds of the store of [Create] once the validation has returned and
    the keys [keys] have been written to the settings. *)
Definition create_inv (keys : list string) (st : store) : Prop :=
  settings_have keys st
  /\ protected_lack [AzureMLKubernetes.ENABLE_TRAINING;
                     AzureMLKubernetes.ENABLE_INFERENCE] st.

(** A key that is given, in the settings or the protected settings, with a
    value other than [None]. *)
Definition given_flag (key : string) (cs cps : gmap string value) : bool :=
  is_not_None (_get_value_from_config_protected_config key cs cps).

(** [a == b] on the values of the dictionaries. *)
Definition value_eqb (a b : value) : bool :=
  match a, b with
  | VNone, VNone => true
  | VStr x, VStr y => String.eqb x y
  | VBool x, VBool y => Bool.eqb x y
  | _, _ => false
  end.

(** The events other than the opening of a file that is neither [cert] nor
    [key]. *)
Definition opens_paths (cert key : value) (e : event) : bool :=
  match e with
  | OpenFile path => value_eqb path cert || value_eqb path key
  | _ => true
  end.

(** ** Python strings with all their code points

    A Python [str] is a sequence of code points U+0000..U+10FFFF, lone
    surrogates (U+D800..U+DFFF) included; here a list of the code points.
    The strings of [PyStr] are the ones whose code points are below
    U+0100. *)

Module Unicode.

Definition points (s : string) : list Z :=
  map PyStr.code (list_ascii_of_string s).

Definition len (s : list Z) : Z := Z.of_nat (length s).

(** [s[:n]] for an arbitrary integer [n]. *)
Definition slice_to (s : list Z) (n : Z) : list Z :=
  if 0 <=? n then firstn (Z.to_nat n) s else firstn (Z.to_nat (len s + n)) s.

Definition is_surrogate (z : Z) : bool := PyStr.between 55296 57343 z.

Definition has_surrogate (s : list Z) : bool := existsb is_surrogate s.

(** [s.encode("utf8")]: one to four bytes for a code point, and a
    [UnicodeEncodeError] ([None]) for a surrogate. *)
Definition utf8_point (z : Z) : option (list Z) :=
  if z <? 128 then Some [z]
  else if z <? 2048
  then Some [Z.lor 192 (Z.shiftr z 6); Z.lor 128 (Z.land z 63)]
  else if is_surrogate z then None
  else if z <? 65536
  then Some [Z.lor 224 (Z.shiftr z 12);
             Z.lor 128 (Z.land (Z.shiftr z 6) 63);
             Z.lor 128 (Z.land z 63)]
  else Some [Z.lor 240 (Z.shiftr z 18);
             Z.lor 128 (Z.land (Z.shiftr z 12) 63);
             Z.lor 128 (Z.land (Z.shiftr z 6) 63);
             Z.lor 128 (Z.land z 63)].

Fixpoint encode_utf8 (s : list Z) : option (list Z) :=
  match s with
  | [] => Some []
  | z :: s' =>
      match utf8_point z, encode_utf8 s' with
      | Some bs, Some rest => Some (bs ++ rest)
      | _, _ => None
      end
  end.

(** [str.isalnum] on the code points below U+0100, and on the surrogates,
    which are not alphanumeric. *)
Definition isalnum_latin1 (z : Z) : bool :=
  (0 <=? z) && (z <? 256) && PyStr.isalnum_char (PyStr.chr z).

Section ValidName.

(** [str.isalnum] on one code point, as the Unicode database of the
    interpreter has it. *)
Context (isalnum : Z -> bool).

(** [_get_valid_name] (AzureMLKubernetes.py) on every Python string. *)
Definition _get_valid_name (input_name : list Z) (suffix_len max_len : Z)
  : M (list Z) :=
  let normalized_str := List.filter isalnum input_name in
  match normalized_str with
  | [] => raise (AssertionError "normalized name empty")
  | _ :: _ =>
      if len normalized_str <=? max_len then mret normalized_str
      else
        suffix_len ←
          (if max_len <? suffix_len
           then warning "suffix length is bigger than max length. Set suffix length to max length.";;
                mret max_len
           else mret suffix_len);
        match encode_utf8 input_name with
        | None => raise UnicodeEncodeError
        | Some input_bytes =>
            let md5_suffix :=
              points (PyStr.slice_to (MD5.hexdigest input_bytes) suffix_len) in
            let new_name :=
              slice_to normalized_str (max_len - suffix_len) ++ md5_suffix in
            mret new_name
        end
  end.

End ValidName.

End Unicode.

(** The result of the installer's [_get_valid_name], seen as a sequence of
    code points. *)
Definition as_points (r : (exn + string) * store) : (exn + list Z) * store :=
  (match fst r with
   | inr out => inr (Unicode.points out)
   | inl e => inl e
   end, snd r).

(** ** Further notions for [Update] *)

(** No watched key is in the copy [Update] makes of the protected
    settings. *)
Definition copied_lack (keys : list string) (st : store) : Prop :=
  forall k, watched keys k = true -> k ∉ dom (copied st).

(** ** Further notions for the manifest of [Create] *)

(** A connection string that the Relay service, or the Service Bus service,
    gave in answer to a request for the keys. *)
Definition provisioned_relay (cmd : Env) (conn : string) : Prop :=
  exists rg ns hc rule, relay_list_keys cmd rg ns hc rule = inr conn.

Definition provisioned_service_bus (cmd : Env) (conn : string) : Prop :=
  exists rg ns rule, servicebus_list_keys cmd rg ns rule = inr conn.

(** What [_dereference] leaves under the chart key [chart] of the
    connection string [key], in the dictionary [d]: what [d] has there, and
    else what it has under [key]. *)
Definition chart_entry (key chart : string) (d : gmap string value)
  : option value :=
  match d !! key with
  | Some v => Some (get_default d chart v)
  | None => d !! chart
  end.

(** The protected settings [p1] that [Create] ends with, under the
    connection string [key]: those it was given, [p0], when a non-empty
    connection string was given, and else those with a connection string
    that the service gave. *)
Definition string_outcome (provisioned : string -> Prop) (key : string)
    (s0 p0 p1 : gmap string value) : Prop :=
  if has_truthy key s0 p0 then p1 = p0
  else exists conn, provisioned conn /\ p1 = <[key := VStr conn]> p0.

(** The manifest [ext] holds the connection string [key] under its chart key
    [chart], for a run of [Create] given the settings [s0] and the protected
    settings [p0]: its settings have there what [_dereference] leaves of
    [s0], and its protected settings what it leaves of [p0] when a non-empty
    connection string was given, and else a connection string that the
    service gave, unless [p0] has a value of its own under [chart]. *)
Definition holds_string (provisioned : string -> Prop) (key chart : string)
    (s0 p0 : gmap string value) (ext : AzureMLKubernetes.Extension) : Prop :=
  AzureMLKubernetes.configuration_settings ext !! chart = chart_entry key chart s0
  /\ if has_truthy key s0 p0
     then AzureMLKubernetes.configuration_protected_settings ext !! chart
          = chart_entry key chart p0
     else exists conn,
         provisioned conn
         /\ AzureMLKubernetes.configuration_protected_settings ext !! chart
            = Some (get_default p0 chart (VStr conn)).
(** * Properties *)

(** ** Library functions on known inputs *)

Example md5_empty : MD5.hexdigest [] = "d41d8cd98f00b204e9800998ecf8427e".
Proof. vm_compute. reflexivity. Qed.

Example md5_abc :
  MD5.hexdigest (PyStr.encode_utf8 "abc") = "900150983cd24fb0d6963f7d28e17f72".
Proof. vm_compute. reflexivity. Qed.

Example md5_long :
  MD5.hexdigest (PyStr.encode_utf8
    "mycluster-00000000-0000-0000-0000-000000000000-myresourcegroup-service-bus")
  = "5e01fd2170a1c776cba89afa1bbca646".
Proof. vm_compute. reflexivity. Qed.

Example b64_sample :
  option_map Base64.b64encode (PyStr.encode_ascii "any carnal pleas")
  = Some "YW55IGNhcm5hbCBwbGVhcw==".
Proof. vm_compute. reflexivity. Qed.

(** ** Strings *)

Section StringFacts.

Lemma length_take (n : nat) (s : string) :
  String.length (PyStr.take n s) = Nat.min n (String.length s).
Proof.
  revert s. induction n as [|n IH]; intros [|c s]; simpl; auto.
Qed.

Lemma length_append (a b : string) :
  String.length (a +:+ b) = (String.length a + String.length b)%nat.
Proof. induction a as [|c a IH]; simpl; auto. Qed.

Lemma len_slice_to (s : string) (n : Z) :
  0 <= n <= PyStr.len s -> PyStr.len (PyStr.slice_to s n) = n.
Proof.
  unfold PyStr.slice_to, PyStr.len. intros [H0 H1].
  destruct (Z.leb_spec 0 n); [|lia].
  rewrite length_take. lia.
Qed.

Lemma endswith_unfold (suffix s : string) :
  PyStr.endswith suffix s
  = (String.eqb s suffix
     || match s with
        | EmptyString => false
        | String _ s' => PyStr.endswith suffix s'
        end).
Proof. destruct s; reflexivity. Qed.

Lemma endswith_append (p s : string) : PyStr.endswith s (p +:+ s) = true.
Proof.
  induction p as [|c p IH]; simpl.
  - rewrite endswith_unfold, String.eqb_refl. reflexivity.
  - rewrite IH. apply orb_true_r.
Qed.

Lemma length_hexdigest (msg : list Z) :
  String.length (MD5.hexdigest msg) = 32%nat.
Proof.
  unfold MD5.hexdigest, MD5.digest.
  destruct (MD5.state msg) as [a b c d]. reflexivity.
Qed.

Lemma filter_nonempty (p : ascii -> bool) (s : string) :
  String.eqb (PyStr.filter p s) "" = false <-> PyStr.filter p s <> "".
Proof.
  destruct (String.eqb_spec (PyStr.filter p s) ""); split; congruence.
Qed.

End StringFacts.

(** ** [_get_valid_name] *)

Section ValidName.



Lemma valid_name_fits (input_name : string) (suffix_len max_len : Z) (st : store) :
  normalized input_name <> "" ->
  PyStr.len (normalized input_name) <= max_len ->
  _get_valid_name input_name suffix_len max_len st
  = (inr (normalized input_name), st).
Proof.
  intros Hne Hle. unfold _get_valid_name. fold (normalized input_name).
  destruct (String.eqb_spec (normalized input_name) ""); [congruence|].
  destruct (Z.leb_spec (PyStr.len (normalized input_name)) max_len); [|lia].
  reflexivity.
Qed.

Lemma valid_name_truncated (input_name : string) (max_len : Z) (st : store) :
  max_len < PyStr.len (normalized input_name) ->
  6 <= max_len ->
  _get_valid_name input_name 6 max_len st
  = (inr (PyStr.slice_to (normalized input_name) (max_len - 6)
          +:+ PyStr.slice_to (md5_hex input_name) 6), st).
Proof.
  intros Hlt H6. unfold _get_valid_name. fold (normalized input_name).
  destruct (String.eqb_spec (normalized input_name) "") as [E|_].
  { rewrite E in Hlt. unfold PyStr.len in Hlt. simpl in Hlt. lia. }
  destruct (Z.leb_spec (PyStr.len (normalized input_name)) max_len); [lia|].
  unfold mbind, M_bind.
  destruct (Z.ltb_spec max_len 6); [lia|]. reflexivity.
Qed.

Lemma valid_name_store_independent (input_name : string)
    (suffix_len max_len : Z) (st st' : store) :
  fst (_get_valid_name input_name suffix_len max_len st)
  = fst (_get_valid_name input_name suffix_len max_len st').
Proof.
  unfold _get_valid_name.
  destruct (String.eqb _ _); [reflexivity|].
  destruct (Z.leb _ _); [reflexivity|].
  unfold mbind, M_bind.
  destruct (Z.ltb _ _); reflexivity.
Qed.

End ValidName.

(** [_get_valid_name] on the names the installer is run on here, the strings
    of code points below U+0100, which all have a UTF-8 encoding. *)
Lemma valid_name_latin1 (input_name : string) (max_len : Z) (st : store) :
  (normalized input_name <> "" ->
   PyStr.len (normalized input_name) <= max_len ->
   _get_valid_name input_name 6 max_len st = (inr (normalized input_name), st))
  /\ (max_len < PyStr.len (normalized input_name) ->
      6 <= max_len ->
      exists out,
        _get_valid_name input_name 6 max_len st = (inr out, st)
        /\ PyStr.len out = max_len
        /\ PyStr.len (PyStr.slice_to (md5_hex input_name) 6) = 6
        /\ PyStr.endswith (PyStr.slice_to (md5_hex input_name) 6) out = true)
  /\ (forall st',
        fst (_get_valid_name input_name 6 max_len st')
        = fst (_get_valid_name input_name 6 max_len st)).
Proof.
  split; [|split].
  - apply valid_name_fits.
  - intros Hlt H6. eexists. split; [apply valid_name_truncated; assumption|].
    assert (Hhex : PyStr.len (PyStr.slice_to (md5_hex input_name) 6) = 6).
    { apply len_slice_to. unfold PyStr.len, md5_hex.
      rewrite length_hexdigest. lia. }
    split; [|split].
    + unfold PyStr.len in *. rewrite length_append, Nat2Z.inj_add, Hhex.
      fold (PyStr.len (PyStr.slice_to (normalized input_name) (max_len - 6))).
      rewrite len_slice_to; unfold PyStr.len; lia.
    + exact Hhex.
    + apply endswith_append.
  - intros st'. apply valid_name_store_independent.
Qed.

(** ** Reasoning in the monad *)

Section MonadFacts.

Context {A B : Type}.

Lemma bind_inr (m : M A) (f : A -> M B) (st st' : store) (a : A) :
  m st = (inr a, st') -> (m ≫= f) st = f a st'.
Proof. intros H. unfold mbind, M_bind. rewrite H. reflexivity. Qed.

Lemma bind_inl (m : M A) (f : A -> M B) (st st' : store) (e : exn) :
  m st = (inl e, st') -> (m ≫= f) st = (inl e, st').
Proof. intros H. unfold mbind, M_bind. rewrite H. reflexivity. Qed.

End MonadFacts.


Section Avoids.

Context (bad : exn -> Prop).

Lemma avoids_at_bind {A B} (m : M A) (f : A -> M B) (st : store) :
  avoids_at bad m st ->
  (forall a st', m st = (inr a, st') -> avoids_at bad (f a) st') ->
  avoids_at bad (m ≫= f) st.
Proof.
  intros Hm Hf e. unfold mbind, M_bind.
  destruct (m st) as [[e'|a] st'] eqn:E.
  - intros H. simpl in H. injection H as <-. apply Hm. rewrite E. reflexivity.
  - apply (Hf a st' eq_refl).
Qed.

Lemma avoids_ret {A} (a : A) : avoids bad (mret a).
Proof. intros st e H. discriminate H. Qed.

Lemma avoids_bind {A B} (m : M A) (f : A -> M B) :
  avoids bad m -> (forall a, avoids bad (f a)) -> avoids bad (m ≫= f).
Proof.
  intros Hm Hf st. apply avoids_at_bind; [apply Hm|].
  intros a st' _. apply Hf.
Qed.

Lemma avoids_raise {A} (e : exn) : ~ bad e -> avoids bad (@raise A e).
Proof. intros He st e' H. injection H as <-. exact He. Qed.

Lemma avoids_emit (ev : event) : avoids bad (emit ev).
Proof. intros st e H. discriminate H. Qed.

Lemma avoids_read (r : dict_ref) : avoids bad (read r).
Proof. intros st e H. discriminate H. Qed.

Lemma avoids_modify (r : dict_ref) f : avoids bad (modify r f).
Proof. intros st e H. discriminate H. Qed.

Lemma avoids_outcome {A} (res : foreign_error + A) :
  (forall e, ~ bad (Foreign e)) -> avoids bad (outcome res).
Proof.
  intros Hf. destruct res; [apply avoids_raise, Hf|apply avoids_ret].
Qed.

Lemma avoids_call {A} (c : remote_call) (res : foreign_error + A) :
  (forall e, ~ bad (Foreign e)) -> avoids bad (call c res).
Proof.
  intros Hf. apply avoids_bind; [apply avoids_emit|].
  intros _. apply avoids_outcome, Hf.
Qed.

Lemma avoids_for_each {A} (l : list A) (body : A -> M unit) :
  (forall x, avoids bad (body x)) -> avoids bad (for_each l body).
Proof.
  intros Hb. induction l as [|x l IH]; simpl.
  - apply avoids_ret.
  - apply avoids_bind; [apply Hb|]. intros _. exact IH.
Qed.

Lemma avoids_if {A} (b : bool) (m1 m2 : M A) :
  avoids bad m1 -> avoids bad m2 -> avoids bad (if b then m1 else m2).
Proof. destruct b; auto. Qed.

End Avoids.

Lemma avoids_at_of {A} (bad : exn -> Prop) (m : M A) (st : store) :
  avoids bad m -> avoids_at bad m st.
Proof. intros H. apply H. Qed.

Lemma avoids_try_except {A} (bad : exn -> Prop) (m : M A) (h : exn -> M A) :
  (forall e, avoids bad (h e)) -> avoids bad (try_except m h).
Proof.
  intros Hh st e. unfold try_except.
  destruct (m st) as [[e'|a] st'].
  - apply Hh.
  - discriminate.
Qed.

Import AzureMLKubernetes.

Ltac avoids_step side :=
  lazymatch goal with
  | |- avoids _ (mret _) => apply avoids_ret
  | |- avoids _ (_ ≫= _) => apply avoids_bind; [|intros ?]
  | |- avoids _ (emit _) => apply avoids_emit
  | |- avoids _ (read _) => apply avoids_read
  | |- avoids _ (modify _ _) => apply avoids_modify
  | |- avoids _ (raise _) => apply avoids_raise; solve [side]
  | |- avoids _ (outcome _) => apply avoids_outcome; solve [side]
  | |- avoids _ (call _ _) => apply avoids_call; solve [side]
  | |- avoids _ (for_each _ _) => apply avoids_for_each; intros ?
  | |- avoids _ (try_except _ _) => apply avoids_try_except; intros ?
  | |- avoids _ (write _ _ _) => unfold write
  | |- avoids _ (pop _ _) => unfold pop
  | |- avoids _ (warning _) => unfold warning
  | |- avoids _ (info _) => unfold info
  | |- avoids _ (effective _ _ _) => unfold effective
  | |- avoids _ (if _ then _ else _) => apply avoids_if
  | |- avoids _ (match ?x with _ => _ end) => destruct x
  end.

Ltac avoids_tac side := repeat avoids_step side.

(** ** Messages *)

Lemma append_inj_l (p a b : string) : p +:+ a = p +:+ b -> a = b.
Proof.
  induction p as [|c p IH]; simpl; intros H; [exact H|].
  injection H as H. exact (IH H).
Qed.

Lemma duplicate_key_warning_inj (k k' : string) :
  duplicate_key_warning k = duplicate_key_warning k' -> k = k'.
Proof. apply append_inj_l. Qed.

Lemma tls_not_scope rn s : tls_msg rn <> invalid_scope_msg s.
Proof. discriminate. Qed.

Lemma tls_not_flags rn : tls_msg rn <> enable_flags_msg.
Proof. discriminate. Qed.

Lemma tls_not_duplicate rn : tls_msg rn <> duplicate_keys_msg.
Proof. discriminate. Qed.

Lemma flags_not_scope s : enable_flags_msg <> invalid_scope_msg s.
Proof. discriminate. Qed.

Lemma duplicate_not_scope s : duplicate_keys_msg <> invalid_scope_msg s.
Proof. discriminate. Qed.

Lemma flags_not_duplicate : enable_flags_msg <> duplicate_keys_msg.
Proof. discriminate. Qed.

(** ** Stepping through the stores *)

Lemma for_each_warning (f : string -> string) (l : list string) (st : store) :
  for_each l (fun k => warning (f k)) st
  = (inr tt, logged st (map (fun k => LogWarning (f k)) l)).
Proof.
  revert st. induction l as [|k l IH]; intros [s p c t]; simpl.
  - unfold logged. simpl. rewrite app_nil_r. reflexivity.
  - unfold mbind, M_bind. cbn [warning emit settings protected copied trace].
    rewrite IH. unfold logged. cbn. rewrite <- app_assoc. reflexivity.
Qed.

Lemma effective_eq (key : string) (st : store) :
  effective key TheSettings TheProtected st
  = (inr (_get_value_from_config_protected_config key (settings st)
            (protected st)), st).
Proof. reflexivity. Qed.

Ltac mrun :=
  unfold effective; unfold write, pop, warning, info;
  unfold mbind, M_bind, mret, M_ret, read, modify, raise, emit;
  cbn beta iota zeta delta [settings protected copied trace fst snd].

(** ** What the methods cannot raise *)

Section CannotRaise.

Context (bad : exn -> Prop).
Context (Hforeign : forall e, ~ bad (Foreign e)).
Context (Hassert : forall m, ~ bad (AssertionError m)).
Context (Htype : forall m, ~ bad (TypeError m)).
Context (Hunicode : ~ bad UnicodeEncodeError).
Context (Hmutex : forall m, ~ bad (MutuallyExclusiveArgumentError m)).
Context (Htls : forall rn, ~ bad (InvalidArgumentValueError (tls_msg rn))).
Context (cmd : Env).

Local Ltac side := first [ apply Hforeign | apply Hassert | apply Htype
                         | apply Hunicode | apply Hmutex | apply Htls ].

Lemma avoids_valid_name (input_name : string) (suffix_len max_len : Z) :
  avoids bad (_get_valid_name input_name suffix_len max_len).
Proof. unfold _get_valid_name. avoids_tac side. Qed.

Lemma avoids_relay sub rg cn loc rule gko :
  avoids bad (_get_relay_connection_str cmd sub rg cn loc rule gko).
Proof.
  unfold _get_relay_connection_str.
  apply avoids_bind; [apply avoids_valid_name|intros ?]. avoids_tac side.
Qed.

Lemma avoids_service_bus sub rg cn loc mapping gko :
  avoids bad (_get_service_bus_connection_string cmd sub rg cn loc mapping gko).
Proof.
  unfold _get_service_bus_connection_string.
  apply avoids_bind; [apply avoids_valid_name|intros ?]. avoids_tac side.
Qed.

Lemma avoids_log_analytics sub rg cn loc gko :
  avoids bad (_get_log_analytics_ws_connection_string cmd sub rg cn loc gko).
Proof.
  unfold _get_log_analytics_ws_connection_string.
  apply avoids_bind; [apply avoids_valid_name|intros ?]. avoids_tac side.
Qed.

Lemma avoids_create_required_resource cs cps sub rg cn loc :
  avoids bad (__create_required_resource cmd cs cps sub rg cn loc).
Proof.
  unfold __create_required_resource.
  repeat first
    [ match goal with
      | |- avoids _ (?f _ _ _ _ _ _) =>
          constr_eq f _get_log_analytics_ws_connection_string;
          apply avoids_log_analytics
      | |- avoids _ (?f _ _ _ _ _ _ _) =>
          first [ constr_eq f _get_relay_connection_str; apply avoids_relay
                | constr_eq f _get_service_bus_connection_string;
                  apply avoids_service_bus ]
      end
    | avoids_step side ].
Qed.

Lemma avoids_validate_scoring_fe cs cps rn :
  avoids bad (__validate_scoring_fe_settings cs cps rn).
Proof. unfold __validate_scoring_fe_settings. avoids_tac side. Qed.

Lemma avoids_set_up_inference_ssl cs cps :
  avoids bad (__set_up_inference_ssl cmd cs cps).
Proof.
  unfold __set_up_inference_ssl, __set_inference_ssl_from_file,
    __set_inference_ssl_from_secret, read_b64.
  avoids_tac side.
Qed.

(** [__validate_config] raises the duplicate-key error only on duplicate
    keys, and the error about the two flags only when neither reads true. *)
Lemma avoids_at_validate_config rn (st : store) :
  (dom (settings st) ∩ dom (protected st) ≠ ∅ ->
   ~ bad (InvalidArgumentValueError duplicate_keys_msg)) ->
  (reads "true" ENABLE_TRAINING (settings st) (protected st) = false ->
   reads "true" ENABLE_INFERENCE (settings st) (protected st) = false ->
   ~ bad (InvalidArgumentValueError enable_flags_msg)) ->
  avoids_at bad (__validate_config cmd TheSettings TheProtected rn) st.
Proof.
  intros Hdup Hflags. unfold __validate_config.
  apply avoids_at_bind; [apply avoids_read|].
  intros config st1 H1. unfold read in H1. injection H1 as <- <-.
  apply avoids_at_bind; [apply avoids_read|].
  intros pconfig st1 H1. unfold read in H1. injection H1 as <- <-.
  apply avoids_at_bind.
  { case_bool_decide as Hd; [|apply avoids_ret].
    apply avoids_at_of. apply avoids_bind; [avoids_tac side|].
    intros _. apply avoids_raise. auto. }
  intros [] st1 H1.
  assert (st1 = st) as ->.
  { case_bool_decide as Hd.
    - unfold mbind, M_bind in H1. rewrite for_each_warning in H1. discriminate H1.
    - injection H1 as <-. reflexivity. }
  clear H1.
  apply avoids_at_bind; [apply avoids_at_of; avoids_tac side|].
  intros et st1 H1. rewrite effective_eq in H1. injection H1 as <- <-.
  apply avoids_at_bind; [apply avoids_at_of; avoids_tac side|].
  intros ei st1 H1. rewrite effective_eq in H1. injection H1 as <- <-.
  fold (reads "true" ENABLE_TRAINING (settings st) (protected st)).
  fold (reads "true" ENABLE_INFERENCE (settings st) (protected st)).
  apply avoids_at_bind.
  { destruct (reads "true" ENABLE_INFERENCE _ _) eqn:Ei.
    - apply avoids_at_of. apply avoids_bind; [avoids_tac side|]. intros _.
      apply avoids_bind; [apply avoids_validate_scoring_fe|]. intros _.
      apply avoids_set_up_inference_ssl.
    - destruct (reads "true" ENABLE_TRAINING _ _) eqn:Et; simpl.
      + apply avoids_ret.
      + apply avoids_raise. auto. }
  intros _ st1 _. apply avoids_at_of. avoids_tac side.
Qed.

(** [Create] raises what the scope test and [__validate_config] raise, and
    after them nothing of [bad]. *)
Lemma avoids_at_Create rg cn name ct et scope au rt v tn rn csf cpsf (st : store) :
  (scope = Some "namespace" ->
   ~ bad (InvalidArgumentValueError (invalid_scope_msg "namespace"))) ->
  avoids_at bad
    (__validate_config cmd TheSettings TheProtected
       (if falsy_str rn then DEFAULT_RELEASE_NAMESPACE else default "" rn)) st ->
  avoids_at bad
    (Create cmd rg cn name ct et scope au rt v tn rn TheSettings TheProtected
       csf cpsf) st.
Proof.
  intros Hscope Hvalidate. unfold Create.
  apply avoids_at_bind.
  { case_bool_decide; [apply avoids_raise; auto|apply avoids_ret]. }
  intros [] st1 H1.
  assert (st1 = st) as ->.
  { case_bool_decide; [discriminate H1|]. injection H1 as <-. reflexivity. }
  apply avoids_at_bind; [exact Hvalidate|].
  intros _ st1 _. apply avoids_at_of.
  repeat first
    [ match goal with
      | |- avoids _ (?f _ _ _ _ _ _ _) =>
          constr_eq f __create_required_resource;
          apply avoids_create_required_resource
      end
    | avoids_step side ].
Qed.

End CannotRaise.

(** ** [Create]: the scope *)

Section CreateProperties.

Context (cmd : Env).
Context (resource_group_name cluster_name name cluster_type extension_type : string).
Context (auto_upgrade_minor_version : option bool).
Context (release_train version target_namespace release_namespace : option string).
Context (settings_file protected_settings_file : option string).

Local Abbreviation Create_with scope :=
  (Create cmd resource_group_name cluster_name name cluster_type extension_type
     scope auto_upgrade_minor_version release_train version target_namespace
     release_namespace TheSettings TheProtected settings_file
     protected_settings_file).

Local Abbreviation the_release_namespace :=
  (if falsy_str release_namespace then DEFAULT_RELEASE_NAMESPACE
   else default "" release_namespace).

Lemma Create_validation_fails (scope : option string) (st st' : store) (e : exn) :
  scope <> Some "namespace" ->
  __validate_config cmd TheSettings TheProtected the_release_namespace st
  = (inl e, st') ->
  Create_with scope st = (inl e, st').
Proof.
  intros Hs Hv. unfold Create.
  rewrite bool_decide_eq_false_2 by exact Hs.
  unfold mbind at 1, M_bind at 1, mret at 1, M_ret at 1.
  apply bind_inl. exact Hv.
Qed.

(** C5 (amended).  [Create] fails with the invalid-argument error about the
    scope exactly for the scope 'namespace'.  For every other scope value,
    absent or not, it goes past the scope test and does what it does for
    'cluster'; in particular no error about the scope is raised. *)
Theorem Create_scope (scope : option string) (st : store) :
  (scope = Some "namespace" ->
   Create_with scope st
   = (inl (InvalidArgumentValueError (invalid_scope_msg "namespace")), st))
  /\ (scope <> Some "namespace" ->
      Create_with scope st = Create_with (Some "cluster") st
      /\ forall e, fst (Create_with scope st) = inl e -> ~ is_scope_error e).
Proof.
  split.
  - intros ->. reflexivity.
  - intros Hs. split.
    + unfold Create. rewrite bool_decide_eq_false_2 by exact Hs. reflexivity.
    + apply avoids_at_Create;
        try (intros; intros [s Hbad]; discriminate Hbad).
      * contradiction.
      * apply avoids_at_validate_config;
          try (intros; intros [s Hbad]; discriminate Hbad);
          intros; intros [s Hbad]; injection Hbad as Hbad;
          revert Hbad; first [apply tls_not_scope | apply flags_not_scope
                             | apply duplicate_not_scope].
Qed.

(** C1 (amended).  When the key sets of the settings and of the protected
    settings intersect and the scope is not 'namespace', [Create] logs one
    warning per duplicate key, naming it, and raises the invalid-argument
    error "Duplicate keys found." (whose message does not list the keys);
    nothing but these warnings has happened by then, so no remote call was
    made.  When the key sets are disjoint, the duplicate-key error is not
    raised. *)
Theorem Create_duplicate_keys (scope : option string) (cs cps : gmap string value) :
  (scope <> Some "namespace" ->
   dom cs ∩ dom cps ≠ ∅ ->
   let r := Create_with scope (initial cs cps) in
   fst r = inl (InvalidArgumentValueError duplicate_keys_msg)
   /\ (forall k,
         LogWarning (duplicate_key_warning k) ∈ trace (snd r)
         <-> k ∈ dom cs ∩ dom cps)
   /\ Forall (fun ev => is_remote ev = false) (trace (snd r)))
  /\ (dom cs ∩ dom cps = ∅ ->
      fst (Create_with scope (initial cs cps))
      <> inl (InvalidArgumentValueError duplicate_keys_msg)).
Proof.
  split.
  - intros Hs Hdup.
    rewrite (Create_validation_fails scope (initial cs cps)
               (logged (initial cs cps)
                  (map (fun k => LogWarning (duplicate_key_warning k))
                     (elements (dom cs ∩ dom cps))))
               (InvalidArgumentValueError duplicate_keys_msg) Hs).
    2:{ unfold __validate_config, initial.
        unfold mbind, M_bind, read.
        cbn beta iota zeta delta [settings protected copied trace].
        rewrite bool_decide_eq_true_2 by exact Hdup.
        rewrite for_each_warning. reflexivity. }
    cbn. split; [reflexivity|split].
    + intros k. rewrite list_elem_of_fmap. split.
      * intros (k' & Hk & Hin).
        assert (k = k') as -> by (apply duplicate_key_warning_inj; congruence).
        apply elem_of_elements in Hin. exact Hin.
      * intros Hin. exists k. split; [reflexivity|].
        apply elem_of_elements. exact Hin.
    + apply Forall_fmap. apply Forall_forall. intros k _. reflexivity.
  - intros Hdisj H.
    assert (Ha : avoids_at
                   (fun e => e = InvalidArgumentValueError duplicate_keys_msg)
                   (Create_with scope) (initial cs cps));
      [|exact (Ha _ H eq_refl)].
    apply avoids_at_Create; try (intros; discriminate).
    apply avoids_at_validate_config; try (intros; discriminate).
    intros Hd. contradiction.
Qed.

End CreateProperties.

Lemma Create_scope_witness :
  sample_Create sample_env (Some "namespace") ∅ ∅
  = (inl (InvalidArgumentValueError (invalid_scope_msg "namespace")),
     initial ∅ ∅)
  /\ (sample_Create sample_env None ∅ ∅
      = sample_Create sample_env (Some "cluster") ∅ ∅
      /\ forall e,
           fst (sample_Create sample_env None ∅ ∅) = inl e ->
           ~ is_scope_error e).
Proof.
  split.
  - apply (proj1 (Create_scope sample_env "rg" "mycluster" "amlarc"
                    "connectedClusters" "Microsoft.AzureML.Kubernetes" None
                    None None None None None None (Some "namespace")
                    (initial ∅ ∅))).
    reflexivity.
  - apply (proj2 (Create_scope sample_env "rg" "mycluster" "amlarc"
                    "connectedClusters" "Microsoft.AzureML.Kubernetes" None
                    None None None None None None None (initial ∅ ∅))).
    discriminate.
Defined.

(** C5 as stated fails: a scope that is neither 'cluster' nor 'namespace',
    and an absent scope, are accepted, and the installation goes through. *)
Lemma Create_scope_counterexample :
  Some "Cluster" <> Some "cluster"
  /\ returned (sample_Create sample_env (Some "Cluster")
                 {["enableTraining" := VStr "true"]} ∅) = true
  /\ returned (sample_Create sample_env None
                 {["enableTraining" := VStr "true"]} ∅) = true.
Proof.
  split; [discriminate|].
  split; vm_compute; reflexivity.
Qed.

Lemma Create_duplicate_keys_witness :
  (let r := sample_Create sample_env (Some "cluster")
              {["a" := VStr "1"]} {["a" := VStr "2"]} in
   fst r = inl (InvalidArgumentValueError duplicate_keys_msg)
   /\ (forall k,
         LogWarning (duplicate_key_warning k) ∈ trace (snd r)
         <-> k ∈ dom ({["a" := VStr "1"]} : gmap string value)
                 ∩ dom ({["a" := VStr "2"]} : gmap string value))
   /\ Forall (fun ev => is_remote ev = false) (trace (snd r)))
  /\ fst (sample_Create sample_env (Some "cluster")
            {["enableTraining" := VStr "true"]} ∅)
     <> inl (InvalidArgumentValueError duplicate_keys_msg).
Proof.
  split.
  - apply (proj1 (Create_duplicate_keys sample_env "rg" "mycluster" "amlarc"
                    "connectedClusters" "Microsoft.AzureML.Kubernetes" None
                    None None None None None None (Some "cluster")
                    {["a" := VStr "1"]} {["a" := VStr "2"]})).
    + discriminate.
    + apply (bool_decide_unpack _). vm_compute. exact I.
  - apply (proj2 (Create_duplicate_keys sample_env "rg" "mycluster" "amlarc"
                    "connectedClusters" "Microsoft.AzureML.Kubernetes" None
                    None None None None None None (Some "cluster")
                    {["enableTraining" := VStr "true"]} ∅)).
    apply (bool_decide_unpack _). vm_compute. exact I.
Defined.

(** C1 as stated fails in two places: the message of the duplicate-key error
    does not list the duplicate keys (they are named in warnings logged
    before it), and with the scope 'namespace' the error raised is the one
    about the scope. *)
Lemma Create_duplicate_keys_counterexample :
  ("enableTraining" ∈ dom ({["enableTraining" := VStr "true"]} : gmap string value)
                       ∩ dom ({["enableTraining" := VStr "false"]} : gmap string value)
   /\ fst (sample_Create sample_env (Some "cluster")
             {["enableTraining" := VStr "true"]}
             {["enableTraining" := VStr "false"]})
      = inl (InvalidArgumentValueError "Duplicate keys found.")
   /\ PyStr.contains "enableTraining" "Duplicate keys found." = false)
  /\ (fst (sample_Create sample_env (Some "namespace")
             {["enableTraining" := VStr "true"]}
             {["enableTraining" := VStr "false"]})
      = inl (InvalidArgumentValueError (invalid_scope_msg "namespace"))
      /\ invalid_scope_msg "namespace" <> duplicate_keys_msg).
Proof.
  split; [split; [|split]|split].
  - apply (bool_decide_unpack _). vm_compute. exact I.
  - vm_compute. reflexivity.
  - vm_compute. reflexivity.
  - vm_compute. reflexivity.
  - discriminate.
Qed.

(** ** [_dereference] *)

Section Dereference.

Implicit Types (d : gmap string value) (l : list string).

Local Abbreviation fill ref_value l d :=
  (fold_left (fun o key => <[key := get_default o key ref_value]> o) l d).

Lemma fill_preserves ref_value l d k v :
  d !! k = Some v -> fill ref_value l d !! k = Some v.
Proof.
  revert d. induction l as [|key l IH]; intros d Hk; simpl; [exact Hk|].
  apply IH. destruct (decide (key = k)) as [->|Hne].
  - rewrite lookup_insert_eq. unfold get_default. rewrite Hk. reflexivity.
  - rewrite lookup_insert_ne by exact Hne. exact Hk.
Qed.

Lemma fill_other ref_value l d k :
  k ∉ l -> fill ref_value l d !! k = d !! k.
Proof.
  revert d. induction l as [|key l IH]; intros d Hk; simpl; [reflexivity|].
  apply not_elem_of_cons in Hk as [Hne Hk].
  rewrite IH by exact Hk. apply lookup_insert_ne. congruence.
Qed.

Lemma fill_absent ref_value l d k :
  k ∈ l -> d !! k = None -> fill ref_value l d !! k = Some ref_value.
Proof.
  revert d. induction l as [|key l IH]; intros d Hin Hk; simpl.
  - inversion Hin.
  - destruct (decide (key = k)) as [->|Hne].
    + apply fill_preserves. rewrite lookup_insert_eq.
      unfold get_default. rewrite Hk. reflexivity.
    + apply elem_of_cons in Hin as [->|Hin]; [congruence|].
      apply IH; [exact Hin|]. rewrite lookup_insert_ne by exact Hne. exact Hk.
Qed.

Lemma dereference_cons ref_key ref_list m d :
  _dereference ((ref_key, ref_list) :: m) d
  = _dereference m
      match d !! ref_key with
      | None => d
      | Some ref_value => fill ref_value ref_list d
      end.
Proof. reflexivity. Qed.

Lemma dereference_preserves m d k v :
  d !! k = Some v -> _dereference m d !! k = Some v.
Proof.
  revert d. induction m as [|[ref_key ref_list] m IH]; intros d Hk;
    [exact Hk|].
  rewrite dereference_cons. apply IH.
  destruct (d !! ref_key); [apply fill_preserves|]; exact Hk.
Qed.

Lemma lists_disjoint_cons ref_key ref_list m :
  lists_disjoint ((ref_key, ref_list) :: m) = true ->
  (forall x e, x ∈ ref_list -> e ∈ m -> x ∉ snd e)
  /\ lists_disjoint m = true.
Proof.
  simpl. intros H. apply andb_true_iff in H as [H1 H2]. split; [|exact H2].
  intros x e Hx He Hin.
  rewrite forallb_forall in H1.
  specialize (H1 x (proj1 (list_elem_of_In _ _) Hx)).
  rewrite forallb_forall in H1.
  specialize (H1 e (proj1 (list_elem_of_In _ _) He)).
  apply negb_true_iff in H1.
  assert (existsb (String.eqb x) (snd e) = true) as Hex; [|congruence].
  apply existsb_exists. exists x. split.
  - apply list_elem_of_In. exact Hin.
  - apply String.eqb_refl.
Qed.

(** C7 (amended).  The dereference pass never overwrites a key that is
    present in the map; and for every reference mapping in which no concrete
    key is listed under two virtual keys (as in the installer's own table),
    every concrete key listed under a virtual key present in the map, and
    itself absent from the map, gets the virtual key's value. *)
Theorem dereference_spec (m : list (string * list string)) d :
  (forall k v, d !! k = Some v -> _dereference m d !! k = Some v)
  /\ (lists_disjoint m = true ->
      forall ref_key ref_list key,
        (ref_key, ref_list) ∈ m ->
        is_Some (d !! ref_key) ->
        key ∈ ref_list ->
        d !! key = None ->
        _dereference m d !! key = d !! ref_key).
Proof.
  split; [intros k v; apply dereference_preserves|].
  revert d. induction m as [|[ref_key0 ref_list0] m IH];
    intros d Hdisj ref_key ref_list key Hin [ref_value Hv] Hkey Habsent.
  - inversion Hin.
  - apply lists_disjoint_cons in Hdisj as [Hhead Hdisj].
    rewrite dereference_cons.
    apply elem_of_cons in Hin as [Heq|Hin].
    + injection Heq as <- <-. rewrite Hv.
      apply dereference_preserves. apply fill_absent; assumption.
    + assert (Hnot : key ∉ ref_list0).
      { intros Hk0. exact (Hhead key (ref_key, ref_list) Hk0 Hin Hkey). }
      rewrite Hv.
      rewrite (IH _ Hdisj ref_key ref_list key Hin).
      * destruct (d !! ref_key0); [|exact Hv].
        apply fill_preserves. exact Hv.
      * destruct (d !! ref_key0); [|eexists; exact Hv].
        eexists. apply fill_preserves. exact Hv.
      * exact Hkey.
      * destruct (d !! ref_key0); [|exact Habsent].
        rewrite fill_other by exact Hnot. exact Habsent.
Qed.

End Dereference.

Lemma dereference_spec_witness :
  _dereference reference_mapping {["cluster_name" := VStr "c"]} !! "clusterId"
  = ({["cluster_name" := VStr "c"]} : gmap string value) !! "cluster_name".
Proof.
  apply (proj2 (dereference_spec reference_mapping
                  {["cluster_name" := VStr "c"]}) eq_refl
           "cluster_name"
           ["clusterId"; "prometheus.prometheusSpec.externalLabels.cluster_name"]
           "clusterId").
  - vm_compute. do 2 right. left.
  - vm_compute. eexists. reflexivity.
  - left.
  - vm_compute. reflexivity.
Defined.

(** C7 as stated fails for a reference mapping that lists one concrete key
    under two virtual keys: the key gets the value of the first. *)
Lemma dereference_counterexample :
  let m := [("a", ["x"]); ("b", ["x"])] in
  let d : gmap string value := {["a" := VStr "1"; "b" := VStr "2"]} in
  ("b", ["x"]) ∈ m
  /\ d !! "b" = Some (VStr "2")
  /\ d !! "x" = None
  /\ _dereference m d !! "x" = Some (VStr "1").
Proof.
  split; [right; left|]. split; [|split]; vm_compute; reflexivity.
Qed.

(** ** [AddConditions.get_action] *)

Module ConditionsFacts.

Import AddConditions.

Lemma group_split_all vals pairs properties :
  split_all vals = Some pairs ->
  group vals properties = Some (group_pairs pairs properties).
Proof.
  revert pairs properties.
  induction vals as [|x vals IH]; intros pairs properties H; simpl in *.
  - injection H as <-. reflexivity.
  - destruct (split_eq x) as [[k v]|]; [|discriminate].
    destruct (split_all vals) as [rest|]; [|discriminate].
    injection H as <-. simpl. apply IH. reflexivity.
Qed.

Lemma keys_append_value k v properties x :
  x ∈ map fst (append_value k v properties)
  <-> x = k \/ x ∈ map fst properties.
Proof.
  induction properties as [|[k' vs] rest IH]; simpl.
  - rewrite list_elem_of_singleton. split; [auto|].
    intros [H|H]; [exact H|inversion H].
  - destruct (String.eqb_spec k' k) as [->|Hne]; simpl.
    + rewrite elem_of_cons. tauto.
    + rewrite !elem_of_cons, IH. tauto.
Qed.

Lemma append_value_lower k v properties :
  (forall k', k' ∈ map fst properties ->
              PyStr.lower k' = PyStr.lower k -> k' = k) ->
  lower_keys (append_value k v properties)
  = append_value (PyStr.lower k) v (lower_keys properties).
Proof.
  induction properties as [|[k' vs] rest IH]; intros Hc; simpl; [reflexivity|].
  destruct (String.eqb_spec k' k) as [->|Hne].
  - rewrite String.eqb_refl. reflexivity.
  - destruct (String.eqb_spec (PyStr.lower k') (PyStr.lower k)) as [Hl|Hl].
    + exfalso. apply Hne. apply Hc; [left|exact Hl].
    + simpl. f_equal. apply IH. intros k'' Hin. apply Hc. right. exact Hin.
Qed.

Lemma case_consistent_on keys :
  case_consistent keys = true -> consistent_on keys.
Proof.
  unfold case_consistent. intros H a b Ha Hb Hl.
  rewrite forallb_forall in H.
  specialize (H a (proj1 (list_elem_of_In _ _) Ha)).
  rewrite forallb_forall in H.
  specialize (H b (proj1 (list_elem_of_In _ _) Hb)).
  rewrite Hl, String.eqb_refl in H. simpl in H.
  apply String.eqb_eq. exact H.
Qed.

Lemma group_pairs_lower pairs properties :
  consistent_on (map fst properties ++ map fst pairs) ->
  lower_keys (group_pairs pairs properties)
  = spec_group pairs (lower_keys properties).
Proof.
  revert properties.
  induction pairs as [|[k v] pairs IH]; intros properties Hc; simpl;
    [reflexivity|].
  rewrite IH.
  - rewrite append_value_lower; [reflexivity|].
    intros k' Hin Hl. apply Hc; [| |exact Hl].
    + apply elem_of_app. left. exact Hin.
    + apply elem_of_app. right. left.
  - intros a b Ha Hb. apply Hc.
    + apply elem_of_app in Ha as [Ha|Ha].
      * apply keys_append_value in Ha as [->|Ha].
        -- apply elem_of_app. right. left.
        -- apply elem_of_app. left. exact Ha.
      * apply elem_of_app. right. right. exact Ha.
    + apply elem_of_app in Hb as [Hb|Hb].
      * apply keys_append_value in Hb as [->|Hb].
        -- apply elem_of_app. right. left.
        -- apply elem_of_app. left. exact Hb.
      * apply elem_of_app. right. right. exact Hb.
Qed.

(** The groups have distinct keys and are not empty. *)
Lemma append_value_NoDup k v properties :
  NoDup (map fst properties) -> NoDup (map fst (append_value k v properties)).
Proof.
  induction properties as [|[k' vs] rest IH]; simpl; intros Hnd.
  - apply NoDup_singleton.
  - apply NoDup_cons in Hnd as [Hnot Hnd].
    destruct (String.eqb_spec k' k) as [->|Hne]; simpl.
    + apply NoDup_cons. split; assumption.
    + apply NoDup_cons. split; [|apply IH; exact Hnd].
      intros Hin. apply keys_append_value in Hin as [->|Hin]; auto.
Qed.

Lemma spec_group_NoDup pairs m :
  NoDup (map fst m) -> NoDup (map fst (spec_group pairs m)).
Proof.
  revert m. induction pairs as [|[k v] pairs IH]; intros m Hnd; simpl;
    [exact Hnd|].
  apply IH. apply append_value_NoDup. exact Hnd.
Qed.

Lemma append_value_nonempty k v properties :
  nonempty_groups properties -> nonempty_groups (append_value k v properties).
Proof.
  induction properties as [|[k' vs] rest IH]; simpl; intros Hne.
  - apply Forall_cons. split; [discriminate|apply Forall_nil; exact I].
  - apply Forall_cons in Hne as [H1 H2]. simpl in H1.
    destruct (String.eqb k' k); apply Forall_cons; split; simpl.
    + intros E. apply app_eq_nil in E as [_ E]. discriminate E.
    + exact H2.
    + exact H1.
    + apply IH. exact H2.
Qed.

Lemma group_pairs_nonempty pairs properties :
  nonempty_groups properties -> nonempty_groups (group_pairs pairs properties).
Proof.
  revert properties. induction pairs as [|[k v] pairs IH];
    intros properties Hne; simpl; [exact Hne|].
  apply IH. apply append_value_nonempty. exact Hne.
Qed.

Lemma group_pairs_keys pairs properties k :
  k ∈ map fst properties \/ k ∈ map fst pairs ->
  k ∈ map fst (group_pairs pairs properties).
Proof.
  revert properties. induction pairs as [|[k' v] pairs IH];
    intros properties H; simpl in *.
  - destruct H as [H|H]; [exact H|inversion H].
  - apply IH. rewrite keys_append_value.
    destruct H as [H|H]; [auto|].
    apply elem_of_cons in H as [->|H]; auto.
Qed.

Lemma assoc_absent k (l : list (string * list string)) :
  k ∉ map fst l -> assoc k l = None.
Proof.
  unfold assoc. induction l as [|[k' vs] l IH]; simpl; intros Hk;
    [reflexivity|].
  apply not_elem_of_cons in Hk as [Hne Hk].
  destruct (String.eqb_spec k' k) as [->|_]; [congruence|].
  apply IH. exact Hk.
Qed.

Lemma assoc_cons k k' vs (l : list (string * list string)) :
  assoc k ((k', vs) :: l) = if String.eqb k' k then Some vs else assoc k l.
Proof. unfold assoc. simpl. destruct (String.eqb k' k); reflexivity. Qed.

Lemma project_spec properties d :
  NoDup (map fst (lower_keys properties)) ->
  nonempty_groups properties ->
  parsed (project properties d)
  = if forallb (fun kv => permitted (fst kv)) (lower_keys properties)
    then Some {| field := match assoc "field" (lower_keys properties) with
                          | Some vs => head vs
                          | None => field d
                          end;
                 operator := match assoc "operator" (lower_keys properties) with
                             | Some vs => head vs
                             | None => operator d
                             end;
                 values := match assoc "values" (lower_keys properties) with
                           | Some vs => Some vs
                           | None => values d
                           end |}
    else None.
Proof.
  revert d. induction properties as [|[k vs] rest IH]; intros d Hnd Hne.
  - destruct d. reflexivity.
  - apply Forall_cons in Hne as [Hvs Hne]. simpl in Hvs.
    destruct vs as [|v0 vs]; [congruence|].
    change (lower_keys ((k, v0 :: vs) :: rest))
      with ((PyStr.lower k, v0 :: vs) :: lower_keys rest) in *.
    simpl in Hnd. apply NoDup_cons in Hnd as [Hnot Hnd].
    cbn [project assign first forallb fst].
    rewrite !assoc_cons. unfold permitted at 1.
    destruct (String.eqb_spec (PyStr.lower k) "field") as [E|_].
    { rewrite E in *. rewrite IH by assumption.
      rewrite (assoc_absent "field") by exact Hnot. reflexivity. }
    destruct (String.eqb_spec (PyStr.lower k) "operator") as [E|_].
    { rewrite E in *. rewrite IH by assumption.
      rewrite (assoc_absent "operator") by exact Hnot. reflexivity. }
    destruct (String.eqb_spec (PyStr.lower k) "values") as [E|_].
    { rewrite E in *. rewrite IH by assumption.
      rewrite (assoc_absent "values") by exact Hnot. reflexivity. }
    reflexivity.
Qed.

Lemma project_unsupported properties d k :
  nonempty_groups properties ->
  k ∈ map fst properties ->
  permitted (PyStr.lower k) = false ->
  exists k',
    project properties d = inl (CLIError (unsupported_msg k'))
    /\ permitted (PyStr.lower k') = false.
Proof.
  revert d. induction properties as [|[k0 vs] rest IH]; intros d Hne Hin Hk.
  - inversion Hin.
  - apply Forall_cons in Hne as [Hvs Hne]. simpl in Hvs.
    destruct vs as [|v0 vs]; [congruence|].
    cbn [project assign first].
    destruct (permitted (PyStr.lower k0)) eqn:Hp.
    + assert (Hrest : k ∈ map fst rest).
      { simpl in Hin. apply elem_of_cons in Hin as [->|Hin]; [congruence|].
        exact Hin. }
      unfold permitted in Hp.
      destruct (String.eqb (PyStr.lower k0) "field");
        [apply IH; assumption|].
      destruct (String.eqb (PyStr.lower k0) "operator");
        [apply IH; assumption|].
      destruct (String.eqb (PyStr.lower k0) "values");
        [apply IH; assumption|].
      discriminate Hp.
    + exists k0. split; [|exact Hp].
      unfold permitted in Hp.
      apply orb_false_iff in Hp as [Hp H3].
      apply orb_false_iff in Hp as [H1 H2].
      rewrite H1, H2, H3. reflexivity.
Qed.

Lemma contains_cons sub c s :
  PyStr.contains sub (String c s)
  = (String.prefix sub (String c s) || PyStr.contains sub s).
Proof. reflexivity. Qed.

Lemma contains_append sub p s :
  PyStr.contains sub s = true -> PyStr.contains sub (p +:+ s) = true.
Proof.
  intros H. induction p as [|c p IH]; [exact H|].
  change (String c p +:+ s) with (String c (p +:+ s)).
  rewrite contains_cons, IH. apply orb_true_r.
Qed.

Lemma unsupported_msg_enumerates k :
  PyStr.contains permitted_keys (unsupported_msg k) = true.
Proof.
  unfold unsupported_msg. do 3 apply contains_append. reflexivity.
Qed.

(** C9 (amended).  For every list of key=value tokens (split on the first
    '=' only) in which no two keys differ only by letter case, the Conditions
    parser returns what grouping the values by lowercased key and projecting
    gives: field is the first value of 'field', operator the first value of
    'operator', values all the values of 'values'.  For every list of tokens,
    a key outside the permitted set raises an error that enumerates the
    permitted keys. *)
Theorem get_action_spec vals option_string pairs :
  split_all vals = Some pairs ->
  (case_consistent (map fst pairs) = true ->
   parsed (get_action vals option_string) = spec_get_action vals)
  /\ (forall k,
        k ∈ map fst pairs ->
        permitted (PyStr.lower k) = false ->
        exists k',
          get_action vals option_string = inl (CLIError (unsupported_msg k'))
          /\ permitted (PyStr.lower k') = false
          /\ PyStr.contains permitted_keys (unsupported_msg k') = true).
Proof.
  intros Hsplit. unfold get_action, spec_get_action.
  rewrite (group_split_all _ _ _ Hsplit), Hsplit.
  assert (Hne : nonempty_groups (group_pairs pairs [])).
  { apply group_pairs_nonempty. apply Forall_nil. exact I. }
  split.
  - intros Hc. apply case_consistent_on in Hc.
    assert (Hl : lower_keys (group_pairs pairs []) = spec_group pairs []).
    { apply (group_pairs_lower pairs []). exact Hc. }
    rewrite project_spec; [|rewrite Hl; apply spec_group_NoDup, NoDup_nil; exact I|exact Hne].
    rewrite Hl. unfold spec_record.
    destruct (forallb _ _); [|reflexivity].
    f_equal. f_equal; destruct (assoc _ _); reflexivity.
  - intros k Hin Hk.
    destruct (project_unsupported (group_pairs pairs []) empty k Hne) as (k' & H1 & H2).
    + apply group_pairs_keys. right. exact Hin.
    + exact Hk.
    + exists k'. split; [exact H1|]. split; [exact H2|].
      apply unsupported_msg_enumerates.
Qed.

End ConditionsFacts.

Lemma get_action_spec_witness :
  AddConditions.parsed
    (AddConditions.get_action
       ["Field=severity"; "operator=Equals"; "values=Sev0"; "values=Sev1"]
       "--conditions")
  = AddConditions.spec_get_action
      ["Field=severity"; "operator=Equals"; "values=Sev0"; "values=Sev1"]
  /\ exists k',
       AddConditions.get_action ["field=severity"; "Colour=red"] "--conditions"
       = inl (CLIError (AddConditions.unsupported_msg k'))
       /\ AddConditions.permitted (PyStr.lower k') = false
       /\ PyStr.contains AddConditions.permitted_keys
             (AddConditions.unsupported_msg k') = true.
Proof.
  split.
  - apply (proj1 (ConditionsFacts.get_action_spec
                    ["Field=severity"; "operator=Equals"; "values=Sev0"; "values=Sev1"]
                    "--conditions"
                    [("Field", "severity"); ("operator", "Equals");
                     ("values", "Sev0"); ("values", "Sev1")] eq_refl)).
    vm_compute. reflexivity.
  - apply (proj2 (ConditionsFacts.get_action_spec
                    ["field=severity"; "Colour=red"] "--conditions"
                    [("field", "severity"); ("Colour", "red")] eq_refl)
             "Colour").
    + right. left.
    + vm_compute. reflexivity.
Defined.

(** C9 as stated fails when a key is given in two spellings: the values are
    grouped by the key as written, and the group that comes last wins. *)
Lemma get_action_counterexample :
  (AddConditions.get_action ["field=a"; "Field=b"] "--conditions"
   = inr {| AddConditions.field := Some "b";
            AddConditions.operator := None;
            AddConditions.values := None |}
   /\ AddConditions.spec_get_action ["field=a"; "Field=b"]
      = Some {| AddConditions.field := Some "a";
                AddConditions.operator := None;
                AddConditions.values := None |})
  /\ (AddConditions.get_action ["values=1"; "VALUES=2"] "--conditions"
      = inr {| AddConditions.field := None;
               AddConditions.operator := None;
               AddConditions.values := Some ["2"] |}
      /\ AddConditions.spec_get_action ["values=1"; "VALUES=2"]
         = Some {| AddConditions.field := None;
                   AddConditions.operator := None;
                   AddConditions.values := Some ["1"; "2"] |}).
Proof. repeat split; vm_compute; reflexivity. Qed.

(** ** [Create]: the default values *)

(** C4, on an input that shows the defect.  The caller has set all five
    keys.  [Create] keeps the caller's 'cluster_name', 'location',
    'jobSchedulerLocation' and 'cluster_name_friendly', but 'domain' is
    replaced by the default derived from the location of the cluster, in the
    caller's dictionary and in the manifest: the value to keep is looked up
    under the misspelt key 'doamin', which the caller has not set. *)
Lemma Create_overwrites_domain :
  let cs : gmap string value :=
    {["enableTraining" := VStr "true"; "cluster_name" := VStr "mine";
      "domain" := VStr "contoso.example"; "location" := VStr "westeurope";
      "jobSchedulerLocation" := VStr "northeurope";
      "cluster_name_friendly" := VStr "friendly"]} in
  let r := sample_Create sample_env (Some "cluster") cs ∅ in
  returned r = true
  /\ settings (snd r) !! "cluster_name" = Some (VStr "mine")
  /\ settings (snd r) !! "location" = Some (VStr "westeurope")
  /\ settings (snd r) !! "jobSchedulerLocation" = Some (VStr "northeurope")
  /\ settings (snd r) !! "cluster_name_friendly" = Some (VStr "friendly")
  /\ settings (snd r) !! "domain" = Some (VStr "eastus.cloudapp.azure.com")
  /\ manifest_settings r ≫= (fun d => d !! "domain")
     = Some (VStr "eastus.cloudapp.azure.com").
Proof. repeat split; vm_compute; reflexivity. Qed.

(** ** [Update]: the connection strings *)

Section KeepsDicts.

Lemma keeps_ret {A} (a : A) : keeps_dicts (mret a).
Proof. intros st. auto. Qed.

Lemma keeps_raise {A} (e : exn) : keeps_dicts (@raise A e).
Proof. intros st. auto. Qed.

Lemma keeps_emit (ev : event) : keeps_dicts (emit ev).
Proof. intros st. auto. Qed.

Lemma keeps_bind {A B} (m : M A) (f : A -> M B) :
  keeps_dicts m -> (forall a, keeps_dicts (f a)) -> keeps_dicts (m ≫= f).
Proof.
  intros Hm Hf st. unfold mbind, M_bind.
  specialize (Hm st). destruct (m st) as [[e|a] st']; [exact Hm|].
  destruct (Hf a st') as (H1 & H2 & H3), Hm as (H4 & H5 & H6).
  simpl in *. repeat split; congruence.
Qed.

Lemma keeps_outcome {A} (res : foreign_error + A) : keeps_dicts (outcome res).
Proof. destruct res; [apply keeps_raise|apply keeps_ret]. Qed.

Lemma keeps_call {A} (c : remote_call) (res : foreign_error + A) :
  keeps_dicts (call c res).
Proof.
  apply keeps_bind; [apply keeps_emit|]. intros _. apply keeps_outcome.
Qed.

Lemma keeps_for_each {A} (l : list A) (body : A -> M unit) :
  (forall x, keeps_dicts (body x)) -> keeps_dicts (for_each l body).
Proof.
  intros Hb. induction l as [|x l IH]; simpl; [apply keeps_ret|].
  apply keeps_bind; [apply Hb|]. intros _. exact IH.
Qed.

Lemma keeps_if {A} (b : bool) (m1 m2 : M A) :
  keeps_dicts m1 -> keeps_dicts m2 -> keeps_dicts (if b then m1 else m2).
Proof. destruct b; auto. Qed.

End KeepsDicts.

Ltac keeps_step :=
  lazymatch goal with
  | |- keeps_dicts (mret _) => apply keeps_ret
  | |- keeps_dicts (_ ≫= _) => apply keeps_bind; [|intros ?]
  | |- keeps_dicts (emit _) => apply keeps_emit
  | |- keeps_dicts (raise _) => apply keeps_raise
  | |- keeps_dicts (outcome _) => apply keeps_outcome
  | |- keeps_dicts (call _ _) => apply keeps_call
  | |- keeps_dicts (for_each _ _) => apply keeps_for_each; intros ?
  | |- keeps_dicts (warning _) => unfold warning
  | |- keeps_dicts (info _) => unfold info
  | |- keeps_dicts (if _ then _ else _) => apply keeps_if
  | |- keeps_dicts (match ?x with _ => _ end) => destruct x
  end.

Section UpdateLookups.

Context (cmd : Env) (subscription_id resource_group_name cluster_name : string).

Lemma keeps_valid_name input_name suffix_len max_len :
  keeps_dicts (_get_valid_name input_name suffix_len max_len).
Proof. unfold _get_valid_name. repeat keeps_step. Qed.

Lemma keeps_log_analytics loc gko :
  keeps_dicts (_get_log_analytics_ws_connection_string cmd subscription_id
                 resource_group_name cluster_name loc gko).
Proof.
  unfold _get_log_analytics_ws_connection_string.
  apply keeps_bind; [apply keeps_valid_name|intros ?]. repeat keeps_step.
Qed.

Lemma keeps_relay loc rule gko :
  keeps_dicts (_get_relay_connection_str cmd subscription_id
                 resource_group_name cluster_name loc rule gko).
Proof.
  unfold _get_relay_connection_str.
  apply keeps_bind; [apply keeps_valid_name|intros ?]. repeat keeps_step.
Qed.

Lemma keeps_service_bus loc mapping gko :
  keeps_dicts (_get_service_bus_connection_string cmd subscription_id
                 resource_group_name cluster_name loc mapping gko).
Proof.
  unfold _get_service_bus_connection_string.
  apply keeps_bind; [apply keeps_valid_name|intros ?]. repeat keeps_step.
Qed.

(** The three steps of [Update] that fetch a connection string whose key is
    absent from the protected settings, each on its own: what a failure of
    the lookup it makes becomes. *)
Lemma lookup_step_failures (st st' : store) (status_code : Z) :
  (AZURE_LOG_ANALYTICS_CONNECTION_STRING ∉ dom (protected st) ->
   _get_log_analytics_ws_connection_string cmd subscription_id
     resource_group_name cluster_name "" true st
   = (inl (Foreign (HttpResponseError status_code)), st') ->
   Update_log_analytics cmd TheProtected subscription_id resource_group_name
     cluster_name st
   = (inr tt,
      logged st' [LogInfo "Failed to get log analytics connection string."])
   /\ protected st' = protected st)
  /\ (RELAY_SERVER_CONNECTION_STRING ∉ dom (protected st) ->
      _get_relay_connection_str cmd subscription_id resource_group_name
        cluster_name "" RELAY_HC_AUTH_NAME true st
      = (inl (Foreign (ErrorResponseException status_code)), st') ->
      Update_relay cmd TheProtected subscription_id resource_group_name
        cluster_name st
      = (inl (if status_code =? 404
              then ResourceNotFoundError "Relay server not found."
              else AzureResponseError "Failed to get relay connection string."),
         st'))
  /\ (SERVICE_BUS_CONNECTION_STRING ∉ dom (protected st) ->
      _get_service_bus_connection_string cmd subscription_id
        resource_group_name cluster_name "" [] true st
      = (inl (Foreign (HttpResponseError status_code)), st') ->
      Update_service_bus cmd TheProtected subscription_id resource_group_name
        cluster_name st
      = (inl (if status_code =? 404
              then ResourceNotFoundError "Service bus not found."
              else AzureResponseError "Failed to get service bus connection string."),
         st')).
Proof.
  split; [|split]; intros Hkey Hlookup.
  - split.
    + unfold Update_log_analytics.
      unfold mbind at 1, M_bind at 1, read at 1. cbn beta iota.
      unfold has_key. rewrite bool_decide_eq_false_2 by exact Hkey.
      cbn [negb]. unfold try_except, mbind at 1, M_bind at 1.
      rewrite Hlookup. reflexivity.
    + pose proof (keeps_log_analytics "" true st) as (_ & H & _).
      rewrite Hlookup in H. exact H.
  - unfold Update_relay.
    unfold mbind at 1, M_bind at 1, read at 1. cbn beta iota.
    unfold has_key. rewrite bool_decide_eq_false_2 by exact Hkey.
    cbn [negb]. unfold try_except, mbind at 1, M_bind at 1.
    rewrite Hlookup. destruct (status_code =? 404); reflexivity.
  - unfold Update_service_bus.
    unfold mbind at 1, M_bind at 1, read at 1. cbn beta iota.
    unfold has_key. rewrite bool_decide_eq_false_2 by exact Hkey.
    cbn [negb]. unfold try_except, mbind at 1, M_bind at 1.
    rewrite Hlookup. destruct (status_code =? 404); reflexivity.
Qed.

End UpdateLookups.

(** C6 as stated fails on [Update] itself, in both directions: a failure of
    the Log Analytics lookup that is not a not-found failure (status 500) is
    not fatal, and a not-found failure (status 404) of the Relay or of the
    Service Bus lookup is fatal. *)
Lemma Update_lookup_counterexample :
  returned (sample_Update
              (lookup_env (inl (HttpResponseError 500)) (inr "relay-key")
                 (inr "sb-id"))
              ∅ {["k" := VStr "v"]}) = true
  /\ fst (sample_Update
            (lookup_env (inr "shared") (inl (ErrorResponseException 404))
               (inr "sb-id"))
            ∅ {["k" := VStr "v"]})
     = inl (ResourceNotFoundError "Relay server not found.")
  /\ fst (sample_Update
            (lookup_env (inr "shared") (inr "relay-key")
               (inl (HttpResponseError 404)))
            ∅ {["k" := VStr "v"]})
     = inl (ResourceNotFoundError "Service bus not found.").
Proof. repeat split; vm_compute; reflexivity. Qed.

Section Validation.

Context (cmd : Env).

Lemma effective_insert_ne key k v (s p : gmap string value) :
  k <> key ->
  _get_value_from_config_protected_config key (<[k := v]> s) p
  = _get_value_from_config_protected_config key s p.
Proof.
  intros Hne. unfold _get_value_from_config_protected_config.
  rewrite lookup_insert_ne by exact Hne. reflexivity.
Qed.

Lemma validate_scoring_fe_eq (rn : string) (st : store) :
  __validate_scoring_fe_settings TheSettings TheProtected rn st
  = let s := settings st in
    let p := protected st in
    let s2 := scoring_settings s p in
    if negb (ssl_enabled s p) && negb (reads "true" allowInsecureConnections s p)
    then (inl (InvalidArgumentValueError (tls_msg rn)),
          Store s2 p (copied st) (trace st))
    else if reads "true" privateEndpointNodeport s p
            && reads "true" privateEndpointILB s p
    then (inl (MutuallyExclusiveArgumentError mutually_exclusive_msg),
          Store s2 p (copied st) (trace st))
    else if reads "true" privateEndpointNodeport s p
    then (inr tt,
          Store (<["scoringFe.serviceType.nodePort" := VBool true]> s2) p
            (copied st) (trace st))
    else if reads "true" privateEndpointILB s p
    then (inr tt,
          Store (<["scoringFe.serviceType.internalLoadBalancer" := VBool true]> s2)
            p (copied st) (trace st ++ [LogWarning ilb_warning]))
    else (inr tt, Store s2 p (copied st) (trace st)).
Proof.
  destruct st as [s p c t]. unfold __validate_scoring_fe_settings.
  cbn zeta. cbn [settings protected copied trace].
  unfold scoring_settings, ssl_enabled, reads.
  mrun.
  destruct (str_lower_is "false" _) eqn:Hha;
    cbn beta iota zeta delta [settings protected copied trace];
    rewrite !effective_insert_ne by discriminate.
  all: destruct (str_lower_is "true"
                   (_get_value_from_config_protected_config IS_AKS_MIGRATION s p))
         eqn:Haks;
    cbn beta iota zeta delta [settings protected copied trace];
    rewrite !effective_insert_ne by discriminate.
  all: destruct (negb _ && negb _) eqn:Htls;
    cbn beta iota zeta delta [settings protected copied trace];
    [reflexivity|];
    rewrite !effective_insert_ne by discriminate.
  all: destruct (str_lower_is "true"
                   (_get_value_from_config_protected_config
                      privateEndpointNodeport s p)) eqn:Hnp;
    destruct (str_lower_is "true"
                (_get_value_from_config_protected_config
                   privateEndpointILB s p)) eqn:Hilb;
    reflexivity.
Qed.

Lemma set_up_inference_ssl_insecure (st : store) :
  reads "true" allowInsecureConnections (settings st) (protected st) = true ->
  __set_up_inference_ssl cmd TheSettings TheProtected st
  = (inr tt, logged st [LogWarning insecure_warning]).
Proof.
  intros Hallow. destruct st as [s p c t]. unfold reads in Hallow.
  cbn [settings protected] in Hallow.
  unfold __set_up_inference_ssl. mrun. rewrite Hallow. reflexivity.
Qed.

(** [__validate_config] on dictionaries without a common key. *)
Lemma validate_config_eq (rn : string) (st : store) :
  dom (settings st) ∩ dom (protected st) = ∅ ->
  __validate_config cmd TheSettings TheProtected rn st
  = let training := reads "true" ENABLE_TRAINING (settings st) (protected st) in
    let inference := reads "true" ENABLE_INFERENCE (settings st) (protected st) in
    if inference then
      match __validate_scoring_fe_settings TheSettings TheProtected rn
              (logged st [LogWarning experimental_warning]) with
      | (inl e, st1) => (inl e, st1)
      | (inr _, st1) =>
          match __set_up_inference_ssl cmd TheSettings TheProtected st1 with
          | (inl e, st2) => (inl e, st2)
          | (inr _, st2) => (inr tt, write_back training inference st2)
          end
      end
    else if training then (inr tt, write_back training inference st)
    else (inl (InvalidArgumentValueError enable_flags_msg), st).
Proof.
  intros Hdisj. destruct st as [s p c t].
  cbn [settings protected copied trace] in *.
  unfold __validate_config, reads, write_back, logged.
  unfold mbind at 1 2 3, M_bind at 1 2 3, read at 1 2.
  cbn beta iota zeta delta [settings protected copied trace].
  rewrite bool_decide_eq_false_2 by (intros H; apply H; exact Hdisj).
  unfold mret at 1, M_ret at 1. cbn beta iota.
  unfold mbind at 1 2 3, M_bind at 1 2 3. rewrite !effective_eq.
  cbn beta iota zeta delta [settings protected copied trace].
  destruct (str_lower_is "true"
              (_get_value_from_config_protected_config ENABLE_INFERENCE s p))
    eqn:Hinf.
  - unfold mbind at 1 2, M_bind at 1 2, warning at 1, emit at 1.
    cbn beta iota zeta delta [settings protected copied trace].
    destruct (__validate_scoring_fe_settings _ _ _ _) as [[e|[]] st1];
      [reflexivity|].
    destruct (__set_up_inference_ssl _ _ _ _) as [[e|[]] st2];
      [reflexivity|].
    destruct st2. reflexivity.
  - destruct (str_lower_is "true"
                (_get_value_from_config_protected_config ENABLE_TRAINING s p))
      eqn:Htr; reflexivity.
Qed.

End Validation.

Lemma py_get_absent (d : gmap string value) (k : string) :
  k ∉ dom d -> py_get d k = VNone.
Proof.
  intros H. apply not_elem_of_dom in H. unfold py_get, get_default.
  rewrite H. reflexivity.
Qed.

Lemma effective_absent (key : string) (s p : gmap string value) :
  key ∉ dom s -> key ∉ dom p ->
  _get_value_from_config_protected_config key s p = VNone.
Proof.
  intros Hs Hp. unfold _get_value_from_config_protected_config.
  apply not_elem_of_dom in Hs. rewrite Hs. apply py_get_absent. exact Hp.
Qed.

Lemma reads_scoring_settings word key (s p : gmap string value) :
  key <> "clusterPurpose" -> key <> "scoringFe.namespace" ->
  key <> IS_AKS_MIGRATION ->
  reads word key (scoring_settings s p) p = reads word key s p.
Proof.
  intros H1 H2 H3. unfold scoring_settings. cbv zeta.
  set (aks := reads "true" IS_AKS_MIGRATION s p).
  set (ha := reads "false" inferenceLoadBalancerHA s p).
  unfold reads.
  destruct aks; rewrite !effective_insert_ne by congruence; reflexivity.
Qed.

Section CreateFlags.

Context (cmd : Env).
Context (resource_group_name cluster_name name cluster_type extension_type : string).
Context (auto_upgrade_minor_version : option bool).
Context (release_train version target_namespace release_namespace : option string).
Context (settings_file protected_settings_file : option string).

Local Abbreviation Create_with scope :=
  (Create cmd resource_group_name cluster_name name cluster_type extension_type
     scope auto_upgrade_minor_version release_train version target_namespace
     release_namespace TheSettings TheProtected settings_file
     protected_settings_file).

Local Abbreviation the_release_namespace :=
  (if falsy_str release_namespace then DEFAULT_RELEASE_NAMESPACE
   else default "" release_namespace).

(** C2 (amended).  For every configuration whose settings and protected
    settings have no key in common, installed at a scope other than
    'namespace', in which neither enableTraining nor enableInference reads
    true, [Create] fails with the invalid-argument error whose message names
    both flags, leaving the dictionaries as they were.  For every
    configuration in which at least one of the two reads true, that error is
    not raised; when only enableTraining reads true and the key sets are
    disjoint, the validation succeeds and writes the two flags back. *)
Theorem Create_enable_flags (scope : option string) (cs cps : gmap string value) :
  (scope <> Some "namespace" ->
   dom cs ∩ dom cps = ∅ ->
   reads "true" ENABLE_TRAINING cs cps = false ->
   reads "true" ENABLE_INFERENCE cs cps = false ->
   Create_with scope (initial cs cps)
   = (inl (InvalidArgumentValueError enable_flags_msg), initial cs cps)
   /\ PyStr.contains ENABLE_TRAINING enable_flags_msg = true
   /\ PyStr.contains ENABLE_INFERENCE enable_flags_msg = true)
  /\ (reads "true" ENABLE_TRAINING cs cps = true
      \/ reads "true" ENABLE_INFERENCE cs cps = true ->
      fst (Create_with scope (initial cs cps))
      <> inl (InvalidArgumentValueError enable_flags_msg)
      /\ (dom cs ∩ dom cps = ∅ ->
          reads "true" ENABLE_INFERENCE cs cps = false ->
          __validate_config cmd TheSettings TheProtected the_release_namespace
            (initial cs cps)
          = (inr tt, write_back true false (initial cs cps)))).
Proof.
  split.
  - intros Hs Hdisj Ht Hi. split; [|split; reflexivity].
    apply Create_validation_fails; [exact Hs|].
    rewrite validate_config_eq by exact Hdisj.
    cbn [initial settings protected]. rewrite Ht, Hi. reflexivity.
  - intros Hflag. split.
    + intros H.
      assert (Ha : avoids_at
                     (fun e => e = InvalidArgumentValueError enable_flags_msg)
                     (Create_with scope) (initial cs cps));
        [|exact (Ha _ H eq_refl)].
      apply avoids_at_Create; try (intros; discriminate).
      apply avoids_at_validate_config; try (intros; discriminate).
      cbn [initial settings protected]. intros Ht Hi.
      destruct Hflag; congruence.
    + intros Hdisj Hi. destruct Hflag as [Ht|Hi']; [|congruence].
      rewrite validate_config_eq by exact Hdisj.
      cbn [initial settings protected]. rewrite Ht, Hi. reflexivity.
Qed.

(** C3 (amended).  For every configuration with disjoint key sets, installed
    at a scope other than 'namespace', with inference enabled, no
    sslCertPemFile+sslKeyPemFile pair in the protected settings, no sslSecret
    and allowInsecureConnections not reading true, [Create] fails with the
    TLS remediation error.  For every configuration with disjoint key sets
    and inference enabled in which allowInsecureConnections reads true, and
    privateEndpointNodeport and privateEndpointILB do not both read true, the
    validation succeeds; it opens no file, and the protected settings are the
    caller's without the two flags, so no TLS key is added to them. *)
Theorem Create_tls (scope : option string) (cs cps : gmap string value) :
  (scope <> Some "namespace" ->
   dom cs ∩ dom cps = ∅ ->
   reads "true" ENABLE_INFERENCE cs cps = true ->
   ~ (sslCertPemFile ∈ dom cps /\ sslKeyPemFile ∈ dom cps) ->
   SSL_SECRET ∉ dom cs ->
   SSL_SECRET ∉ dom cps ->
   reads "true" allowInsecureConnections cs cps = false ->
   fst (Create_with scope (initial cs cps))
   = inl (InvalidArgumentValueError (tls_msg the_release_namespace)))
  /\ (dom cs ∩ dom cps = ∅ ->
      reads "true" ENABLE_INFERENCE cs cps = true ->
      reads "true" allowInsecureConnections cs cps = true ->
      reads "true" privateEndpointNodeport cs cps
      && reads "true" privateEndpointILB cs cps = false ->
      exists st',
        __validate_config cmd TheSettings TheProtected the_release_namespace
          (initial cs cps) = (inr tt, st')
        /\ protected st' = delete ENABLE_INFERENCE (delete ENABLE_TRAINING cps)
        /\ protected st' !! "scoringFe.sslCert" = cps !! "scoringFe.sslCert"
        /\ protected st' !! "scoringFe.sslKey" = cps !! "scoringFe.sslKey"
        /\ Forall (fun ev => is_open_file ev = false) (trace st')).
Proof.
  split.
  - intros Hs Hdisj Hi Hpair Hsec1 Hsec2 Hallow.
    assert (Hssl : ssl_enabled cs cps = false).
    { unfold ssl_enabled. rewrite effective_absent by assumption.
      rewrite orb_false_r.
      destruct (decide (sslCertPemFile ∈ dom cps)) as [Hc|Hc].
      - destruct (decide (sslKeyPemFile ∈ dom cps)) as [Hk|Hk]; [tauto|].
        rewrite (py_get_absent _ _ Hk). apply andb_false_r.
      - rewrite (py_get_absent _ _ Hc). reflexivity. }
    erewrite Create_validation_fails; [reflexivity|exact Hs|].
    rewrite validate_config_eq by exact Hdisj.
    cbn [initial settings protected]. rewrite Hi.
    rewrite validate_scoring_fe_eq.
    cbn [logged initial settings protected copied trace].
    rewrite Hssl, Hallow. reflexivity.
  - intros Hdisj Hi Hallow Hboth.
    rewrite validate_config_eq by exact Hdisj.
    cbn [initial settings protected]. rewrite Hi.
    rewrite validate_scoring_fe_eq.
    cbn [logged initial settings protected copied trace].
    rewrite Hallow, andb_false_r, Hboth.
    assert (Hallow' : forall k v,
              k <> allowInsecureConnections ->
              reads "true" allowInsecureConnections
                (<[k := v]> (scoring_settings cs cps)) cps = true).
    { intros k v Hk. unfold reads. rewrite effective_insert_ne by exact Hk.
      fold (reads "true" allowInsecureConnections (scoring_settings cs cps) cps).
      rewrite reads_scoring_settings by discriminate. exact Hallow. }
    assert (Hallow'' : reads "true" allowInsecureConnections
                         (scoring_settings cs cps) cps = true).
    { rewrite reads_scoring_settings by discriminate. exact Hallow. }
    destruct (reads "true" privateEndpointNodeport cs cps);
      [|destruct (reads "true" privateEndpointILB cs cps)];
      (rewrite set_up_inference_ssl_insecure;
       [|cbn [settings protected]; auto; apply Hallow'; discriminate]);
      (eexists; split; [reflexivity|]);
      cbn [write_back logged protected trace];
      (split; [reflexivity|]);
      rewrite !lookup_delete_ne by discriminate;
      (split; [reflexivity|]); (split; [reflexivity|]);
      repeat (apply Forall_cons; split; [reflexivity|]); apply Forall_nil; exact I.
Qed.

End CreateFlags.

Lemma Create_enable_flags_witness :
  (sample_Create sample_env (Some "cluster") {["verbose" := VStr "1"]} ∅
   = (inl (InvalidArgumentValueError enable_flags_msg),
      initial {["verbose" := VStr "1"]} ∅)
   /\ PyStr.contains ENABLE_TRAINING enable_flags_msg = true
   /\ PyStr.contains ENABLE_INFERENCE enable_flags_msg = true)
  /\ (fst (sample_Create sample_env (Some "cluster")
             {["enableTraining" := VStr "True"]} ∅)
      <> inl (InvalidArgumentValueError enable_flags_msg)
      /\ __validate_config sample_env TheSettings TheProtected "azureml"
           (initial {["enableTraining" := VStr "True"]} ∅)
         = (inr tt,
            write_back true false
              (initial {["enableTraining" := VStr "True"]} ∅))).
Proof.
  split.
  - apply (proj1 (Create_enable_flags sample_env "rg" "mycluster" "amlarc"
                    "connectedClusters" "Microsoft.AzureML.Kubernetes" None
                    None None None None None None (Some "cluster")
                    {["verbose" := VStr "1"]} ∅)).
    + discriminate.
    + apply (bool_decide_unpack _). vm_compute. exact I.
    + vm_compute. reflexivity.
    + vm_compute. reflexivity.
  - destruct (proj2 (Create_enable_flags sample_env "rg" "mycluster" "amlarc"
                       "connectedClusters" "Microsoft.AzureML.Kubernetes" None
                       None None None None None None (Some "cluster")
                       {["enableTraining" := VStr "True"]} ∅))
      as [H1 H2].
    + left. vm_compute. reflexivity.
    + split; [exact H1|]. apply H2.
      * apply (bool_decide_unpack _). vm_compute. exact I.
      * vm_compute. reflexivity.
Defined.

(** C2 as stated fails for a configuration with a key in both dictionaries,
    and for the scope 'namespace': neither flag reads true, and the error
    raised is another one, whose message names no flag. *)
Lemma Create_enable_flags_counterexample :
  reads "true" ENABLE_TRAINING {["a" := VStr "1"]} {["a" := VStr "2"]} = false
  /\ reads "true" ENABLE_INFERENCE {["a" := VStr "1"]} {["a" := VStr "2"]} = false
  /\ fst (sample_Create sample_env (Some "cluster")
            {["a" := VStr "1"]} {["a" := VStr "2"]})
     = inl (InvalidArgumentValueError "Duplicate keys found.")
  /\ PyStr.contains ENABLE_TRAINING "Duplicate keys found." = false
  /\ PyStr.contains ENABLE_INFERENCE "Duplicate keys found." = false
  /\ fst (sample_Create sample_env (Some "namespace") ∅ ∅)
     = inl (InvalidArgumentValueError
              "Invalid scope 'namespace'.  This extension can be installed only at 'cluster' scope.")
  /\ PyStr.contains ENABLE_TRAINING (invalid_scope_msg "namespace") = false.
Proof. repeat split; vm_compute; reflexivity. Qed.

Lemma Create_tls_witness :
  fst (sample_Create sample_env (Some "cluster")
         {["enableInference" := VStr "true"]} ∅)
  = inl (InvalidArgumentValueError (tls_msg "azureml"))
  /\ exists st',
       __validate_config sample_env TheSettings TheProtected "azureml"
         (initial {["enableInference" := VStr "true";
                    "allowInsecureConnections" := VStr "true"]} ∅)
       = (inr tt, st')
       /\ protected st' = delete ENABLE_INFERENCE (delete ENABLE_TRAINING ∅)
       /\ protected st' !! "scoringFe.sslCert"
          = (∅ : gmap string value) !! "scoringFe.sslCert"
       /\ protected st' !! "scoringFe.sslKey"
          = (∅ : gmap string value) !! "scoringFe.sslKey"
       /\ Forall (fun ev => is_open_file ev = false) (trace st').
Proof.
  split.
  - apply (proj1 (Create_tls sample_env "rg" "mycluster" "amlarc"
                    "connectedClusters" "Microsoft.AzureML.Kubernetes" None
                    None None None None None None (Some "cluster")
                    {["enableInference" := VStr "true"]} ∅)).
    + discriminate.
    + apply (bool_decide_unpack _). vm_compute. exact I.
    + vm_compute. reflexivity.
    + apply (bool_decide_unpack _). vm_compute. exact I.
    + apply (bool_decide_unpack _). vm_compute. exact I.
    + apply (bool_decide_unpack _). vm_compute. exact I.
    + vm_compute. reflexivity.
  - apply (proj2 (Create_tls sample_env "rg" "mycluster" "amlarc"
                    "connectedClusters" "Microsoft.AzureML.Kubernetes" None
                    None None None None None None (Some "cluster")
                    {["enableInference" := VStr "true";
                      "allowInsecureConnections" := VStr "true"]} ∅)).
    + apply (bool_decide_unpack _). vm_compute. exact I.
    + vm_compute. reflexivity.
    + vm_compute. reflexivity.
    + vm_compute. reflexivity.
Defined.

(** C3 as stated fails in two places: with a key in both dictionaries the
    error raised is the duplicate-key error, not the TLS one; and with
    allowInsecureConnections=true the validation still fails when both
    privateEndpointNodeport and privateEndpointILB are true. *)
Lemma Create_tls_counterexample :
  fst (sample_Create sample_env (Some "cluster")
         {["enableInference" := VStr "true"; "a" := VStr "1"]}
         {["a" := VStr "2"]})
  = inl (InvalidArgumentValueError "Duplicate keys found.")
  /\ fst (sample_Create sample_env (Some "cluster")
            {["enableInference" := VStr "true";
              "allowInsecureConnections" := VStr "true";
              "privateEndpointNodeport" := VStr "true";
              "privateEndpointILB" := VStr "true"]} ∅)
     = inl (MutuallyExclusiveArgumentError mutually_exclusive_msg).
Proof. split; vm_compute; reflexivity. Qed.

(** ** The trace only grows *)

Section Extends.

Lemma extends_ret {A} (a : A) : extends (mret a).
Proof. intros st. exists []. simpl. rewrite app_nil_r. reflexivity. Qed.

Lemma extends_raise {A} (e : exn) : extends (@raise A e).
Proof. intros st. exists []. simpl. rewrite app_nil_r. reflexivity. Qed.

Lemma extends_emit (ev : event) : extends (emit ev).
Proof. intros st. exists [ev]. reflexivity. Qed.

Lemma extends_read (r : dict_ref) : extends (read r).
Proof. intros st. exists []. simpl. rewrite app_nil_r. reflexivity. Qed.

Lemma extends_modify (r : dict_ref) f : extends (modify r f).
Proof.
  intros st. exists []. rewrite app_nil_r. destruct r; reflexivity.
Qed.

Lemma extends_bind {A B} (m : M A) (f : A -> M B) :
  extends m -> (forall a, extends (f a)) -> extends (m ≫= f).
Proof.
  intros Hm Hf st. unfold mbind, M_bind.
  destruct (Hm st) as [evs Hevs]. destruct (m st) as [[e|a] st'].
  - exists evs. exact Hevs.
  - destruct (Hf a st') as [evs' Hevs']. exists (evs ++ evs').
    rewrite Hevs'. simpl in Hevs. rewrite Hevs. apply eq_sym, app_assoc.
Qed.

Lemma extends_outcome {A} (res : foreign_error + A) : extends (outcome res).
Proof. destruct res; [apply extends_raise|apply extends_ret]. Qed.

Lemma extends_call {A} (c : remote_call) (res : foreign_error + A) :
  extends (call c res).
Proof.
  apply extends_bind; [apply extends_emit|]. intros _. apply extends_outcome.
Qed.

Lemma extends_for_each {A} (l : list A) (body : A -> M unit) :
  (forall x, extends (body x)) -> extends (for_each l body).
Proof.
  intros Hb. induction l as [|x l IH]; simpl; [apply extends_ret|].
  apply extends_bind; [apply Hb|]. intros _. exact IH.
Qed.

Lemma extends_if {A} (b : bool) (m1 m2 : M A) :
  extends m1 -> extends m2 -> extends (if b then m1 else m2).
Proof. destruct b; auto. Qed.

(** What was first in the trace stays first. *)
Lemma extends_first {A} (m : M A) (st : store) (ev : event) :
  extends m -> head (trace st) = Some ev -> first_event (m st) = Some ev.
Proof.
  intros Hm Hev. destruct (Hm st) as [evs Hevs]. unfold first_event.
  rewrite Hevs. destruct (trace st); [discriminate Hev|exact Hev].
Qed.

End Extends.

Ltac extends_step :=
  lazymatch goal with
  | |- extends (mret _) => apply extends_ret
  | |- extends (_ ≫= _) => apply extends_bind; [|intros ?]
  | |- extends (emit _) => apply extends_emit
  | |- extends (read _) => apply extends_read
  | |- extends (modify _ _) => apply extends_modify
  | |- extends (raise _) => apply extends_raise
  | |- extends (outcome _) => apply extends_outcome
  | |- extends (call _ _) => apply extends_call
  | |- extends (for_each _ _) => apply extends_for_each; intros ?
  | |- extends (write _ _ _) => unfold write
  | |- extends (pop _ _) => unfold pop
  | |- extends (warning _) => unfold warning
  | |- extends (info _) => unfold info
  | |- extends (effective _ _ _) => unfold effective
  | |- extends (if _ then _ else _) => apply extends_if
  | |- extends (match ?x with _ => _ end) => destruct x
  end.

Section ExtendsMethods.

Context (cmd : Env).

Lemma extends_valid_name input_name suffix_len max_len :
  extends (_get_valid_name input_name suffix_len max_len).
Proof. unfold _get_valid_name. repeat extends_step. Qed.

Lemma extends_log_analytics sub rg cn loc gko :
  extends (_get_log_analytics_ws_connection_string cmd sub rg cn loc gko).
Proof.
  unfold _get_log_analytics_ws_connection_string.
  apply extends_bind; [apply extends_valid_name|intros ?].
  repeat extends_step.
Qed.

Lemma extends_relay sub rg cn loc rule gko :
  extends (_get_relay_connection_str cmd sub rg cn loc rule gko).
Proof.
  unfold _get_relay_connection_str.
  apply extends_bind; [apply extends_valid_name|intros ?].
  repeat extends_step.
Qed.

Lemma extends_service_bus sub rg cn loc mapping gko :
  extends (_get_service_bus_connection_string cmd sub rg cn loc mapping gko).
Proof.
  unfold _get_service_bus_connection_string.
  apply extends_bind; [apply extends_valid_name|intros ?].
  repeat extends_step.
Qed.

Lemma extends_validate_scoring_fe cs cps rn :
  extends (__validate_scoring_fe_settings cs cps rn).
Proof. unfold __validate_scoring_fe_settings. repeat extends_step. Qed.

Lemma extends_set_up_inference_ssl cs cps :
  extends (__set_up_inference_ssl cmd cs cps).
Proof.
  unfold __set_up_inference_ssl, __set_inference_ssl_from_file,
    __set_inference_ssl_from_secret, read_b64.
  repeat extends_step.
Qed.

End ExtendsMethods.

Ltac extends_tac cmd :=
  repeat first
    [ extends_step
    | match goal with
      | |- extends (?f _ _ _ _ _ _) =>
          constr_eq f _get_log_analytics_ws_connection_string;
          apply extends_log_analytics
      | |- extends (?f _ _ _ _ _ _ _) =>
          first [ constr_eq f _get_relay_connection_str; apply extends_relay
                | constr_eq f _get_service_bus_connection_string;
                  apply extends_service_bus ]
      | |- extends (?f _ _ _) =>
          constr_eq f __validate_scoring_fe_settings;
          apply extends_validate_scoring_fe
      | |- extends (?f _ _ _) =>
          constr_eq f __set_up_inference_ssl;
          apply extends_set_up_inference_ssl
      end ].

Section FirstEvent.

Lemma first_bind {A B} (m : M A) (f : A -> M B) (st : store) (ev : event) :
  first_event (m st) = Some ev ->
  (forall a, extends (f a)) ->
  first_event ((m ≫= f) st) = Some ev.
Proof.
  intros Hm Hf. unfold mbind, M_bind.
  destruct (m st) as [[e|a] st']; [exact Hm|].
  apply extends_first; [apply Hf|exact Hm].
Qed.

Lemma first_info_bind {B} (msg : string) (k : unit -> M B) (st : store) :
  trace st = [] ->
  (forall a, extends (k a)) ->
  first_event ((info msg ≫= k) st) = Some (LogInfo msg).
Proof.
  intros Ht Hk. apply first_bind; [|exact Hk].
  unfold first_event, info, emit. simpl. rewrite Ht. reflexivity.
Qed.

Lemma first_warning_bind {B} (msg : string) (k : unit -> M B) (st : store) :
  trace st = [] ->
  (forall a, extends (k a)) ->
  first_event ((warning msg ≫= k) st) = Some (LogWarning msg).
Proof.
  intros Ht Hk. apply first_bind; [|exact Hk].
  unfold first_event, warning, emit. simpl. rewrite Ht. reflexivity.
Qed.

End FirstEvent.

Section FlagReadings.

Context (cmd : Env).

Lemma create_required_resource_first sub rg cn loc (s p : gmap string value) :
  first_event (__create_required_resource cmd TheSettings TheProtected sub rg
                 cn loc (initial s p))
  = Some (LogInfo "==== BEGIN LOG ANALYTICS WORKSPACE CREATION ====")
  <-> log_analytics_guard s p = true.
Proof.
  unfold __create_required_resource, log_analytics_guard, initial.
  unfold mbind at 1 2, M_bind at 1 2, read at 1 2.
  cbn beta iota zeta delta [settings protected copied trace].
  destruct (str_lower_is "true" _ && negb _ && negb _).
  - split; [reflexivity|intros _].
    apply first_bind; [|intros ?; extends_tac cmd].
    apply first_info_bind; [reflexivity|intros ?; extends_tac cmd].
  - split; [|discriminate]. intros H. exfalso. revert H.
    unfold mbind at 1, M_bind at 1, mret at 1, M_ret at 1.
    unfold mbind at 1 2, M_bind at 1 2, read at 1 2.
    cbn beta iota zeta delta [settings protected copied trace].
    destruct (negb _ && negb _).
    + rewrite first_bind with (ev := LogInfo "==== BEGIN RELAY CREATION ====");
        [discriminate| |intros ?; extends_tac cmd].
      apply first_info_bind; [reflexivity|intros ?; extends_tac cmd].
    + unfold mbind at 1, M_bind at 1, mret at 1, M_ret at 1.
      unfold mbind at 1 2, M_bind at 1 2, read at 1 2.
      cbn beta iota zeta delta [settings protected copied trace].
      destruct (negb _ && negb _).
      * rewrite first_info_bind; [discriminate|reflexivity|];
          intros ?; extends_tac cmd.
      * discriminate.
Qed.

Lemma validate_config_first rn (s p : gmap string value) :
  dom s ∩ dom p = ∅ ->
  first_event (__validate_config cmd TheSettings TheProtected rn (initial s p))
  = Some (LogWarning experimental_warning)
  <-> reads "true" ENABLE_INFERENCE s p = true.
Proof.
  intros Hdisj. rewrite validate_config_eq by exact Hdisj.
  cbn [initial settings protected].
  destruct (reads "true" ENABLE_INFERENCE s p).
  - split; [reflexivity|intros _].
    assert (Hext : extends
                     (__validate_scoring_fe_settings TheSettings TheProtected rn
                        ≫= fun _ => __set_up_inference_ssl cmd TheSettings
                                      TheProtected))
      by extends_tac cmd.
    pose proof (extends_first _
                  (logged (initial s p) [LogWarning experimental_warning])
                  (LogWarning experimental_warning) Hext eq_refl) as H.
    unfold mbind, M_bind in H.
    destruct (__validate_scoring_fe_settings _ _ _ _) as [[e|[]] st1];
      [exact H|].
    destruct (__set_up_inference_ssl _ _ _ _) as [[e|[]] st2]; exact H.
  - split; [|discriminate].
    destruct (reads "true" ENABLE_TRAINING s p); discriminate.
Qed.

End FlagReadings.

Section FlagReadingsTheorem.

Context (cmd : Env).

Lemma guard_needs_settings (s p : gmap string value) :
  LOG_ANALYTICS_WS_ENABLED ∉ dom s -> log_analytics_guard s p = false.
Proof.
  intros H. apply not_elem_of_dom in H. unfold log_analytics_guard, get_default.
  rewrite H. reflexivity.
Qed.

Lemma reads_absent word key (s p : gmap string value) :
  key ∉ dom s -> key ∉ dom p -> word <> "none" -> reads word key s p = false.
Proof.
  intros Hs Hp Hw. unfold reads. rewrite effective_absent by assumption.
  unfold str_lower_is. apply String.eqb_neq.
  intros E. apply Hw. rewrite <- E. reflexivity.
Qed.

(** C10 (amended).  enableTraining, enableInference, allowInsecureConnections,
    privateEndpointNodeport, privateEndpointILB and isAKSMigration are taken
    as true exactly when the string form of the effective value (the settings
    first, then the protected settings), lowercased, is 'true': the
    validation depends on them through these readings only, each made on the
    dictionaries as the caller gave them; an absent key and any other value
    ('1', 'yes') read false.  inferenceLoadBalancerHA is read the other way
    round: the cluster purpose is DevTest exactly when the lowercased string
    form is 'false', so an absent key and any other value count as high
    availability (FastProd).  The test that guards the creation of the Log
    Analytics workspace reads the settings alone: a key in the protected
    settings does not pass it. *)
Theorem flag_readings (rn sub rg cn loc : string) (s p : gmap string value) :
  (dom s ∩ dom p = ∅ ->
   (fst (__validate_config cmd TheSettings TheProtected rn (initial s p))
    = inl (InvalidArgumentValueError enable_flags_msg)
    <-> reads "true" ENABLE_TRAINING s p = false
        /\ reads "true" ENABLE_INFERENCE s p = false)
   /\ (first_event (__validate_config cmd TheSettings TheProtected rn
                      (initial s p))
       = Some (LogWarning experimental_warning)
       <-> reads "true" ENABLE_INFERENCE s p = true))
  /\ __validate_scoring_fe_settings TheSettings TheProtected rn (initial s p)
     = (let s2 :=
          let s1 :=
            <["clusterPurpose" :=
                VStr (if reads "false" inferenceLoadBalancerHA s p
                      then "DevTest" else "FastProd")]> s in
          if reads "true" IS_AKS_MIGRATION s p
          then <[IS_AKS_MIGRATION := VStr "true"]>
                 (<["scoringFe.namespace" := VStr "default"]> s1)
          else s1 in
        if negb (ssl_enabled s p)
           && negb (reads "true" allowInsecureConnections s p)
        then (inl (InvalidArgumentValueError (tls_msg rn)), Store s2 p ∅ [])
        else if reads "true" privateEndpointNodeport s p
                && reads "true" privateEndpointILB s p
        then (inl (MutuallyExclusiveArgumentError mutually_exclusive_msg),
              Store s2 p ∅ [])
        else if reads "true" privateEndpointNodeport s p
        then (inr tt,
              Store (<["scoringFe.serviceType.nodePort" := VBool true]> s2) p
                ∅ [])
        else if reads "true" privateEndpointILB s p
        then (inr tt,
              Store (<["scoringFe.serviceType.internalLoadBalancer" :=
                         VBool true]> s2)
                p ∅ [LogWarning ilb_warning])
        else (inr tt, Store s2 p ∅ []))
  /\ ((first_event (__create_required_resource cmd TheSettings TheProtected
                      sub rg cn loc (initial s p))
       = Some (LogInfo "==== BEGIN LOG ANALYTICS WORKSPACE CREATION ====")
       <-> log_analytics_guard s p = true)
      /\ (LOG_ANALYTICS_WS_ENABLED ∉ dom s -> log_analytics_guard s p = false))
  /\ (forall key word,
        key ∉ dom s -> key ∉ dom p -> word <> "none" ->
        reads word key s p = false)
  /\ (str_lower_is "true" (VStr "1") = false
      /\ str_lower_is "true" (VStr "yes") = false
      /\ str_lower_is "true" (VStr "TRUE") = true
      /\ str_lower_is "true" (VBool true) = true).
Proof.
  split; [|split; [|split; [|split]]].
  - intros Hdisj. split; [|apply validate_config_first; exact Hdisj].
    split.
    + intros H.
      destruct (reads "true" ENABLE_TRAINING s p) eqn:Ht;
        destruct (reads "true" ENABLE_INFERENCE s p) eqn:Hi;
        try (split; reflexivity); exfalso;
        (assert (Ha : avoids_at
                        (fun e => e = InvalidArgumentValueError enable_flags_msg)
                        (__validate_config cmd TheSettings TheProtected rn)
                        (initial s p));
         [apply avoids_at_validate_config; try (intros; discriminate);
          cbn [initial settings protected]; congruence
         |exact (Ha _ H eq_refl)]).
    + intros [Ht Hi]. rewrite validate_config_eq by exact Hdisj.
      cbn [initial settings protected]. rewrite Ht, Hi. reflexivity.
  - rewrite validate_scoring_fe_eq. reflexivity.
  - split; [apply create_required_resource_first|apply guard_needs_settings].
  - intros key word. apply reads_absent.
  - repeat split.
Qed.

End FlagReadingsTheorem.

Lemma flag_readings_witness :
  let s : gmap string value :=
    {["enableInference" := VStr "True";
      "allowInsecureConnections" := VStr "true"]} in
  (fst (__validate_config sample_env TheSettings TheProtected "azureml"
          (initial s ∅))
   = inl (InvalidArgumentValueError enable_flags_msg)
   <-> reads "true" ENABLE_TRAINING s ∅ = false
       /\ reads "true" ENABLE_INFERENCE s ∅ = false)
  /\ (first_event (__validate_config sample_env TheSettings TheProtected
                     "azureml" (initial s ∅))
      = Some (LogWarning experimental_warning)
      <-> reads "true" ENABLE_INFERENCE s ∅ = true)
  /\ log_analytics_guard s ∅ = false
  /\ reads "false" inferenceLoadBalancerHA s ∅ = false.
Proof.
  intros s.
  destruct (flag_readings sample_env "azureml" "sub" "rg" "mycluster" "eastus"
              s ∅) as (H1 & _ & [_ H3] & H4 & _).
  split; [|split; [|split]].
  - apply H1. apply (bool_decide_unpack _). vm_compute. exact I.
  - apply H1. apply (bool_decide_unpack _). vm_compute. exact I.
  - apply H3. apply (bool_decide_unpack _). vm_compute. exact I.
  - apply H4.
    + apply (bool_decide_unpack _). vm_compute. exact I.
    + apply (bool_decide_unpack _). vm_compute. exact I.
    + discriminate.
Defined.

(** C10 as stated fails for two of the flags it lists.  An absent
    inferenceLoadBalancerHA, or one that is 'yes', gives the cluster purpose
    FastProd, as 'true' does; only 'false' gives DevTest.  And logAnalyticsWS
    set to 'true' in the protected settings, its effective value then being
    'true', creates no workspace, while the same in the settings does. *)
Lemma flag_readings_counterexample :
  let purpose (s : gmap string value) :=
    settings (snd (__validate_config sample_env TheSettings TheProtected
                     "azureml" (initial s ∅))) !! "clusterPurpose" in
  let base : gmap string value :=
    {["enableInference" := VStr "true";
      "allowInsecureConnections" := VStr "true"]} in
  (purpose base = Some (VStr "FastProd")
   /\ purpose (<["inferenceLoadBalancerHA" := VStr "yes"]> base)
      = Some (VStr "FastProd")
   /\ purpose (<["inferenceLoadBalancerHA" := VStr "true"]> base)
      = Some (VStr "FastProd")
   /\ purpose (<["inferenceLoadBalancerHA" := VStr "false"]> base)
      = Some (VStr "DevTest"))
  /\ (reads "true" LOG_ANALYTICS_WS_ENABLED
        {["enableTraining" := VStr "true"]} {["logAnalyticsWS" := VStr "true"]}
      = true
      /\ existsb creates_workspace
           (trace (snd (sample_Create sample_env (Some "cluster")
                          {["enableTraining" := VStr "true"]}
                          {["logAnalyticsWS" := VStr "true"]}))) = false
      /\ existsb creates_workspace
           (trace (snd (sample_Create sample_env (Some "cluster")
                          {["enableTraining" := VStr "true";
                            "logAnalyticsWS" := VStr "true"]} ∅))) = true).
Proof. repeat split; vm_compute; reflexivity. Qed.

(** * Further properties *)

(** ** [_get_valid_name]: the shape of the name *)

Section ValidNameShape.

Lemma all_chars_filter (p : ascii -> bool) (s : string) :
  all_chars p (PyStr.filter p s) = true.
Proof.
  induction s as [|c s IH]; simpl; [reflexivity|].
  destruct (p c) eqn:E; simpl; [rewrite E|]; exact IH.
Qed.

Lemma all_chars_take (p : ascii -> bool) (n : nat) (s : string) :
  all_chars p s = true -> all_chars p (PyStr.take n s) = true.
Proof.
  revert s. induction n as [|n IH]; intros [|c s]; simpl; auto.
  intros H. apply andb_true_iff in H as [Hc Hs].
  rewrite Hc. apply IH. exact Hs.
Qed.

Lemma all_chars_slice_to (p : ascii -> bool) (s : string) (n : Z) :
  all_chars p s = true -> all_chars p (PyStr.slice_to s n) = true.
Proof.
  intros H. unfold PyStr.slice_to.
  destruct (0 <=? n); apply all_chars_take; exact H.
Qed.

Lemma all_chars_append (p : ascii -> bool) (a b : string) :
  all_chars p a = true -> all_chars p b = true ->
  all_chars p (a +:+ b) = true.
Proof.
  intros Ha Hb. induction a as [|c a IH]; simpl in *; [exact Hb|].
  apply andb_true_iff in Ha as [Hc Ha]. rewrite Hc. apply IH. exact Ha.
Qed.

Lemma hex_digit_alnum (z : Z) :
  0 <= z < 16 -> PyStr.isalnum_char (MD5.hex_digit z) = true.
Proof.
  intros Hz.
  assert (H : z = 0 \/ z = 1 \/ z = 2 \/ z = 3 \/ z = 4 \/ z = 5 \/ z = 6
              \/ z = 7 \/ z = 8 \/ z = 9 \/ z = 10 \/ z = 11 \/ z = 12
              \/ z = 13 \/ z = 14 \/ z = 15) by lia.
  repeat (destruct H as [->|H]; [reflexivity|]). subst z. reflexivity.
Qed.

Lemma le_bytes_range (n : nat) (x : Z) :
  Forall (fun b => 0 <= b < 256) (MD5.le_bytes n x).
Proof.
  unfold MD5.le_bytes. apply Forall_fmap, Forall_forall. intros i _.
  simpl. apply Z.mod_pos_bound. lia.
Qed.

Lemma hex_bytes_alnum (bs : list Z) :
  Forall (fun b => 0 <= b < 256) bs ->
  all_chars PyStr.isalnum_char (fold_right MD5.hex_byte EmptyString bs) = true.
Proof.
  induction 1 as [|b bs Hb _ IH]; [reflexivity|].
  cbn [fold_right MD5.hex_byte all_chars].
  rewrite !hex_digit_alnum, IH; [reflexivity| |].
  - apply Z.mod_pos_bound. lia.
  - split; [apply Z.div_pos; lia|apply Z.div_lt_upper_bound; lia].
Qed.

Lemma hexdigest_alnum (msg : list Z) :
  all_chars PyStr.isalnum_char (MD5.hexdigest msg) = true.
Proof.
  unfold MD5.hexdigest, MD5.digest. apply hex_bytes_alnum.
  repeat (apply Forall_app; split); apply le_bytes_range.
Qed.

Lemma len_slice_to_min (s : string) (n : Z) :
  0 <= n -> PyStr.len (PyStr.slice_to s n) = Z.min n (PyStr.len s).
Proof.
  intros Hn. unfold PyStr.slice_to, PyStr.len.
  destruct (Z.leb_spec 0 n); [|lia]. rewrite length_take. lia.
Qed.

Lemma len_append (a b : string) :
  PyStr.len (a +:+ b) = PyStr.len a + PyStr.len b.
Proof. unfold PyStr.len. rewrite length_append. lia. Qed.

(** The cases of [_get_valid_name] that return. *)
Lemma valid_name_returns (input_name : string) (suffix_len max_len : Z)
    (st st' : store) (out : string) :
  _get_valid_name input_name suffix_len max_len st = (inr out, st') ->
  normalized input_name <> ""
  /\ ((PyStr.len (normalized input_name) <= max_len
       /\ out = normalized input_name)
      \/ (max_len < PyStr.len (normalized input_name)
          /\ out = PyStr.slice_to (normalized input_name)
                     (max_len - Z.min suffix_len max_len)
                   +:+ PyStr.slice_to (md5_hex input_name)
                         (Z.min suffix_len max_len))).
Proof.
  unfold _get_valid_name. fold (normalized input_name).
  fold (md5_hex input_name).
  destruct (String.eqb_spec (normalized input_name) "") as [E|Hne];
    [discriminate|].
  intros H. split; [exact Hne|].
  destruct (Z.leb_spec (PyStr.len (normalized input_name)) max_len)
    as [Hfit|Hcut].
  - left. injection H as <- _. auto.
  - right. split; [assumption|]. revert H. unfold mbind, M_bind.
    destruct (Z.ltb_spec max_len suffix_len) as [Hbig|Hsmall]; cbn; intros H;
      injection H as <- _.
    + rewrite Z.min_r by lia. reflexivity.
    + rewrite Z.min_l by lia. reflexivity.
Qed.

(** X1.  Whenever [_get_valid_name] returns a name, every character of the
    name is alphanumeric, whatever the suffix length and the maximal
    length. *)
Theorem valid_name_alnum (input_name : string) (suffix_len max_len : Z)
    (st st' : store) (out : string) :
  _get_valid_name input_name suffix_len max_len st = (inr out, st') ->
  all_chars PyStr.isalnum_char out = true.
Proof.
  intros H. apply valid_name_returns in H as [_ [[_ ->]|[_ ->]]].
  - apply all_chars_filter.
  - apply all_chars_append; apply all_chars_slice_to.
    + apply all_chars_filter.
    + apply hexdigest_alnum.
Qed.

(** X2.  For a suffix length and a maximal length that are not negative,
    the name [_get_valid_name] returns has at most [max_len] characters; it
    is not empty when [max_len] is at least 1; and when the input had to be
    cut and the suffix length is at most 32 (the length of the digest), it
    has exactly [max_len] characters. *)
Theorem valid_name_length (input_name : string) (suffix_len max_len : Z)
    (st st' : store) (out : string) :
  0 <= suffix_len -> 0 <= max_len ->
  _get_valid_name input_name suffix_len max_len st = (inr out, st') ->
  PyStr.len out <= max_len
  /\ (1 <= max_len -> 1 <= PyStr.len out)
  /\ (max_len < PyStr.len (normalized input_name) -> suffix_len <= 32 ->
      PyStr.len out = max_len).
Proof.
  intros Hs Hm H. apply valid_name_returns in H as [Hne [[Hle ->]|[Hlt ->]]].
  - assert (1 <= PyStr.len (normalized input_name)).
    { unfold PyStr.len. destruct (normalized input_name); [congruence|].
      simpl. lia. }
    repeat split; lia.
  - rewrite len_append, !len_slice_to_min by lia.
    assert (PyStr.len (md5_hex input_name) = 32).
    { unfold PyStr.len, md5_hex. rewrite length_hexdigest. reflexivity. }
    repeat split; lia.
Qed.

End ValidNameShape.

Lemma valid_name_alnum_witness :
  all_chars PyStr.isalnum_char "ab6619c9" = true.
Proof.
  apply (valid_name_alnum "abc-defgh-ijk" 6 8 (initial ∅ ∅) (initial ∅ ∅)).
  vm_compute. reflexivity.
Defined.

Lemma valid_name_length_witness :
  PyStr.len "ab6619c9" <= 8
  /\ (1 <= 8 -> 1 <= PyStr.len "ab6619c9")
  /\ (8 < PyStr.len (normalized "abc-defgh-ijk") -> 6 <= 32 ->
      PyStr.len "ab6619c9" = 8).
Proof.
  apply (valid_name_length "abc-defgh-ijk" 6 8 (initial ∅ ∅) (initial ∅ ∅)).
  - lia.
  - lia.
  - vm_compute. reflexivity.
Defined.

(** ** The names of the resources *)

Section ResourceNames.

Context (cmd : Env).

Lemma normalized_append (a b : string) :
  normalized (a +:+ b) = normalized a +:+ normalized b.
Proof.
  unfold normalized. induction a as [|c a IH]; simpl; [reflexivity|].
  destruct (PyStr.isalnum_char c); simpl; rewrite IH; reflexivity.
Qed.

Lemma append_empty_r (a b : string) : a +:+ b = "" -> b = "".
Proof. destruct a; simpl; [auto|discriminate]. Qed.

Lemma avoids_valid_name_nonempty (bad : exn -> Prop) input_name suffix_len
    max_len :
  normalized input_name <> "" ->
  avoids bad (_get_valid_name input_name suffix_len max_len).
Proof.
  intros Hne. unfold _get_valid_name. fold (normalized input_name).
  destruct (String.eqb_spec (normalized input_name) ""); [contradiction|].
  avoids_tac fail.
Qed.

Lemma foreign_not_assertion (e : foreign_error) :
  ~ is_assertion_error (Foreign e).
Proof. intros [msg H]. discriminate H. Qed.

(** X3.  The Relay and the Service Bus helpers never fail with the
    assertion on the name, whatever the cluster name, the subscription and
    the resource group: the suffix they add is alphanumeric.  The Log
    Analytics helper adds none, and fails with the assertion, before any
    call, when none of the three has an alphanumeric character. *)
Theorem helper_names_defined sub rg cn loc rule mapping gko :
  avoids is_assertion_error
    (_get_relay_connection_str cmd sub rg cn loc rule gko)
  /\ avoids is_assertion_error
       (_get_service_bus_connection_string cmd sub rg cn loc mapping gko)
  /\ (normalized cn = "" -> normalized sub = "" -> normalized rg = "" ->
      forall st,
        _get_log_analytics_ws_connection_string cmd sub rg cn loc gko st
        = (inl (AssertionError "normalized name empty"), st)).
Proof.
  split; [|split].
  - unfold _get_relay_connection_str.
    apply avoids_bind.
    + apply avoids_valid_name_nonempty. rewrite !normalized_append.
      intros H. do 5 apply append_empty_r in H. discriminate H.
    + intros ?. avoids_tac ltac:(apply foreign_not_assertion).
  - unfold _get_service_bus_connection_string.
    apply avoids_bind.
    + apply avoids_valid_name_nonempty. rewrite !normalized_append.
      intros H. do 5 apply append_empty_r in H. discriminate H.
    + intros ?. avoids_tac ltac:(apply foreign_not_assertion).
  - intros Hcn Hsub Hrg st.
    unfold _get_log_analytics_ws_connection_string.
    unfold mbind at 1, M_bind at 1, _get_valid_name.
    fold (normalized (cn +:+ "-" +:+ sub +:+ "-" +:+ rg)).
    rewrite !normalized_append, Hcn, Hsub, Hrg. reflexivity.
Qed.

End ResourceNames.

Lemma helper_names_defined_witness :
  _get_log_analytics_ws_connection_string sample_env "--" "_" "-" "eastus"
    false (initial ∅ ∅)
  = (inl (AssertionError "normalized name empty"), initial ∅ ∅).
Proof.
  apply (proj2 (proj2 (helper_names_defined sample_env "--" "_" "-" "eastus"
                         "" [] false))); reflexivity.
Defined.

(** ** [_dereference]: what it leaves alone *)

Section DereferenceFrame.

Implicit Types (d : gmap string value) (l : list string).

Local Abbreviation fill ref_value l d :=
  (fold_left (fun o key => <[key := get_default o key ref_value]> o) l d).

Lemma fill_present ref_value l d k :
  k ∈ l -> is_Some (fill ref_value l d !! k).
Proof.
  intros Hin. destruct (d !! k) as [v|] eqn:E.
  - exists v. apply fill_preserves. exact E.
  - exists ref_value. apply fill_absent; assumption.
Qed.

Lemma fill_values ref_value l d k v :
  fill ref_value l d !! k = Some v -> d !! k = Some v \/ v = ref_value.
Proof.
  revert d. induction l as [|key l IH]; intros d H; simpl in H; [auto|].
  apply IH in H as [H|H]; [|auto].
  destruct (decide (key = k)) as [->|Hne].
  - rewrite lookup_insert_eq in H. injection H as <-.
    unfold get_default. destruct (d !! k); auto.
  - rewrite lookup_insert_ne in H by exact Hne. auto.
Qed.

Lemma fill_fixed ref_value l d :
  (forall x, x ∈ l -> is_Some (d !! x)) -> fill ref_value l d = d.
Proof.
  revert d. induction l as [|key l IH]; intros d H; simpl; [reflexivity|].
  destruct (H key) as [v Hv]; [left|].
  assert (E : <[key := get_default d key ref_value]> d = d).
  { apply insert_id. unfold get_default. rewrite Hv. reflexivity. }
  rewrite E. apply IH. intros x Hx. apply H. right. exact Hx.
Qed.

Lemma dereference_other (m : list (string * list string)) d k :
  (forall ref_key ref_list, (ref_key, ref_list) ∈ m -> k ∉ ref_list) ->
  _dereference m d !! k = d !! k.
Proof.
  revert d. induction m as [|[ref_key0 ref_list0] m IH]; intros d Hk;
    [reflexivity|].
  rewrite dereference_cons, IH.
  - destruct (d !! ref_key0); [|reflexivity].
    apply fill_other. apply (Hk ref_key0). left.
  - intros ref_key ref_list Hin. apply (Hk ref_key). right. exact Hin.
Qed.

Lemma not_listed (m : list (string * list string)) k :
  listed m k = false ->
  forall ref_key ref_list, (ref_key, ref_list) ∈ m -> k ∉ ref_list.
Proof.
  unfold listed. intros H ref_key ref_list Hin Hk.
  assert (E : existsb (fun e => existsb (String.eqb k) (snd e)) m = true);
    [|congruence].
  apply existsb_exists. exists (ref_key, ref_list).
  split; [apply list_elem_of_In; exact Hin|].
  apply existsb_exists. exists k.
  split; [apply list_elem_of_In; exact Hk|apply String.eqb_refl].
Qed.

(** X4.  [_dereference] touches nothing but the concrete keys of the
    mapping: a key that no reference list names is looked up in the result
    as in the given map, present or absent; and when none of the virtual
    keys is present, the result is the given map. *)
Theorem dereference_frame (m : list (string * list string)) d :
  (forall k, listed m k = false -> _dereference m d !! k = d !! k)
  /\ (virtual_present m d = false -> _dereference m d = d).
Proof.
  split.
  - intros k Hk. apply dereference_other. apply not_listed. exact Hk.
  - revert d. induction m as [|[ref_key0 ref_list0] m IH]; intros d Hnone;
      [reflexivity|].
    simpl in Hnone. apply orb_false_iff in Hnone as [H0 Hnone].
    unfold has_key in H0. apply bool_decide_eq_false in H0.
    apply not_elem_of_dom in H0.
    rewrite dereference_cons, H0. apply IH. exact Hnone.
Qed.

(** X5.  [_dereference] invents no value: every value of the result is a
    value of the given map. *)
Theorem dereference_values (m : list (string * list string)) d k v :
  _dereference m d !! k = Some v -> exists k', d !! k' = Some v.
Proof.
  revert d. induction m as [|[ref_key ref_list] m IH]; intros d H.
  - exists k. exact H.
  - rewrite dereference_cons in H. apply IH in H as [k' H].
    destruct (d !! ref_key) as [ref_value|] eqn:E; [|exists k'; exact H].
    apply fill_values in H as [H| ->]; [exists k'; exact H|].
    exists ref_key. exact E.
Qed.

Lemma dereference_present (m : list (string * list string)) d
    ref_key ref_list key :
  (ref_key, ref_list) ∈ m ->
  is_Some (d !! ref_key) ->
  key ∈ ref_list ->
  is_Some (_dereference m d !! key).
Proof.
  revert d. induction m as [|[ref_key0 ref_list0] m IH];
    intros d Hin [ref_value Hv] Hkey; [inversion Hin|].
  rewrite dereference_cons.
  apply elem_of_cons in Hin as [Heq|Hin].
  - injection Heq as <- <-. rewrite Hv.
    destruct (fill_present ref_value ref_list d key Hkey) as [v Hk].
    exists v. apply dereference_preserves. exact Hk.
  - apply IH; [exact Hin| |exact Hkey].
    exists ref_value.
    destruct (d !! ref_key0); [apply fill_preserves|]; exact Hv.
Qed.

(** X6.  After [_dereference], every concrete key listed under a virtual
    key that is present in the given map is present, for every reference
    mapping (its value is the virtual key's, or the one of whatever set the
    key before). *)
Theorem dereference_populates (m : list (string * list string)) d
    ref_key ref_list key :
  (ref_key, ref_list) ∈ m ->
  is_Some (d !! ref_key) ->
  key ∈ ref_list ->
  is_Some (_dereference m d !! key).
Proof. apply dereference_present. Qed.

Lemma dereference_fixed (m : list (string * list string)) d :
  (forall ref_key ref_list key,
     (ref_key, ref_list) ∈ m -> is_Some (d !! ref_key) -> key ∈ ref_list ->
     is_Some (d !! key)) ->
  _dereference m d = d.
Proof.
  revert d. induction m as [|[ref_key0 ref_list0] m IH]; intros d H;
    [reflexivity|].
  rewrite dereference_cons.
  assert (E : match d !! ref_key0 with
              | Some ref_value => fill ref_value ref_list0 d
              | None => d
              end = d).
  { destruct (d !! ref_key0) as [ref_value|] eqn:E; [|reflexivity].
    apply fill_fixed. intros x Hx.
    apply (H ref_key0 ref_list0 x); [left|rewrite E; eauto|exact Hx]. }
  rewrite E. apply IH. intros ref_key ref_list key Hin.
  apply (H ref_key ref_list key). right. exact Hin.
Qed.

Lemma concrete_not_virtual_spec (m : list (string * list string)) :
  concrete_not_virtual m = true ->
  forall ref_key ref_list ref_key' ref_list',
    (ref_key, ref_list) ∈ m -> (ref_key', ref_list') ∈ m ->
    ref_key ∉ ref_list'.
Proof.
  unfold concrete_not_virtual. intros H ref_key ref_list ref_key' ref_list'
    Hin Hin' Hx.
  rewrite forallb_forall in H.
  specialize (H _ (proj1 (list_elem_of_In _ _) Hin')). simpl in H.
  rewrite forallb_forall in H.
  specialize (H _ (proj1 (list_elem_of_In _ _) Hx)).
  apply negb_true_iff in H.
  assert (E : existsb (String.eqb ref_key) (map fst m) = true);
    [|congruence].
  apply existsb_exists. exists ref_key. split; [|apply String.eqb_refl].
  apply list_elem_of_In. apply list_elem_of_fmap.
  exists (ref_key, ref_list). auto.
Qed.

(** X7.  For a reference mapping in which no concrete key is itself a
    virtual key (as in the installer's table), [_dereference] is idempotent:
    a second pass changes nothing. *)
Theorem dereference_idempotent (m : list (string * list string)) d :
  concrete_not_virtual m = true ->
  _dereference m (_dereference m d) = _dereference m d.
Proof.
  intros Hm. apply dereference_fixed.
  intros ref_key ref_list key Hin Hsome Hkey.
  apply (dereference_present m d ref_key ref_list key Hin); [|exact Hkey].
  rewrite <- (dereference_other m d ref_key); [exact Hsome|].
  intros ref_key' ref_list' Hin'.
  exact (concrete_not_virtual_spec m Hm ref_key ref_list ref_key' ref_list'
           Hin Hin').
Qed.

End DereferenceFrame.

Lemma dereference_frame_witness :
  _dereference reference_mapping
    ({["cluster_name" := VStr "c"; "location" := VStr "eastus"]}
       : gmap string value) !! "location"
  = ({["cluster_name" := VStr "c"; "location" := VStr "eastus"]}
       : gmap string value) !! "location"
  /\ _dereference reference_mapping {["location" := VStr "eastus"]}
     = {["location" := VStr "eastus"]}.
Proof.
  split.
  - apply (proj1 (dereference_frame reference_mapping
                    {["cluster_name" := VStr "c"; "location" := VStr "eastus"]})).
    vm_compute. reflexivity.
  - apply (proj2 (dereference_frame reference_mapping
                    {["location" := VStr "eastus"]})).
    vm_compute. reflexivity.
Defined.

Lemma dereference_populates_witness :
  is_Some (_dereference [("a", ["x"]); ("b", ["x"; "y"])]
             ({["b" := VStr "2"]} : gmap string value) !! "y").
Proof.
  apply (dereference_populates [("a", ["x"]); ("b", ["x"; "y"])]
           {["b" := VStr "2"]} "b" ["x"; "y"] "y").
  - right. left.
  - vm_compute. eexists. reflexivity.
  - right. left.
Defined.

Lemma dereference_values_witness :
  exists k',
    ({["cluster_name" := VStr "c"]} : gmap string value) !! k'
    = Some (VStr "c").
Proof.
  apply (dereference_values reference_mapping {["cluster_name" := VStr "c"]}
           "clusterId" (VStr "c")).
  vm_compute. reflexivity.
Defined.

Lemma dereference_idempotent_witness :
  _dereference reference_mapping
    (_dereference reference_mapping {["cluster_name" := VStr "c"]})
  = _dereference reference_mapping {["cluster_name" := VStr "c"]}.
Proof.
  apply (dereference_idempotent reference_mapping
           {["cluster_name" := VStr "c"]}).
  vm_compute. reflexivity.
Defined.

(** ** The argument actions *)

Module ParserFacts.

Import AddConditions.

Lemma contains_eq_cons (c : ascii) (x : string) :
  PyStr.contains "=" (String c x)
  = (Ascii.eqb c "="%char || PyStr.contains "=" x).
Proof.
  rewrite ConditionsFacts.contains_cons. f_equal.
  change (String.prefix "=" (String c x))
    with (if ascii_dec "=" c then String.prefix "" x else false).
  destruct (ascii_dec "=" c) as [<-|Hne].
  - destruct x; reflexivity.
  - symmetry. apply Ascii.eqb_neq. congruence.
Qed.

Lemma split_eq_None (x : string) :
  split_eq x = None <-> PyStr.contains "=" x = false.
Proof.
  induction x as [|c x IH]; [split; reflexivity|].
  rewrite contains_eq_cons. simpl.
  destruct (Ascii.eqb c "="%char); simpl.
  - split; discriminate.
  - rewrite <- IH. destruct (split_eq x) as [[k v]|]; split; congruence.
Qed.

(** X8.  Splitting a token on its first '=': a key without '=' followed by
    '=' and any value (which may contain '=') splits into that key and that
    value; and whatever a token splits into gives the token back when joined
    with '=', the key having no '='. *)
Theorem split_eq_round_trip (k v x : string) :
  (PyStr.contains "=" k = false -> split_eq (k +:+ "=" +:+ v) = Some (k, v))
  /\ (split_eq x = Some (k, v) ->
      x = k +:+ "=" +:+ v /\ PyStr.contains "=" k = false).
Proof.
  split.
  - induction k as [|c k IH]; intros Hk; [reflexivity|].
    rewrite contains_eq_cons in Hk. apply orb_false_iff in Hk as [Hc Hk].
    simpl. rewrite Hc, (IH Hk). reflexivity.
  - revert k. induction x as [|c x IH]; intros k H; [discriminate|].
    simpl in H. destruct (Ascii.eqb_spec c "="%char) as [->|Hc].
    + injection H as <- <-. auto.
    + destruct (split_eq x) as [[k' v']|]; [|discriminate].
      injection H as <- <-. destruct (IH k' eq_refl) as [-> Hk].
      split; [reflexivity|]. rewrite contains_eq_cons, Hk.
      apply Ascii.eqb_neq in Hc. rewrite Hc. reflexivity.
Qed.

Lemma split_eq_round_trip_witness :
  split_eq "tag=a=b" = Some ("tag", "a=b")
  /\ "k=" = "k" +:+ "=" +:+ "" /\ PyStr.contains "=" "k" = false.
Proof.
  split.
  - apply (proj1 (split_eq_round_trip "tag" "a=b" "")). reflexivity.
  - apply (proj2 (split_eq_round_trip "k" "" "k=")). reflexivity.
Defined.


Lemma split_all_None (vals : list string) :
  split_all vals = None <-> forallb (PyStr.contains "=") vals = false.
Proof.
  induction vals as [|x vals IH]; [split; discriminate|].
  simpl. destruct (split_eq x) as [kv|] eqn:E.
  - assert (Hx : PyStr.contains "=" x = true).
    { destruct (PyStr.contains "=" x) eqn:C; [reflexivity|].
      apply split_eq_None in C. congruence. }
    rewrite Hx. simpl. rewrite <- IH.
    destruct (split_all vals); split; congruence.
  - apply split_eq_None in E. rewrite E. split; reflexivity.
Qed.

Lemma group_None (vals : list string) properties :
  split_all vals = None -> group vals properties = None.
Proof.
  revert properties. induction vals as [|x vals IH]; intros properties H;
    [discriminate|].
  simpl in *. destruct (split_eq x) as [[k v]|]; [|reflexivity].
  apply IH. destruct (split_all vals); [discriminate|reflexivity].
Qed.

(** X9.  A token without '=' anywhere in the list makes each of the three
    parsers fail with the usage error that names the option, whatever the
    other tokens are (an unsupported key among them included). *)
Theorem usage_error (vals : list string) (option_string : string) :
  forallb (PyStr.contains "=") vals = false ->
  AddConditions.get_action vals option_string
  = inl (CLIError (usage_msg option_string))
  /\ AddActions.get_action vals option_string
     = inl (CLIError (usage_msg option_string))
  /\ AddRecurrences.get_action vals option_string
     = inl (CLIError (usage_msg option_string)).
Proof.
  intros H. apply split_all_None in H.
  unfold AddConditions.get_action, AddActions.get_action,
    AddRecurrences.get_action.
  rewrite (group_None vals [] H). auto.
Qed.

Lemma usage_error_witness :
  AddConditions.get_action ["field=a"; "oops"; "colour=b"] "--condition"
  = inl (CLIError "usage error: --condition [KEY=VALUE ...]").
Proof.
  apply (usage_error ["field=a"; "oops"; "colour=b"] "--condition").
  reflexivity.
Defined.


Lemma keys_group_pairs pairs properties k :
  k ∈ map fst (group_pairs pairs properties)
  <-> k ∈ map fst properties \/ k ∈ map fst pairs.
Proof.
  split; [|apply ConditionsFacts.group_pairs_keys].
  revert properties. induction pairs as [|[k' v] pairs IH];
    intros properties H; simpl in *; [auto|].
  apply IH in H as [H|H].
  - apply ConditionsFacts.keys_append_value in H as [->|H]; [right; left|auto].
  - right. right. exact H.
Qed.

Section Loop.

Context {D : Type}.
Context (assign : D -> string * list string -> exn + D).
Context (project : list (string * list string) -> D -> exn + D).
Context (permitted : string -> bool).
Hypothesis project_nil : forall d, project [] d = inr d.
Hypothesis project_cons : forall kv rest d,
  project (kv :: rest) d
  = match assign d kv with
    | inr d' => project rest d'
    | inl e => inl e
    end.
Hypothesis assign_permitted : forall d k v vs,
  permitted (PyStr.lower k) = true -> exists d', assign d (k, v :: vs) = inr d'.
Hypothesis assign_unsupported : forall d k vs,
  permitted (PyStr.lower k) = false -> exists e, assign d (k, vs) = inl e.

Lemma project_returns properties d :
  nonempty_groups properties ->
  (exists d', project properties d = inr d')
  <-> forallb (fun kv => permitted (PyStr.lower (fst kv))) properties = true.
Proof.
  revert d. induction properties as [|[k vs] rest IH]; intros d Hne.
  - rewrite project_nil. split; [reflexivity|eauto].
  - apply Forall_cons in Hne as [Hvs Hne]. simpl in Hvs.
    destruct vs as [|v vs]; [congruence|].
    rewrite project_cons. cbn [forallb fst].
    destruct (permitted (PyStr.lower k)) eqn:Hp.
    + destruct (assign_permitted d k v vs Hp) as [d' ->].
      rewrite (IH d' Hne). reflexivity.
    + destruct (assign_unsupported d k (v :: vs) Hp) as [e ->].
      split; [intros [d' H]; discriminate H|discriminate].
Qed.

End Loop.

Lemma assign_conditions_permitted d k v vs :
  AddConditions.permitted (PyStr.lower k) = true ->
  exists d', AddConditions.assign d (k, v :: vs) = inr d'.
Proof.
  unfold AddConditions.permitted, AddConditions.assign. intros H.
  destruct (String.eqb (PyStr.lower k) "field"); [simpl; eauto|].
  destruct (String.eqb (PyStr.lower k) "operator"); [simpl; eauto|].
  destruct (String.eqb (PyStr.lower k) "values"); [eauto|discriminate].
Qed.

Lemma assign_conditions_unsupported d k vs :
  AddConditions.permitted (PyStr.lower k) = false ->
  exists e, AddConditions.assign d (k, vs) = inl e.
Proof.
  unfold AddConditions.permitted, AddConditions.assign. intros H.
  apply orb_false_iff in H as [H ->]. apply orb_false_iff in H as [-> ->].
  eauto.
Qed.

Lemma assign_actions_permitted d k v vs :
  AddActions.permitted (PyStr.lower k) = true ->
  exists d', AddActions.assign d (k, v :: vs) = inr d'.
Proof.
  unfold AddActions.permitted, AddActions.assign. intros ->. simpl. eauto.
Qed.

Lemma assign_actions_unsupported d k vs :
  AddActions.permitted (PyStr.lower k) = false ->
  exists e, AddActions.assign d (k, vs) = inl e.
Proof.
  unfold AddActions.permitted, AddActions.assign. intros ->. eauto.
Qed.

Lemma assign_recurrences_permitted d k v vs :
  AddRecurrences.permitted (PyStr.lower k) = true ->
  exists d', AddRecurrences.assign d (k, v :: vs) = inr d'.
Proof.
  unfold AddRecurrences.permitted, AddRecurrences.assign. intros H.
  destruct (String.eqb (PyStr.lower k) "recurrence-type"); [simpl; eauto|].
  destruct (String.eqb (PyStr.lower k) "start-time"); [simpl; eauto|].
  destruct (String.eqb (PyStr.lower k) "end-time"); [simpl; eauto|discriminate].
Qed.

Lemma assign_recurrences_unsupported d k vs :
  AddRecurrences.permitted (PyStr.lower k) = false ->
  exists e, AddRecurrences.assign d (k, vs) = inl e.
Proof.
  unfold AddRecurrences.permitted, AddRecurrences.assign. intros H.
  apply orb_false_iff in H as [H ->]. apply orb_false_iff in H as [-> ->].
  eauto.
Qed.

Lemma forallb_group_pairs (p : string -> bool) pairs properties :
  forallb (fun kv => p (PyStr.lower (fst kv))) (group_pairs pairs properties)
  = forallb (fun kv => p (PyStr.lower (fst kv))) properties
    && forallb (fun kv => p (PyStr.lower (fst kv))) pairs.
Proof.
  apply eq_true_iff_eq. rewrite andb_true_iff, !forallb_forall.
  split.
  - intros H. split; intros [k v] Hin; apply list_elem_of_In in Hin.
    + assert (Hk : k ∈ map fst (group_pairs pairs properties)).
      { apply keys_group_pairs. left. apply list_elem_of_fmap.
        exists (k, v). auto. }
      apply list_elem_of_fmap in Hk as ([k' v'] & -> & Hk).
      apply (H (k', v')). apply list_elem_of_In. exact Hk.
    + assert (Hk : k ∈ map fst (group_pairs pairs properties)).
      { apply keys_group_pairs. right. apply list_elem_of_fmap.
        exists (k, v). auto. }
      apply list_elem_of_fmap in Hk as ([k' v'] & -> & Hk).
      apply (H (k', v')). apply list_elem_of_In. exact Hk.
  - intros [H1 H2] [k v] Hin. apply list_elem_of_In in Hin.
    assert (Hk : k ∈ map fst (group_pairs pairs properties)).
    { apply list_elem_of_fmap. exists (k, v). auto. }
    apply keys_group_pairs in Hk as [Hk|Hk];
      apply list_elem_of_fmap in Hk as ([k' v'] & -> & Hk);
      apply list_elem_of_In in Hk.
    + exact (H1 _ Hk).
    + exact (H2 _ Hk).
Qed.

Lemma nonempty_groups_nil : nonempty_groups [].
Proof. apply Forall_nil. exact I. Qed.

Lemma accepts_project {D : Type}
    (assign : D -> string * list string -> exn + D)
    (project : list (string * list string) -> D -> exn + D)
    (permitted : string -> bool) (d0 : D) :
  (forall d, project [] d = inr d) ->
  (forall kv rest d,
     project (kv :: rest) d
     = match assign d kv with
       | inr d' => project rest d'
       | inl e => inl e
       end) ->
  (forall d k v vs,
     permitted (PyStr.lower k) = true ->
     exists d', assign d (k, v :: vs) = inr d') ->
  (forall d k vs,
     permitted (PyStr.lower k) = false -> exists e, assign d (k, vs) = inl e) ->
  forall vals (usage : exn),
    (exists d,
       match group vals [] with
       | None => inl usage
       | Some properties => project properties d0
       end = inr d)
    <-> accepts permitted vals = true.
Proof.
  intros Hnil Hcons Hok Herr vals usage. unfold accepts.
  destruct (split_all vals) as [pairs|] eqn:Hs.
  - rewrite (ConditionsFacts.group_split_all _ _ [] Hs).
    pose proof (ConditionsFacts.group_pairs_nonempty pairs []
                  nonempty_groups_nil) as Hne.
    rewrite (project_returns assign project permitted Hnil Hcons Hok Herr
               _ d0 Hne).
    rewrite forallb_group_pairs. reflexivity.
  - rewrite (group_None vals [] Hs).
    split; [intros [d H]; discriminate H|discriminate].
Qed.

Lemma actions_accepts (vals : list string) (option_string : string) :
  (exists d, AddActions.get_action vals option_string = inr d)
  <-> accepts AddActions.permitted vals = true.
Proof.
  apply (accepts_project AddActions.assign AddActions.project
           AddActions.permitted AddActions.empty);
    [reflexivity|reflexivity|apply assign_actions_permitted
    |apply assign_actions_unsupported].
Qed.

(** X10.  Each of the three parsers returns a record exactly when every
    token has an '=' and every key, lowercased, is one of the permitted keys
    of that parser; keys may be repeated and may differ in letter case. *)
Theorem get_action_accepts (vals : list string) (option_string : string) :
  ((exists d, AddConditions.get_action vals option_string = inr d)
   <-> accepts AddConditions.permitted vals = true)
  /\ ((exists d, AddActions.get_action vals option_string = inr d)
      <-> accepts AddActions.permitted vals = true)
  /\ ((exists d, AddRecurrences.get_action vals option_string = inr d)
      <-> accepts AddRecurrences.permitted vals = true).
Proof.
  split; [|split].
  - apply (accepts_project AddConditions.assign AddConditions.project
             AddConditions.permitted AddConditions.empty);
      [reflexivity|reflexivity|apply assign_conditions_permitted
      |apply assign_conditions_unsupported].
  - apply actions_accepts.
  - apply (accepts_project AddRecurrences.assign AddRecurrences.project
             AddRecurrences.permitted AddRecurrences.empty);
      [reflexivity|reflexivity|apply assign_recurrences_permitted
      |apply assign_recurrences_unsupported].
Qed.


Lemma append_value_values k v properties k' vs x :
  (k', vs) ∈ append_value k v properties -> x ∈ vs ->
  (k' = k /\ x = v) \/ exists vs0, (k', vs0) ∈ properties /\ x ∈ vs0.
Proof.
  induction properties as [|[k0 vs0] rest IH]; simpl; intros Hin Hx.
  - apply elem_of_cons in Hin as [Hin|Hin]; [|inversion Hin].
    injection Hin as -> ->.
    apply elem_of_cons in Hx as [->|Hx]; [auto|inversion Hx].
  - destruct (String.eqb_spec k0 k) as [->|Hne].
    + apply elem_of_cons in Hin as [Hin|Hin].
      * injection Hin as -> ->. apply elem_of_app in Hx as [Hx|Hx].
        -- right. exists vs0. split; [left|exact Hx].
        -- apply elem_of_cons in Hx as [->|Hx]; [auto|inversion Hx].
      * right. exists vs. split; [right; exact Hin|exact Hx].
    + apply elem_of_cons in Hin as [Hin|Hin].
      * injection Hin as -> ->. right. exists vs0. split; [left|exact Hx].
      * destruct (IH Hin Hx) as [H|(vs1 & H1 & H2)]; [auto|].
        right. exists vs1. split; [right; exact H1|exact H2].
Qed.

Lemma group_pairs_values pairs properties k vs x :
  (k, vs) ∈ group_pairs pairs properties -> x ∈ vs ->
  (k, x) ∈ pairs \/ exists vs0, (k, vs0) ∈ properties /\ x ∈ vs0.
Proof.
  revert properties. induction pairs as [|[k0 v0] pairs IH];
    intros properties Hin Hx; simpl in Hin.
  - right. eauto.
  - destruct (IH _ Hin Hx) as [H|(vs0 & H1 & H2)].
    + left. right. exact H.
    + destruct (append_value_values _ _ _ _ _ _ H1 H2) as [[-> ->]|H].
      * left. left.
      * right. exact H.
Qed.

Lemma grouped_values pairs k vs x :
  (k, vs) ∈ group_pairs pairs [] -> x ∈ vs -> (k, x) ∈ pairs.
Proof.
  intros Hin Hx.
  destruct (group_pairs_values _ _ _ _ _ Hin Hx) as [H|(vs0 & H & _)];
    [exact H|inversion H].
Qed.

Lemma grouped_names pairs key :
  names pairs key ->
  exists k vs, (k, vs) ∈ group_pairs pairs [] /\ PyStr.lower k = key.
Proof.
  intros (k & v & Hin & Hk).
  assert (H : k ∈ map fst (group_pairs pairs [])).
  { apply keys_group_pairs. right. apply list_elem_of_fmap.
    exists (k, v). auto. }
  apply list_elem_of_fmap in H as ([k' vs] & -> & H). eauto.
Qed.

(** One entry of the dictionary [d], written under [key] from what [extract]
    takes of the values of a group. *)
Section Entry.

Context {D V : Type}.
Context (assign : D -> string * list string -> exn + D).
Context (project : list (string * list string) -> D -> exn + D).
Context (f : D -> option V) (key : string).
Context (extract : list string -> option V).
Hypothesis project_nil : forall d, project [] d = inr d.
Hypothesis project_cons : forall kv rest d,
  project (kv :: rest) d
  = match assign d kv with
    | inr d' => project rest d'
    | inl e => inl e
    end.
Hypothesis assign_sound : forall d k vs d1 v,
  assign d (k, vs) = inr d1 -> f d1 = Some v ->
  f d = Some v \/ (PyStr.lower k = key /\ extract vs = Some v).
Hypothesis assign_complete : forall d k vs d1,
  assign d (k, vs) = inr d1 -> is_Some (f d) \/ PyStr.lower k = key ->
  is_Some (f d1).

Lemma project_sound properties d d' v :
  project properties d = inr d' -> f d' = Some v ->
  f d = Some v
  \/ exists k vs, (k, vs) ∈ properties /\ PyStr.lower k = key
                  /\ extract vs = Some v.
Proof.
  revert d. induction properties as [|[k vs] rest IH]; intros d H Hv.
  - rewrite project_nil in H. injection H as ->. auto.
  - rewrite project_cons in H.
    destruct (assign d (k, vs)) as [e|d1] eqn:Ha; [discriminate|].
    destruct (IH d1 H Hv) as [H1|(k' & vs' & Hin & Hk & He)].
    + destruct (assign_sound _ _ _ _ _ Ha H1) as [H2|[Hk He]]; [auto|].
      right. exists k, vs. split; [left|auto].
    + right. exists k', vs'. split; [right; exact Hin|auto].
Qed.

Lemma project_complete properties d d' :
  project properties d = inr d' ->
  is_Some (f d)
  \/ (exists k vs, (k, vs) ∈ properties /\ PyStr.lower k = key) ->
  is_Some (f d').
Proof.
  revert d. induction properties as [|[k vs] rest IH]; intros d H Hs.
  - rewrite project_nil in H. injection H as ->.
    destruct Hs as [Hs|(k & vs & Hin & _)]; [exact Hs|inversion Hin].
  - rewrite project_cons in H.
    destruct (assign d (k, vs)) as [e|d1] eqn:Ha; [discriminate|].
    apply (IH d1 H).
    destruct Hs as [Hs|(k' & vs' & Hin & Hk)].
    + left. apply (assign_complete _ _ _ _ Ha). auto.
    + apply elem_of_cons in Hin as [Hin|Hin].
      * injection Hin as -> ->. left. apply (assign_complete _ _ _ _ Ha). auto.
      * right. eauto.
Qed.

Lemma grouped_sound pairs d d' v :
  f d = None ->
  project (group_pairs pairs []) d = inr d' -> f d' = Some v ->
  exists k vs, (k, vs) ∈ group_pairs pairs [] /\ PyStr.lower k = key
               /\ extract vs = Some v.
Proof.
  intros Hd H Hv. destruct (project_sound _ _ _ _ H Hv) as [H1|H1];
    [congruence|exact H1].
Qed.

Lemma grouped_complete pairs d d' :
  project (group_pairs pairs []) d = inr d' -> names pairs key ->
  is_Some (f d').
Proof.
  intros H Hn. apply (project_complete _ _ _ H). right.
  apply grouped_names. exact Hn.
Qed.

End Entry.

Lemma given_head pairs key k vs v :
  (k, vs) ∈ group_pairs pairs [] -> PyStr.lower k = key -> head vs = Some v ->
  given pairs key v.
Proof.
  intros Hin Hk Hv. exists k. split; [|exact Hk].
  apply (grouped_values _ _ vs); [exact Hin|].
  destruct vs as [|v0 vs]; [discriminate|]. injection Hv as ->. left.
Qed.

Ltac assign_cases k vs :=
  repeat match goal with
         | H : context [String.eqb (PyStr.lower k) ?s] |- _ =>
             destruct (String.eqb_spec (PyStr.lower k) s)
         end;
  try (destruct vs; simpl in *);
  try discriminate;
  repeat match goal with
         | H : inr _ = inr _ |- _ => injection H as <-
         end;
  simpl in *.

Lemma conditions_field_sound d k vs d1 v :
  AddConditions.assign d (k, vs) = inr d1 -> field d1 = Some v ->
  field d = Some v \/ (PyStr.lower k = "field" /\ head vs = Some v).
Proof.
  unfold AddConditions.assign. intros H Hv. assign_cases k vs; auto.
Qed.


Lemma conditions_field_complete d k vs d1 :
  AddConditions.assign d (k, vs) = inr d1 ->
  is_Some (field d) \/ PyStr.lower k = "field" -> is_Some (field d1).
Proof.
  unfold AddConditions.assign. intros H [Hs|Hk]; assign_cases k vs;
    eauto; congruence.
Qed.

Lemma conditions_operator_sound d k vs d1 v :
  AddConditions.assign d (k, vs) = inr d1 -> operator d1 = Some v ->
  operator d = Some v \/ (PyStr.lower k = "operator" /\ head vs = Some v).
Proof.
  unfold AddConditions.assign. intros H Hv. assign_cases k vs; auto.
Qed.

Lemma conditions_operator_complete d k vs d1 :
  AddConditions.assign d (k, vs) = inr d1 ->
  is_Some (operator d) \/ PyStr.lower k = "operator" -> is_Some (operator d1).
Proof.
  unfold AddConditions.assign. intros H [Hs|Hk]; assign_cases k vs;
    eauto; congruence.
Qed.

Lemma conditions_values_sound d k vs d1 v :
  AddConditions.assign d (k, vs) = inr d1 -> values d1 = Some v ->
  values d = Some v \/ (PyStr.lower k = "values" /\ Some vs = Some v).
Proof.
  unfold AddConditions.assign. intros H Hv. assign_cases k vs; auto.
Qed.

Lemma conditions_values_complete d k vs d1 :
  AddConditions.assign d (k, vs) = inr d1 ->
  is_Some (values d) \/ PyStr.lower k = "values" -> is_Some (values d1).
Proof.
  unfold AddConditions.assign. intros H [Hs|Hk]; assign_cases k vs;
    eauto; congruence.
Qed.

Lemma actions_type_sound d k vs d1 v :
  AddActions.assign d (k, vs) = inr d1 -> AddActions.action_type d1 = Some v ->
  AddActions.action_type d = Some v
  \/ (PyStr.lower k = "action-type" /\ head vs = Some v).
Proof.
  unfold AddActions.assign. intros H Hv. assign_cases k vs; auto.
Qed.

Lemma actions_type_complete d k vs d1 :
  AddActions.assign d (k, vs) = inr d1 ->
  is_Some (AddActions.action_type d) \/ PyStr.lower k = "action-type" ->
  is_Some (AddActions.action_type d1).
Proof.
  unfold AddActions.assign. intros H [Hs|Hk]; assign_cases k vs;
    eauto; congruence.
Qed.

Lemma recurrences_type_sound d k vs d1 v :
  AddRecurrences.assign d (k, vs) = inr d1 ->
  AddRecurrences.recurrence_type d1 = Some v ->
  AddRecurrences.recurrence_type d = Some v
  \/ (PyStr.lower k = "recurrence-type" /\ head vs = Some v).
Proof.
  unfold AddRecurrences.assign. intros H Hv. assign_cases k vs; auto.
Qed.

Lemma recurrences_type_complete d k vs d1 :
  AddRecurrences.assign d (k, vs) = inr d1 ->
  is_Some (AddRecurrences.recurrence_type d)
  \/ PyStr.lower k = "recurrence-type" ->
  is_Some (AddRecurrences.recurrence_type d1).
Proof.
  unfold AddRecurrences.assign. intros H [Hs|Hk]; assign_cases k vs;
    eauto; congruence.
Qed.

Lemma recurrences_start_sound d k vs d1 v :
  AddRecurrences.assign d (k, vs) = inr d1 ->
  AddRecurrences.start_time d1 = Some v ->
  AddRecurrences.start_time d = Some v
  \/ (PyStr.lower k = "start-time" /\ head vs = Some v).
Proof.
  unfold AddRecurrences.assign. intros H Hv. assign_cases k vs; auto.
Qed.

Lemma recurrences_start_complete d k vs d1 :
  AddRecurrences.assign d (k, vs) = inr d1 ->
  is_Some (AddRecurrences.start_time d) \/ PyStr.lower k = "start-time" ->
  is_Some (AddRecurrences.start_time d1).
Proof.
  unfold AddRecurrences.assign. intros H [Hs|Hk]; assign_cases k vs;
    eauto; congruence.
Qed.

Lemma recurrences_end_sound d k vs d1 v :
  AddRecurrences.assign d (k, vs) = inr d1 ->
  AddRecurrences.end_time d1 = Some v ->
  AddRecurrences.end_time d = Some v
  \/ (PyStr.lower k = "end-time" /\ head vs = Some v).
Proof.
  unfold AddRecurrences.assign. intros H Hv. assign_cases k vs; auto.
Qed.

Lemma recurrences_end_complete d k vs d1 :
  AddRecurrences.assign d (k, vs) = inr d1 ->
  is_Some (AddRecurrences.end_time d) \/ PyStr.lower k = "end-time" ->
  is_Some (AddRecurrences.end_time d1).
Proof.
  unfold AddRecurrences.assign. intros H [Hs|Hk]; assign_cases k vs;
    eauto; congruence.
Qed.

Lemma get_action_project vals pairs :
  split_all vals = Some pairs ->
  forall option_string,
    AddConditions.get_action vals option_string
    = AddConditions.project (group_pairs pairs []) AddConditions.empty
    /\ AddActions.get_action vals option_string
       = AddActions.project (group_pairs pairs []) AddActions.empty
    /\ AddRecurrences.get_action vals option_string
       = AddRecurrences.project (group_pairs pairs []) AddRecurrences.empty.
Proof.
  intros Hs os.
  unfold AddConditions.get_action, AddActions.get_action,
    AddRecurrences.get_action.
  rewrite (ConditionsFacts.group_split_all _ _ [] Hs). auto.
Qed.

(** X11.  What a returned condition holds comes from the tokens: its field
    and its operator are values that were given under a key that lowercases
    to 'field', 'operator'; its values are a non-empty list of values that
    were each given under a key that lowercases to 'values'.  And an entry is
    set whenever some token names its key, in any letter case. *)
Theorem conditions_entries vals option_string pairs d :
  split_all vals = Some pairs ->
  AddConditions.get_action vals option_string = inr d ->
  (forall v, field d = Some v -> given pairs "field" v)
  /\ (forall v, operator d = Some v -> given pairs "operator" v)
  /\ (forall vs, values d = Some vs ->
                 vs <> [] /\ forall v, v ∈ vs -> given pairs "values" v)
  /\ (names pairs "field" -> is_Some (field d))
  /\ (names pairs "operator" -> is_Some (operator d))
  /\ (names pairs "values" -> is_Some (values d)).
Proof.
  intros Hs H.
  destruct (get_action_project _ _ Hs option_string) as (E & _ & _).
  rewrite E in H. clear E.
  repeat split.
  - intros v Hv.
    destruct (grouped_sound AddConditions.assign AddConditions.project
                field "field" head (fun _ => eq_refl) (fun _ _ _ => eq_refl)
                conditions_field_sound pairs AddConditions.empty d v eq_refl H Hv)
      as (k & vs & Hin & Hk & He).
    exact (given_head _ _ _ _ _ Hin Hk He).
  - intros v Hv.
    destruct (grouped_sound AddConditions.assign AddConditions.project
                operator "operator" head (fun _ => eq_refl)
                (fun _ _ _ => eq_refl)
                conditions_operator_sound pairs AddConditions.empty d v eq_refl H Hv)
      as (k & vs & Hin & Hk & He).
    exact (given_head _ _ _ _ _ Hin Hk He).
  - destruct (grouped_sound AddConditions.assign AddConditions.project
                values "values" Some (fun _ => eq_refl)
                (fun _ _ _ => eq_refl)
                conditions_values_sound pairs AddConditions.empty d vs eq_refl H H0)
      as (k & vs' & Hin & Hk & He).
    injection He as ->.
    pose proof (ConditionsFacts.group_pairs_nonempty pairs []
                  nonempty_groups_nil) as Hne.
    unfold nonempty_groups in Hne. rewrite Forall_forall in Hne.
    apply (Hne (k, vs)). exact Hin.
  - intros v Hv.
    destruct (grouped_sound AddConditions.assign AddConditions.project
                values "values" Some (fun _ => eq_refl)
                (fun _ _ _ => eq_refl)
                conditions_values_sound pairs AddConditions.empty d vs eq_refl H H0)
      as (k & vs' & Hin & Hk & He).
    injection He as ->. exists k. split; [|exact Hk].
    exact (grouped_values _ _ _ _ Hin Hv).
  - apply (grouped_complete AddConditions.assign AddConditions.project
             field "field" (fun _ => eq_refl) (fun _ _ _ => eq_refl)
             conditions_field_complete pairs _ _ H).
  - apply (grouped_complete AddConditions.assign AddConditions.project
             operator "operator" (fun _ => eq_refl) (fun _ _ _ => eq_refl)
             conditions_operator_complete pairs _ _ H).
  - apply (grouped_complete AddConditions.assign AddConditions.project
             values "values" (fun _ => eq_refl) (fun _ _ _ => eq_refl)
             conditions_values_complete pairs _ _ H).
Qed.

Lemma conditions_entries_witness :
  given [("Field", "a"); ("field", "b"); ("values", "x"); ("VALUES", "y");
         ("values", "z")] "field" "b".
Proof.
  apply (conditions_entries
           ["Field=a"; "field=b"; "values=x"; "VALUES=y"; "values=z"]
           "--condition"
           [("Field", "a"); ("field", "b"); ("values", "x"); ("VALUES", "y");
            ("values", "z")]
           {| field := Some "b"; operator := None; values := Some ["y"] |}).
  - reflexivity.
  - vm_compute. reflexivity.
  - reflexivity.
Defined.


(** X12.  A returned action always has its action type once a token is
    given, and it is a value that was given under a key that lowercases to
    'action-type'. *)
Theorem actions_entries vals option_string pairs d :
  split_all vals = Some pairs ->
  AddActions.get_action vals option_string = inr d ->
  (forall v, AddActions.action_type d = Some v -> given pairs "action-type" v)
  /\ (pairs <> [] -> is_Some (AddActions.action_type d)).
Proof.
  intros Hs H.
  assert (Hacc : accepts AddActions.permitted vals = true).
  { apply (actions_accepts vals option_string). eauto. }
  unfold accepts in Hacc. rewrite Hs in Hacc.
  destruct (get_action_project _ _ Hs option_string) as (_ & E & _).
  rewrite E in H. clear E.
  split.
  - intros v Hv.
    destruct (grouped_sound AddActions.assign AddActions.project
                AddActions.action_type "action-type" head
                (fun _ => eq_refl) (fun _ _ _ => eq_refl)
                actions_type_sound pairs AddActions.empty d v eq_refl H Hv)
      as (k & vs & Hin & Hk & He).
    exact (given_head _ _ _ _ _ Hin Hk He).
  - intros Hne.
    apply (grouped_complete AddActions.assign AddActions.project
             AddActions.action_type "action-type" (fun _ => eq_refl)
             (fun _ _ _ => eq_refl) actions_type_complete pairs _ _ H).
    destruct pairs as [|[k v] pairs]; [congruence|].
    exists k, v. split; [left|].
    simpl in Hacc. apply andb_true_iff in Hacc as [Hk _].
    apply String.eqb_eq. exact Hk.
Qed.

Lemma actions_entries_witness :
  given [("Action-Type", "RemoveAllActionGroups"); ("action-type", "x")]
    "action-type" "x".
Proof.
  apply (actions_entries
           ["Action-Type=RemoveAllActionGroups"; "action-type=x"]
           "--actions"
           [("Action-Type", "RemoveAllActionGroups"); ("action-type", "x")]
           {| AddActions.action_type := Some "x" |}).
  - reflexivity.
  - vm_compute. reflexivity.
  - reflexivity.
Defined.


(** X13.  What a returned recurrence holds comes from the tokens: its
    recurrence type, start time and end time are values that were given
    under a key that lowercases to 'recurrence-type', 'start-time',
    'end-time'; and an entry is set whenever some token names its key, in
    any letter case. *)
Theorem recurrences_entries vals option_string pairs d :
  split_all vals = Some pairs ->
  AddRecurrences.get_action vals option_string = inr d ->
  (forall v, AddRecurrences.recurrence_type d = Some v ->
             given pairs "recurrence-type" v)
  /\ (forall v, AddRecurrences.start_time d = Some v ->
                given pairs "start-time" v)
  /\ (forall v, AddRecurrences.end_time d = Some v ->
                given pairs "end-time" v)
  /\ (names pairs "recurrence-type" ->
      is_Some (AddRecurrences.recurrence_type d))
  /\ (names pairs "start-time" -> is_Some (AddRecurrences.start_time d))
  /\ (names pairs "end-time" -> is_Some (AddRecurrences.end_time d)).
Proof.
  intros Hs H.
  destruct (get_action_project _ _ Hs option_string) as (_ & _ & E).
  rewrite E in H. clear E.
  repeat split.
  - intros v Hv.
    destruct (grouped_sound AddRecurrences.assign AddRecurrences.project
                AddRecurrences.recurrence_type "recurrence-type" head
                (fun _ => eq_refl) (fun _ _ _ => eq_refl)
                recurrences_type_sound pairs AddRecurrences.empty d v eq_refl H Hv)
      as (k & vs & Hin & Hk & He).
    exact (given_head _ _ _ _ _ Hin Hk He).
  - intros v Hv.
    destruct (grouped_sound AddRecurrences.assign AddRecurrences.project
                AddRecurrences.start_time "start-time" head
                (fun _ => eq_refl) (fun _ _ _ => eq_refl)
                recurrences_start_sound pairs AddRecurrences.empty d v eq_refl H Hv)
      as (k & vs & Hin & Hk & He).
    exact (given_head _ _ _ _ _ Hin Hk He).
  - intros v Hv.
    destruct (grouped_sound AddRecurrences.assign AddRecurrences.project
                AddRecurrences.end_time "end-time" head
                (fun _ => eq_refl) (fun _ _ _ => eq_refl)
                recurrences_end_sound pairs AddRecurrences.empty d v eq_refl H Hv)
      as (k & vs & Hin & Hk & He).
    exact (given_head _ _ _ _ _ Hin Hk He).
  - apply (grouped_complete AddRecurrences.assign AddRecurrences.project
             AddRecurrences.recurrence_type "recurrence-type"
             (fun _ => eq_refl) (fun _ _ _ => eq_refl)
             recurrences_type_complete pairs _ _ H).
  - apply (grouped_complete AddRecurrences.assign AddRecurrences.project
             AddRecurrences.start_time "start-time"
             (fun _ => eq_refl) (fun _ _ _ => eq_refl)
             recurrences_start_complete pairs _ _ H).
  - apply (grouped_complete AddRecurrences.assign AddRecurrences.project
             AddRecurrences.end_time "end-time"
             (fun _ => eq_refl) (fun _ _ _ => eq_refl)
             recurrences_end_complete pairs _ _ H).
Qed.

Lemma recurrences_entries_witness :
  given [("recurrence-type", "Daily"); ("start-time", "09:00:00");
         ("End-Time", "17:00:00")] "end-time" "17:00:00".
Proof.
  apply (recurrences_entries
           ["recurrence-type=Daily"; "start-time=09:00:00";
            "End-Time=17:00:00"]
           "--recurrences"
           [("recurrence-type", "Daily"); ("start-time", "09:00:00");
            ("End-Time", "17:00:00")]
           {| AddRecurrences.recurrence_type := Some "Daily";
              AddRecurrences.start_time := Some "09:00:00";
              AddRecurrences.end_time := Some "17:00:00" |}).
  - reflexivity.
  - vm_compute. reflexivity.
  - reflexivity.
Defined.


End ParserFacts.

(** ** The events of a run *)

Section Emits.

Context (P : event -> bool).

Lemma emits_from_nil {A} (m : M A) (st : store) :
  trace (snd (m st)) = trace st -> emits_from P m st.
Proof. intros H. exists []. rewrite app_nil_r. auto. Qed.

Lemma emits_ret {A} (a : A) : emits P (mret a).
Proof. intros st. apply emits_from_nil. reflexivity. Qed.

Lemma emits_raise {A} (e : exn) : emits P (@raise A e).
Proof. intros st. apply emits_from_nil. reflexivity. Qed.

Lemma emits_emit (ev : event) : P ev = true -> emits P (emit ev).
Proof. intros H st. exists [ev]. simpl. rewrite H. auto. Qed.

Lemma emits_read (r : dict_ref) : emits P (read r).
Proof. intros st. apply emits_from_nil. reflexivity. Qed.

Lemma emits_modify (r : dict_ref) f : emits P (modify r f).
Proof. intros st. apply emits_from_nil. destruct r; reflexivity. Qed.

Lemma emits_from_bind {A B} (m : M A) (k : A -> M B) (st : store) :
  emits_from P m st ->
  (forall a st1, m st = (inr a, st1) -> emits_from P (k a) st1) ->
  emits_from P (m ≫= k) st.
Proof.
  intros (evs & Ht & Hp) Hk. unfold emits_from, mbind, M_bind.
  destruct (m st) as [[e|a] st1] eqn:E; simpl in Ht.
  - exists evs. simpl. auto.
  - destruct (Hk a st1 eq_refl) as (evs' & Ht' & Hp').
    exists (evs ++ evs'). rewrite Ht', Ht, app_assoc, forallb_app, Hp, Hp'.
    simpl. auto.
Qed.

Lemma emits_bind {A B} (m : M A) (k : A -> M B) :
  emits P m -> (forall a, emits P (k a)) -> emits P (m ≫= k).
Proof.
  intros Hm Hk st. apply emits_from_bind; [apply Hm|]. intros a st1 _.
  apply Hk.
Qed.

Lemma emits_outcome {A} (res : foreign_error + A) : emits P (outcome res).
Proof. destruct res; [apply emits_raise|apply emits_ret]. Qed.

Lemma emits_call {A} (c : remote_call) (res : foreign_error + A) :
  P (Remote c) = true -> emits P (call c res).
Proof.
  intros H. unfold call. apply emits_bind; [apply emits_emit; exact H|].
  intros _. apply emits_outcome.
Qed.

Lemma emits_try_except {A} (m : M A) (h : exn -> M A) :
  emits P m -> (forall e, emits P (h e)) -> emits P (try_except m h).
Proof.
  intros Hm Hh st. destruct (Hm st) as (evs & Ht & Hp).
  unfold emits_from, try_except.
  destruct (m st) as [[e|a] st1] eqn:E; simpl in Ht.
  - destruct (Hh e st1) as (evs' & Ht' & Hp').
    exists (evs ++ evs'). rewrite Ht', Ht, app_assoc, forallb_app, Hp, Hp'.
    simpl. auto.
  - exists evs. simpl. auto.
Qed.

Lemma emits_for_each {A} (l : list A) (body : A -> M unit) :
  (forall x, emits P (body x)) -> emits P (for_each l body).
Proof.
  intros H. induction l as [|x l IH]; simpl; [apply emits_ret|].
  apply emits_bind; [apply H|]. intros _. exact IH.
Qed.

Lemma emits_if {A} (b : bool) (m1 m2 : M A) :
  emits P m1 -> emits P m2 -> emits P (if b then m1 else m2).
Proof. destruct b; auto. Qed.

End Emits.

Ltac emits_step :=
  lazymatch goal with
  | |- emits _ (mret _) => apply emits_ret
  | |- emits _ (_ ≫= _) => apply emits_bind; [|intros ?]
  | |- emits _ (emit _) => apply emits_emit; reflexivity
  | |- emits _ (read _) => apply emits_read
  | |- emits _ (modify _ _) => apply emits_modify
  | |- emits _ (raise _) => apply emits_raise
  | |- emits _ (outcome _) => apply emits_outcome
  | |- emits _ (call _ _) => apply emits_call; reflexivity
  | |- emits _ (try_except _ _) => apply emits_try_except; [|intros ?]
  | |- emits _ (for_each _ _) => apply emits_for_each; intros ?
  | |- emits _ (write _ _ _) => unfold write
  | |- emits _ (pop _ _) => unfold pop
  | |- emits _ (warning _) => unfold warning
  | |- emits _ (info _) => unfold info
  | |- emits _ (effective _ _ _) => unfold effective
  | |- emits _ (if _ then _ else _) => apply emits_if
  | |- emits _ (match ?x with _ => _ end) => destruct x
  end.

Ltac head_of t :=
  lazymatch t with
  | ?f _ => head_of f
  | _ => t
  end.

(** Unfolds the function at the head of the computation, when it is one
    of the installer. *)
Ltac unfold_method :=
  lazymatch goal with
  | |- _ _ ?m =>
      let h := head_of m in
      lazymatch h with
      | _get_valid_name => unfold _get_valid_name
      | _get_relay_connection_str => unfold _get_relay_connection_str
      | _get_service_bus_connection_string =>
          unfold _get_service_bus_connection_string
      | _get_log_analytics_ws_connection_string =>
          unfold _get_log_analytics_ws_connection_string
      | __set_inference_ssl_from_secret =>
          unfold __set_inference_ssl_from_secret
      | read_b64 => unfold read_b64
      | __set_inference_ssl_from_file => unfold __set_inference_ssl_from_file
      | __set_up_inference_ssl => unfold __set_up_inference_ssl
      | __validate_scoring_fe_settings =>
          unfold __validate_scoring_fe_settings
      | __validate_config => unfold __validate_config
      | __create_required_resource => unfold __create_required_resource
      | __normalize_config => unfold __normalize_config
      | confirm => unfold confirm
      | Update_prompt => unfold Update_prompt
      | Update_log_analytics => unfold Update_log_analytics
      | Update_relay => unfold Update_relay
      | Update_service_bus => unfold Update_service_bus
      | Create => unfold Create
      | Update => unfold Update
      | Delete => unfold Delete
      end;
      cbv beta zeta; cbn [negb]
  end.

Ltac emits_tac := repeat first [emits_step | unfold_method].

Section Locality.

Context (cmd : Env).

(** X14.  Neither the validation of [Create] nor the normalisation of
    [Update] calls a remote service or asks for a confirmation, whatever the
    dictionaries hold and however they end. *)
Theorem validation_local (cs cps : dict_ref) (release_namespace : string) :
  emits is_local (__validate_config cmd cs cps release_namespace)
  /\ emits is_local (__normalize_config cs cps).
Proof. split; emits_tac. Qed.

(** X15.  [Update] never creates or updates an Azure resource: every remote
    call it makes is a lookup, whatever the settings and whatever the
    services answer. *)
Theorem Update_only_reads (resource_group_name cluster_name : string)
    (auto_upgrade_minor_version : option bool)
    (release_train version : option string) (cs cps : dict_ref) (yes : bool) :
  emits (fun e => negb (is_creation e))
    (Update cmd resource_group_name cluster_name auto_upgrade_minor_version
       release_train version cs cps yes).
Proof. emits_tac. Qed.

(** X16.  The only files [Update] opens are the files named 'sslCertPemFile'
    and 'sslKeyPemFile': it passes the two key names, not the paths stored
    under them, to the function that reads the PEM files. *)
Theorem Update_opens_key_names (resource_group_name cluster_name : string)
    (auto_upgrade_minor_version : option bool)
    (release_train version : option string) (cs cps : dict_ref) (yes : bool) :
  emits opens_key_names
    (Update cmd resource_group_name cluster_name auto_upgrade_minor_version
       release_train version cs cps yes).
Proof. emits_tac. Qed.

End Locality.

(** ** [Update] and the protected settings *)

Section KeepsProtected.

Lemma kp_ret {A} (a : A) : keeps_protected (mret a).
Proof. intros st. reflexivity. Qed.

Lemma kp_raise {A} (e : exn) : keeps_protected (@raise A e).
Proof. intros st. reflexivity. Qed.

Lemma kp_emit (ev : event) : keeps_protected (emit ev).
Proof. intros st. reflexivity. Qed.

Lemma kp_read (r : dict_ref) : keeps_protected (read r).
Proof. intros st. reflexivity. Qed.

Lemma kp_modify_settings f : keeps_protected (modify TheSettings f).
Proof. intros st. reflexivity. Qed.

Lemma kp_bind {A B} (m : M A) (k : A -> M B) :
  keeps_protected m -> (forall a, keeps_protected (k a)) ->
  keeps_protected (m ≫= k).
Proof.
  intros Hm Hk st. specialize (Hm st). unfold mbind, M_bind.
  destruct (m st) as [[e|a] st1]; simpl in *; [exact Hm|].
  rewrite (Hk a st1). exact Hm.
Qed.

Lemma kp_outcome {A} (res : foreign_error + A) : keeps_protected (outcome res).
Proof. destruct res; [apply kp_raise|apply kp_ret]. Qed.

Lemma kp_if {A} (b : bool) (m1 m2 : M A) :
  keeps_protected m1 -> keeps_protected m2 ->
  keeps_protected (if b then m1 else m2).
Proof. destruct b; auto. Qed.

End KeepsProtected.

Ltac kp_step :=
  lazymatch goal with
  | |- keeps_protected (mret _) => apply kp_ret
  | |- keeps_protected (_ ≫= _) => apply kp_bind; [|intros ?]
  | |- keeps_protected (emit _) => apply kp_emit
  | |- keeps_protected (read _) => apply kp_read
  | |- keeps_protected (modify TheSettings _) => apply kp_modify_settings
  | |- keeps_protected (raise _) => apply kp_raise
  | |- keeps_protected (outcome _) => apply kp_outcome
  | |- keeps_protected (write _ _ _) => unfold write
  | |- keeps_protected (warning _) => unfold warning
  | |- keeps_protected (info _) => unfold info
  | |- keeps_protected (effective _ _ _) => unfold effective
  | |- keeps_protected (if _ then _ else _) => apply kp_if
  | |- keeps_protected (match ?x with _ => _ end) => destruct x
  end.

Ltac kp_tac := repeat first [kp_step | unfold_method].

Section UpdateProtected.

Context (cmd : Env).
Context (resource_group_name cluster_name : string).
Context (auto_upgrade_minor_version : option bool).
Context (release_train version : option string).
Context (yes : bool).

Local Abbreviation Update_here :=
  (Update cmd resource_group_name cluster_name auto_upgrade_minor_version
     release_train version TheSettings TheProtected yes).

(** What [Update] does before it looks at the protected settings. *)
Local Abbreviation Update_head :=
  (__normalize_config TheSettings TheProtected;;
   config ← read TheSettings;
   if bool_decide (config ≠ ∅)
   then Update_prompt cmd TheSettings TheProtected yes
   else mret tt).

Lemma Update_head_keeps : keeps_protected Update_head.
Proof. kp_tac. Qed.




Lemma effective_neither (key : string) (p : gmap string value) :
  has_key key p = false ->
  _get_value_from_config_protected_config key ∅ p = VNone.
Proof.
  intros H. apply effective_absent.
  - rewrite dom_empty. apply not_elem_of_empty.
  - unfold has_key in H. apply bool_decide_eq_false in H. exact H.
Qed.

Lemma normalize_nothing (st : store) :
  settings st = ∅ ->
  has_key inferenceLoadBalancerHA (protected st) = false ->
  has_key privateEndpointNodeport (protected st) = false ->
  has_key privateEndpointILB (protected st) = false ->
  __normalize_config TheSettings TheProtected st = (inr tt, st).
Proof.
  intros Hs H1 H2 H3. unfold __normalize_config. mrun.
  rewrite Hs, (effective_neither _ _ H1). cbn [is_not_None]. mrun.
  rewrite Hs, (effective_neither _ _ H2). cbn [is_not_None]. mrun.
  rewrite Hs, (effective_neither _ _ H3). cbn [is_not_None]. mrun.
  destruct st; reflexivity.
Qed.

Lemma Update_tail_emits (cps' : M dict_ref) :
  emits (fun e => negb (is_confirmation e)) cps' ->
  emits (fun e => negb (is_confirmation e))
    (cps ← cps';
     config ← read TheSettings;
     protected_config ← read cps;
     mret {| patch_auto_upgrade_minor_version := auto_upgrade_minor_version;
             patch_release_train := release_train;
             patch_version := version;
             patch_configuration_settings := config;
             patch_configuration_protected_settings := protected_config |}).
Proof. intros H. apply emits_bind; [exact H|intros ?]. emits_tac. Qed.

(** X18.  With no plain settings, and none of inferenceLoadBalancerHA,
    privateEndpointNodeport and privateEndpointILB among the protected
    settings, [Update] asks for no confirmation, whatever else the protected
    settings change (disabling training or inference included). *)
Theorem Update_silent (st : store) :
  settings st = ∅ ->
  has_key inferenceLoadBalancerHA (protected st) = false ->
  has_key privateEndpointNodeport (protected st) = false ->
  has_key privateEndpointILB (protected st) = false ->
  emits_from (fun e => negb (is_confirmation e)) Update_here st.
Proof.
  intros Hs H1 H2 H3. unfold Update.
  apply emits_from_bind.
  { apply emits_from_nil. rewrite (normalize_nothing st Hs H1 H2 H3).
    reflexivity. }
  intros a st1 E. rewrite (normalize_nothing st Hs H1 H2 H3) in E.
  injection E as <- <-.
  apply emits_from_bind; [apply emits_read|]. intros config st1 E.
  injection E as <- <-. rewrite Hs.
  rewrite bool_decide_eq_false_2 by (intros H; apply H; reflexivity).
  apply emits_from_bind; [apply emits_ret|]. intros a st1 E.
  injection E as <- <-.
  apply emits_bind; [apply emits_read|intros ?].
  apply Update_tail_emits. emits_tac.
Qed.

End UpdateProtected.

Lemma Update_opens_key_names_witness :
  emits_from opens_key_names
    (Update sample_env "rg" "mycluster" None None None TheSettings
       TheProtected true)
    (initial ∅ {["sslCertPemFile" := VStr "/tmp/cert.pem";
                 "sslKeyPemFile" := VStr "/tmp/key.pem"]})
  /\ existsb is_open_file
       (trace (snd (sample_Update sample_env ∅
                      {["sslCertPemFile" := VStr "/tmp/cert.pem";
                        "sslKeyPemFile" := VStr "/tmp/key.pem"]}))) = true.
Proof.
  split.
  - apply (Update_opens_key_names sample_env "rg" "mycluster" None None None
             TheSettings TheProtected true).
  - vm_compute. reflexivity.
Defined.


Lemma Update_silent_witness :
  emits_from (fun e => negb (is_confirmation e))
    (Update sample_env "rg" "mycluster" None None None TheSettings
       TheProtected true)
    (initial ∅ {["enableTraining" := VStr "false"]}).
Proof.
  apply (Update_silent sample_env "rg" "mycluster" None None None true
           (initial ∅ {["enableTraining" := VStr "false"]}));
    vm_compute; reflexivity.
Defined.

(** ** [Create]: the order of the remote calls *)

Section LookupFirst.

Lemma remote_calls_app evs1 evs2 :
  remote_calls (evs1 ++ evs2) = remote_calls evs1 ++ remote_calls evs2.
Proof. unfold remote_calls. apply List.filter_app. Qed.

Lemma remote_calls_local evs :
  forallb (fun e => negb (is_remote e)) evs = true -> remote_calls evs = [].
Proof.
  induction evs as [|e evs IH]; [reflexivity|]. simpl.
  intros H. apply andb_true_iff in H as [He H].
  destruct (is_remote e); [discriminate|]. exact (IH H).
Qed.

Lemma trace_from_local {A B} (good : list event -> bool)
    (m : M A) (k : A -> M B) (st : store) :
  (forall evs1 evs2, remote_calls evs1 = [] -> good (evs1 ++ evs2) = good evs2) ->
  good [] = true ->
  emits_from (fun e => negb (is_remote e)) m st ->
  (forall a st1, m st = (inr a, st1) -> trace_from good (k a) st1) ->
  trace_from good (m ≫= k) st.
Proof.
  intros Hpre Hnil (evs & Ht & Hp) Hk. apply remote_calls_local in Hp.
  unfold trace_from, mbind, M_bind.
  destruct (m st) as [[e|a] st1] eqn:E; simpl in Ht.
  - exists evs. simpl. split; [exact Ht|].
    rewrite <- (app_nil_r evs), (Hpre _ _ Hp). exact Hnil.
  - destruct (Hk a st1 eq_refl) as (evs' & Ht' & Hg).
    exists (evs ++ evs'). rewrite Ht', Ht, app_assoc, (Hpre _ _ Hp).
    auto.
Qed.

Lemma lookup_first_prefix evs1 evs2 :
  remote_calls evs1 = [] -> lookup_first (evs1 ++ evs2) = lookup_first evs2.
Proof.
  intros H. unfold lookup_first. rewrite remote_calls_app, H. reflexivity.
Qed.

Lemma only_lookup_prefix evs1 evs2 :
  remote_calls evs1 = [] -> only_lookup (evs1 ++ evs2) = only_lookup evs2.
Proof.
  intros H. unfold only_lookup. rewrite remote_calls_app, H. reflexivity.
Qed.

Lemma lookup_then {A B} (c : remote_call) (res : foreign_error + A)
    (k : A -> M B) (st : store) :
  is_cluster_lookup (Remote c) = true ->
  (forall a, emits (fun _ => true) (k a)) ->
  trace_from lookup_first (call c res ≫= k) st.
Proof.
  intros Hc Hk. unfold trace_from, call, mbind, M_bind, emit. cbn beta iota.
  destruct res as [err|a]; simpl.
  - exists [Remote c]. split; [reflexivity|exact Hc].
  - destruct (Hk a (Store (settings st) (protected st) (copied st)
                      (trace st ++ [Remote c]))) as (evs & Ht & _).
    simpl in Ht. exists (Remote c :: evs). split; [|exact Hc].
    rewrite Ht, <- app_assoc. reflexivity.
Qed.

Lemma lookup_fails {A B} (c : remote_call) (err : foreign_error)
    (k : A -> M B) (st : store) :
  is_cluster_lookup (Remote c) = true ->
  trace_from only_lookup (call c (inl err) ≫= k) st
  /\ returned ((call c (inl err) ≫= k) st) = false.
Proof.
  intros Hc. split; [|reflexivity].
  exists [Remote c]. split; [reflexivity|exact Hc].
Qed.

Lemma stops_local {A B} (err : foreign_error) (m : M A) (k : A -> M B)
    (st : store) :
  emits_from (fun e => negb (is_remote e)) m st ->
  (forall a st1, m st = (inr a, st1) -> stops_at_lookup err (k a) st1) ->
  stops_at_lookup err (m ≫= k) st.
Proof.
  intros (evs & Ht & Hp) Hk. apply remote_calls_local in Hp.
  unfold stops_at_lookup, mbind, M_bind.
  destruct (m st) as [[e|a] st1] eqn:E; simpl in Ht.
  - exists evs, e. simpl. auto.
  - destruct (Hk a st1 eq_refl) as (evs' & e & Ht' & He & Hr).
    exists (evs ++ evs'), e. rewrite Ht', Ht, app_assoc.
    split; [reflexivity|]. split; [exact He|].
    rewrite remote_calls_app, Hp, only_lookup_prefix by exact Hp.
    exact Hr.
Qed.

Context (cmd : Env).
Context (resource_group_name cluster_name name cluster_type extension_type : string).
Context (scope : option string) (auto_upgrade_minor_version : option bool).
Context (release_train version target_namespace release_namespace : option string).
Context (cs cps : dict_ref).
Context (settings_file protected_settings_file : option string).

Local Abbreviation Create_here :=
  (Create cmd resource_group_name cluster_name name cluster_type extension_type
     scope auto_upgrade_minor_version release_train version target_namespace
     release_namespace cs cps settings_file protected_settings_file).

(** X19.  In [Create] the lookup of the cluster comes before every other
    remote call: whatever the inputs and the answers of the services, the
    first remote call, if any, is that lookup. *)
Theorem Create_lookup_first (st : store) :
  trace_from lookup_first Create_here st.
Proof.
  unfold Create. cbv zeta.
  apply trace_from_local;
    [apply lookup_first_prefix|reflexivity| |intros [] st1 _].
  { apply emits_if; [apply emits_raise|apply emits_ret]. }
  apply trace_from_local;
    [apply lookup_first_prefix|reflexivity| |intros [] st2 _].
  { assert (H : emits (fun e => negb (is_remote e))
                  (__validate_config cmd cs cps
                     (if falsy_str release_namespace
                      then DEFAULT_RELEASE_NAMESPACE
                      else default "" release_namespace)))
      by emits_tac.
    apply H. }
  apply trace_from_local;
    [apply lookup_first_prefix|reflexivity| |intros [rp v] st3 _].
  { apply emits_outcome. }
  apply lookup_then; [reflexivity|]. intros a. emits_tac.
Qed.

(** X20.  When the cluster cannot be looked up, [Create] fails, and with
    the error of the lookup unchanged if it got that far; no other remote
    call is made, so nothing is provisioned. *)
Theorem Create_lookup_failure (err : foreign_error) (st : store) :
  (forall resource_id api_version,
     resources_get_by_id cmd resource_id api_version = inl err) ->
  stops_at_lookup err Create_here st.
Proof.
  intros Herr. unfold Create. cbv zeta.
  apply stops_local; [|intros [] st1 _].
  { apply emits_if; [apply emits_raise|apply emits_ret]. }
  apply stops_local; [|intros [] st2 _].
  { assert (H : emits (fun e => negb (is_remote e))
                  (__validate_config cmd cs cps
                     (if falsy_str release_namespace
                      then DEFAULT_RELEASE_NAMESPACE
                      else default "" release_namespace)))
      by emits_tac.
    apply H. }
  apply stops_local; [|intros [rp v] st3 _].
  { apply emits_outcome. }
  rewrite Herr.
  eexists [Remote (ResourcesGetById _ _)], (Foreign err).
  split; [reflexivity|]. split; [reflexivity|]. right. auto.
Qed.

End LookupFirst.

Lemma Create_lookup_failure_witness :
  stops_at_lookup (CloudError "ResourceNotFound")
    (Create (with_cluster_lookup sample_env (inl (CloudError "ResourceNotFound")))
       "rg" "mycluster" "amlarc" "connectedClusters"
       "Microsoft.AzureML.Kubernetes" None None None None None None
       TheSettings TheProtected None None)
    (initial {["enableTraining" := VStr "true"]} ∅).
Proof.
  apply (Create_lookup_failure
           (with_cluster_lookup sample_env (inl (CloudError "ResourceNotFound")))).
  intros resource_id api_version. reflexivity.
Defined.

(** ** Invariants of the store *)

Section Preserves.

Context (I : store -> Prop).

Lemma preserves_ret {A} (a : A) : preserves I (mret a).
Proof. intros st H. exact H. Qed.

Lemma preserves_raise {A} (e : exn) : preserves I (@raise A e).
Proof. intros st H. exact H. Qed.

Lemma preserves_read (r : dict_ref) : preserves I (read r).
Proof. intros st H. exact H. Qed.

Lemma preserves_bind {A B} (m : M A) (k : A -> M B) :
  preserves I m -> (forall a, preserves I (k a)) -> preserves I (m ≫= k).
Proof.
  intros Hm Hk st H. specialize (Hm st H). unfold mbind, M_bind.
  destruct (m st) as [[e|a] st1]; simpl in *; [exact Hm|].
  apply Hk. exact Hm.
Qed.

Lemma preserves_outcome {A} (res : foreign_error + A) :
  preserves I (outcome res).
Proof. destruct res; [apply preserves_raise|apply preserves_ret]. Qed.

Lemma preserves_if {A} (b : bool) (m1 m2 : M A) :
  preserves I m1 -> preserves I m2 -> preserves I (if b then m1 else m2).
Proof. destruct b; auto. Qed.

Lemma preserves_for_each {A} (l : list A) (body : A -> M unit) :
  (forall x, preserves I (body x)) -> preserves I (for_each l body).
Proof.
  intros H. induction l as [|x l IH]; simpl; [apply preserves_ret|].
  apply preserves_bind; [apply H|]. intros _. exact IH.
Qed.

Context (Htrace : ignores_trace I).

Lemma preserves_emit (ev : event) : preserves I (emit ev).
Proof. intros [s p c t] H. simpl. exact (Htrace _ _ _ _ _ H). Qed.

Lemma preserves_call {A} (c : remote_call) (res : foreign_error + A) :
  preserves I (call c res).
Proof.
  unfold call. apply preserves_bind; [apply preserves_emit|].
  intros _. apply preserves_outcome.
Qed.

End Preserves.

Section EmitsUnder.

Context (I : store -> Prop) (P : event -> bool).

Lemma emits_under_all {A} (m : M A) : emits P m -> emits_under I P m.
Proof. intros H st _. apply H. Qed.

Lemma emits_under_bind {A B} (m : M A) (k : A -> M B) :
  preserves I m -> emits P m -> (forall a, emits_under I P (k a)) ->
  emits_under I P (m ≫= k).
Proof.
  intros Hp Hm Hk st HI. apply emits_from_bind; [apply Hm|].
  intros a st1 E. apply Hk. specialize (Hp st HI). rewrite E in Hp.
  exact Hp.
Qed.

Lemma emits_under_then {A B} (m : M A) (k : A -> M B) :
  emits_under I P m -> (forall a, emits P (k a)) -> emits_under I P (m ≫= k).
Proof.
  intros Hm Hk st HI. apply emits_from_bind; [apply Hm, HI|].
  intros a st1 _. apply Hk.
Qed.

Lemma emits_under_read2 {B}
    (k : gmap string value -> gmap string value -> M B) :
  (forall st, I st -> emits_from P (k (settings st) (protected st)) st) ->
  emits_under I P
    (config ← read TheSettings; protected_config ← read TheProtected;
     k config protected_config).
Proof. intros H st HI. exact (H st HI). Qed.

End EmitsUnder.

Section AgreesOn.

Context (keys : list string) (s0 p0 : gmap string value).

Lemma agrees_ignores : ignores_trace (agrees_on keys s0 p0).
Proof. intros s p c t t' H. exact H. Qed.

Lemma watched_ne k k' : watched keys k = false -> watched keys k' = true -> k <> k'.
Proof. intros H H' ->. congruence. Qed.

Lemma agrees_write r k v :
  watched keys k = false -> preserves (agrees_on keys s0 p0) (write r k v).
Proof.
  intros Hk st H k' Hk'. pose proof (watched_ne _ _ Hk Hk') as Hne.
  destruct (H k' Hk') as [H1 H2].
  destruct r; simpl; rewrite ?lookup_insert_ne by exact Hne; auto.
Qed.

Lemma agrees_pop r k :
  watched keys k = false -> preserves (agrees_on keys s0 p0) (pop r k).
Proof.
  intros Hk st H k' Hk'. pose proof (watched_ne _ _ Hk Hk') as Hne.
  destruct (H k' Hk') as [H1 H2].
  destruct r; simpl; rewrite ?lookup_delete_ne by exact Hne; auto.
Qed.

Lemma agrees_py_get st k :
  agrees_on keys s0 p0 st -> watched keys k = true ->
  py_get (settings st) k = py_get s0 k
  /\ py_get (protected st) k = py_get p0 k.
Proof.
  intros H Hk. destruct (H k Hk) as [H1 H2].
  unfold py_get, get_default. rewrite H1, H2. auto.
Qed.

End AgreesOn.

Ltac agrees_step :=
  lazymatch goal with
  | |- preserves _ (mret _) => apply preserves_ret
  | |- preserves _ (_ ≫= _) => apply preserves_bind; [|intros ?]
  | |- preserves _ (emit _) => apply preserves_emit, agrees_ignores
  | |- preserves _ (read _) => apply preserves_read
  | |- preserves _ (raise _) => apply preserves_raise
  | |- preserves _ (outcome _) => apply preserves_outcome
  | |- preserves _ (call _ _) => apply preserves_call, agrees_ignores
  | |- preserves _ (for_each _ _) => apply preserves_for_each; intros ?
  | |- preserves _ (write _ _ _) => apply agrees_write; reflexivity
  | |- preserves _ (pop _ _) => apply agrees_pop; reflexivity
  | |- preserves _ (warning _) => unfold warning
  | |- preserves _ (info _) => unfold info
  | |- preserves _ (effective _ _ _) => unfold effective
  | |- preserves _ (if _ then _ else _) => apply preserves_if
  | |- preserves _ (match ?x with _ => _ end) => destruct x
  end.

Ltac agrees_tac := repeat first [agrees_step | unfold_method].

(** One step of [Create] under an invariant on watched keys. *)
Ltac under_step :=
  lazymatch goal with
  | |- emits_under _ _ (match ?x with _ => _ end) => destruct x
  | |- emits_under _ _ (?m ≫= _) =>
      let h := head_of m in
      lazymatch h with
      | __create_required_resource => fail
      | _ => apply emits_under_bind; [agrees_tac|emits_tac|intros ?]
      end
  end.

Section SkipsProvisioning.

Context (cmd : Env).
Context (subscription_id resource_group_name cluster_name cluster_location : string).
Context (s0 p0 : gmap string value).

Local Abbreviation provision :=
  (__create_required_resource cmd TheSettings TheProtected subscription_id
     resource_group_name cluster_name cluster_location).

Lemma provision_skips_relay :
  has_truthy RELAY_SERVER_CONNECTION_STRING s0 p0 = true ->
  emits_under (agrees_on [RELAY_SERVER_CONNECTION_STRING] s0 p0)
    (fun e => negb (is_relay_call e)) provision.
Proof.
  intros Hk. unfold __create_required_resource.
  do 3 under_step.
  apply emits_under_read2. intros st HI.
  destruct (agrees_py_get _ _ _ st RELAY_SERVER_CONNECTION_STRING HI eq_refl)
    as [-> ->].
  unfold has_truthy in Hk. apply orb_true_iff in Hk.
  assert (Hg : negb (truthy (py_get s0 RELAY_SERVER_CONNECTION_STRING))
               && negb (truthy (py_get p0 RELAY_SERVER_CONNECTION_STRING))
               = false)
    by (destruct Hk as [-> | ->]; [reflexivity|apply andb_false_r]).
  rewrite Hg.
  assert (H : forall m : M unit,
            emits (fun e => negb (is_relay_call e)) m ->
            emits_from (fun e => negb (is_relay_call e)) m st)
    by (intros m Hm; apply Hm).
  apply H. emits_tac.
Qed.

Lemma provision_skips_service_bus :
  has_truthy SERVICE_BUS_CONNECTION_STRING s0 p0 = true ->
  emits_under (agrees_on [SERVICE_BUS_CONNECTION_STRING] s0 p0)
    (fun e => negb (is_service_bus_call e)) provision.
Proof.
  intros Hk. unfold __create_required_resource.
  do 6 under_step.
  apply emits_under_read2. intros st HI.
  destruct (agrees_py_get _ _ _ st SERVICE_BUS_CONNECTION_STRING HI eq_refl)
    as [-> ->].
  unfold has_truthy in Hk. apply orb_true_iff in Hk.
  assert (Hg : negb (truthy (py_get s0 SERVICE_BUS_CONNECTION_STRING))
               && negb (truthy (py_get p0 SERVICE_BUS_CONNECTION_STRING))
               = false)
    by (destruct Hk as [-> | ->]; [reflexivity|apply andb_false_r]).
  rewrite Hg. apply emits_ret.
Qed.

Lemma agrees_guard (st : store) :
  agrees_on [LOG_ANALYTICS_WS_ENABLED; AZURE_LOG_ANALYTICS_CONNECTION_STRING]
    s0 p0 st ->
  log_analytics_guard (settings st) (protected st) = log_analytics_guard s0 p0.
Proof.
  intros HI.
  destruct (HI LOG_ANALYTICS_WS_ENABLED eq_refl) as [H1 _].
  destruct (HI AZURE_LOG_ANALYTICS_CONNECTION_STRING eq_refl) as [H2 H3].
  unfold log_analytics_guard, py_get, get_default. rewrite H1, H2, H3.
  reflexivity.
Qed.

Lemma provision_skips_workspace :
  log_analytics_guard s0 p0 = false ->
  emits_under
    (agrees_on [LOG_ANALYTICS_WS_ENABLED; AZURE_LOG_ANALYTICS_CONNECTION_STRING]
       s0 p0)
    (fun e => negb (is_workspace_call e)) provision.
Proof.
  intros Hk. unfold __create_required_resource.
  apply emits_under_read2. intros st HI.
  change (str_lower_is "true"
            (get_default (settings st) LOG_ANALYTICS_WS_ENABLED (VBool false))
          && negb (truthy (py_get (settings st)
                             AZURE_LOG_ANALYTICS_CONNECTION_STRING))
          && negb (truthy (py_get (protected st)
                             AZURE_LOG_ANALYTICS_CONNECTION_STRING)))
    with (log_analytics_guard (settings st) (protected st)).
  rewrite (agrees_guard st HI), Hk.
  assert (H : forall m : M unit,
            emits (fun e => negb (is_workspace_call e)) m ->
            emits_from (fun e => negb (is_workspace_call e)) m st)
    by (intros m Hm; apply Hm).
  apply H. emits_tac.
Qed.

End SkipsProvisioning.

Section CreateSkips.

Context (cmd : Env).
Context (resource_group_name cluster_name name cluster_type extension_type : string).
Context (scope : option string) (auto_upgrade_minor_version : option bool).
Context (release_train version target_namespace release_namespace : option string).
Context (settings_file protected_settings_file : option string).

Local Abbreviation Create_here :=
  (Create cmd resource_group_name cluster_name name cluster_type extension_type
     scope auto_upgrade_minor_version release_train version target_namespace
     release_namespace TheSettings TheProtected settings_file
     protected_settings_file).

Lemma agrees_initially keys (st : store) :
  agrees_on keys (settings st) (protected st) st.
Proof. intros k _. auto. Qed.

(** X21.  [Create] provisions only what is missing.  Given a relay
    connection string (a non-empty relayServerConnectionString in the
    settings or the protected settings) it makes no call to the Relay
    service; given a service bus connection string, none to the Service Bus
    service; and unless logAnalyticsWS reads 'true' in the plain settings
    with no Log Analytics connection string given, none to the Log Analytics
    service. *)
Theorem Create_skips_provisioning (st : store) :
  (has_truthy RELAY_SERVER_CONNECTION_STRING (settings st) (protected st)
   = true ->
   emits_from (fun e => negb (is_relay_call e)) Create_here st)
  /\ (has_truthy SERVICE_BUS_CONNECTION_STRING (settings st) (protected st)
      = true ->
      emits_from (fun e => negb (is_service_bus_call e)) Create_here st)
  /\ (log_analytics_guard (settings st) (protected st) = false ->
      emits_from (fun e => negb (is_workspace_call e)) Create_here st).
Proof.
  split; [|split]; intros Hk.
  - assert (H : emits_under
                  (agrees_on [RELAY_SERVER_CONNECTION_STRING]
                     (settings st) (protected st))
                  (fun e => negb (is_relay_call e)) Create_here).
    { unfold Create. cbv zeta. repeat under_step.
      apply emits_under_then;
        [apply provision_skips_relay; exact Hk|intros ?; emits_tac]. }
    apply H, agrees_initially.
  - assert (H : emits_under
                  (agrees_on [SERVICE_BUS_CONNECTION_STRING]
                     (settings st) (protected st))
                  (fun e => negb (is_service_bus_call e)) Create_here).
    { unfold Create. cbv zeta. repeat under_step.
      apply emits_under_then;
        [apply provision_skips_service_bus; exact Hk|intros ?; emits_tac]. }
    apply H, agrees_initially.
  - assert (H : emits_under
                  (agrees_on [LOG_ANALYTICS_WS_ENABLED;
                              AZURE_LOG_ANALYTICS_CONNECTION_STRING]
                     (settings st) (protected st))
                  (fun e => negb (is_workspace_call e)) Create_here).
    { unfold Create. cbv zeta. repeat under_step.
      apply emits_under_then;
        [apply provision_skips_workspace; exact Hk|intros ?; emits_tac]. }
    apply H, agrees_initially.
Qed.

End CreateSkips.

Lemma Create_skips_provisioning_witness :
  emits_from (fun e => negb (is_relay_call e))
    (Create sample_env "rg" "mycluster" "amlarc" "connectedClusters"
       "Microsoft.AzureML.Kubernetes" None None None None None None
       TheSettings TheProtected None None)
    (initial {["enableTraining" := VStr "true"]}
       {["relayServerConnectionString" := VStr "Endpoint=sb://relay"]})
  /\ emits_from (fun e => negb (is_workspace_call e))
       (Create sample_env "rg" "mycluster" "amlarc" "connectedClusters"
          "Microsoft.AzureML.Kubernetes" None None None None None None
          TheSettings TheProtected None None)
       (initial {["enableTraining" := VStr "true"]}
          {["logAnalyticsWS" := VStr "true"]}).
Proof.
  split.
  - apply (Create_skips_provisioning sample_env "rg" "mycluster" "amlarc"
             "connectedClusters" "Microsoft.AzureML.Kubernetes" None None None
             None None None None None
             (initial {["enableTraining" := VStr "true"]}
                {["relayServerConnectionString" := VStr "Endpoint=sb://relay"]})).
    vm_compute. reflexivity.
  - apply (Create_skips_provisioning sample_env "rg" "mycluster" "amlarc"
             "connectedClusters" "Microsoft.AzureML.Kubernetes" None None None
             None None None None None
             (initial {["enableTraining" := VStr "true"]}
                {["logAnalyticsWS" := VStr "true"]})).
    vm_compute. reflexivity.
Defined.

(** ** [Create]: the manifest it returns *)

Section Hoare.

Lemma hoare_ret {A} (P : store -> Prop) (a : A) (Q : A -> store -> Prop) :
  (forall st, P st -> Q a st) -> hoare P (mret a) Q.
Proof. intros H st a' st' HP E. injection E as <- <-. auto. Qed.

Lemma hoare_bind {A B} (P : store -> Prop) (m : M A) (R : A -> store -> Prop)
    (k : A -> M B) (Q : B -> store -> Prop) :
  hoare P m R -> (forall a, hoare (R a) (k a) Q) -> hoare P (m ≫= k) Q.
Proof.
  intros Hm Hk st b st' HP E. unfold mbind, M_bind in E.
  destruct (m st) as [[e|a] st1] eqn:Em; [discriminate|].
  exact (Hk a st1 b st' (Hm st a st1 HP Em) E).
Qed.

Lemma hoare_conseq {A} (P P' : store -> Prop) (m : M A)
    (Q Q' : A -> store -> Prop) :
  hoare P m Q -> (forall st, P' st -> P st) ->
  (forall a st, Q a st -> Q' a st) -> hoare P' m Q'.
Proof. intros H HP HQ st a st' HP' E. eauto. Qed.

Lemma hoare_any {A} (P : store -> Prop) (m : M A) :
  hoare P m (fun _ _ => True).
Proof. intros st a st' _ _. exact I. Qed.

Lemma hoare_and {A} (P : store -> Prop) (m : M A) (Q1 Q2 : A -> store -> Prop) :
  hoare P m Q1 -> hoare P m Q2 -> hoare P m (fun a st => Q1 a st /\ Q2 a st).
Proof. intros H1 H2 st a st' HP E. split; eauto. Qed.

Lemma hoare_preserves {A} (I : store -> Prop) (m : M A) :
  preserves I m -> hoare I m (fun _ => I).
Proof.
  intros H st a st' HI E. specialize (H st HI). rewrite E in H. exact H.
Qed.

Lemma hoare_inv_bind {A B} (I : store -> Prop) (m : M A) (k : A -> M B)
    (Q : B -> store -> Prop) :
  preserves I m -> (forall a, hoare I (k a) Q) -> hoare I (m ≫= k) Q.
Proof.
  intros Hm Hk. apply (hoare_bind I m (fun _ => I)); [|exact Hk].
  apply hoare_preserves. exact Hm.
Qed.

Lemma hoare_any_bind {A B} (P : store -> Prop) (m : M A) (k : A -> M B)
    (Q : B -> store -> Prop) :
  (forall a, hoare (fun _ => True) (k a) Q) -> hoare P (m ≫= k) Q.
Proof.
  intros Hk. apply (hoare_bind P m (fun _ _ => True)); [|exact Hk].
  apply hoare_any.
Qed.

Lemma hoare_always {A} (P : store -> Prop) (m : M A)
    (Q : A -> store -> Prop) :
  hoare (fun _ => True) m Q -> hoare P m Q.
Proof. intros H st a st' _ E. exact (H st a st' I E). Qed.

End Hoare.

Section DomFacts.

Implicit Types (d : gmap string value).

Lemma dom_insert_here d k v : k ∈ dom (<[k := v]> d).
Proof. rewrite dom_insert. apply elem_of_union. left. apply elem_of_singleton. reflexivity. Qed.

Lemma dom_insert_there d k k' v : k ∈ dom d -> k ∈ dom (<[k' := v]> d).
Proof. intros H. rewrite dom_insert. apply elem_of_union. right. exact H. Qed.

Lemma dom_insert_not d k k' v : k <> k' -> k ∉ dom d -> k ∉ dom (<[k' := v]> d).
Proof.
  intros Hne H. rewrite dom_insert. intros Hin.
  apply elem_of_union in Hin as [Hin|Hin]; [|exact (H Hin)].
  apply elem_of_singleton in Hin. exact (Hne Hin).
Qed.

Lemma dom_delete_here d k : k ∉ dom (delete k d).
Proof. rewrite dom_delete. intros H. apply elem_of_difference in H as [_ H]. apply H, elem_of_singleton. reflexivity. Qed.

Lemma dom_delete_not d k k' : k ∉ dom d -> k ∉ dom (delete k' d).
Proof. intros H. rewrite dom_delete. intros Hin. apply elem_of_difference in Hin as [Hin _]. exact (H Hin). Qed.

Lemma truthy_present d k : truthy (py_get d k) = true -> k ∈ dom d.
Proof.
  intros H. destruct (decide (k ∈ dom d)) as [Hin|Hout]; [exact Hin|].
  rewrite (py_get_absent d k Hout) in H. discriminate H.
Qed.

Lemma watched_cons k0 keys k :
  watched (k0 :: keys) k = true -> k = k0 \/ watched keys k = true.
Proof.
  unfold watched. simpl. intros H. apply orb_true_iff in H as [H|H]; [|auto].
  left. apply String.eqb_eq. exact H.
Qed.

Lemma dereference_dom (m : list (string * list string)) d k :
  k ∈ dom d -> k ∈ dom (_dereference m d).
Proof.
  intros H. apply elem_of_dom in H as [v Hv]. apply elem_of_dom.
  exists v. apply dereference_preserves. exact Hv.
Qed.

Lemma dereference_not_dom (m : list (string * list string)) d k :
  listed m k = false -> k ∉ dom d -> k ∉ dom (_dereference m d).
Proof.
  intros Hl H Hin. apply H. apply elem_of_dom. apply elem_of_dom in Hin.
  rewrite <- (dereference_other m d k); [exact Hin|].
  apply not_listed. exact Hl.
Qed.

Lemma dereference_concrete (m : list (string * list string)) d
    ref_key ref_list key :
  (ref_key, ref_list) ∈ m -> key ∈ ref_list -> ref_key ∈ dom d ->
  key ∈ dom (_dereference m d).
Proof.
  intros Hin Hkey H. apply elem_of_dom.
  apply (dereference_present m d ref_key ref_list key Hin); [|exact Hkey].
  apply elem_of_dom. exact H.
Qed.

End DomFacts.

Ltac mrun_in H :=
  unfold effective in H; unfold write, pop, warning, info in H;
  unfold mbind, M_bind, mret, M_ret, read, modify, raise, emit in H;
  cbn beta iota zeta delta [settings protected copied trace fst snd] in H.

(** A straight-line computation: run it. *)
Ltac hoare_run :=
  let st := fresh "st" in
  let a := fresh "a" in
  let st' := fresh "st'" in
  let HP := fresh "HP" in
  let E := fresh "E" in
  intros st a st' HP E; mrun_in E; injection E as <- <-.

Ltac inv_step ign wr :=
  lazymatch goal with
  | |- preserves _ (mret _) => apply preserves_ret
  | |- preserves _ (_ ≫= _) => apply preserves_bind; [|intros ?]
  | |- preserves _ (emit _) => apply preserves_emit; ign
  | |- preserves _ (read _) => apply preserves_read
  | |- preserves _ (raise _) => apply preserves_raise
  | |- preserves _ (outcome _) => apply preserves_outcome
  | |- preserves _ (call _ _) => apply preserves_call; ign
  | |- preserves _ (for_each _ _) => apply preserves_for_each; intros ?
  | |- preserves _ (write _ _ _) => wr
  | |- preserves _ (warning _) => unfold warning
  | |- preserves _ (info _) => unfold info
  | |- preserves _ (if _ then _ else _) => apply preserves_if
  | |- preserves _ (match ?x with _ => _ end) => destruct x
  end.

Section CreateInvariant.

Lemma create_inv_ignores keys : ignores_trace (create_inv keys).
Proof. intros s p c t t' H. exact H. Qed.

Lemma create_inv_write_settings keys k v :
  preserves (create_inv keys) (write TheSettings k v).
Proof.
  intros st [H1 H2]. split; [|exact H2].
  intros k' Hk'. simpl. apply dom_insert_there, H1, Hk'.
Qed.

Lemma create_inv_write_protected keys k v :
  watched [ENABLE_TRAINING; ENABLE_INFERENCE] k = false ->
  preserves (create_inv keys) (write TheProtected k v).
Proof.
  intros Hk st [H1 H2]. split; [exact H1|].
  intros k' Hk'. simpl. apply dom_insert_not; [|apply H2, Hk'].
  intros ->. congruence.
Qed.

Lemma create_inv_grow keys k v :
  hoare (create_inv keys) (write TheSettings k v)
    (fun _ => create_inv (k :: keys)).
Proof.
  hoare_run. destruct HP as [H1 H2]. split; [|exact H2].
  intros k' Hk'. simpl. apply watched_cons in Hk' as [->|Hk'].
  - apply dom_insert_here.
  - apply dom_insert_there, H1, Hk'.
Qed.

Lemma either_ignores k : ignores_trace (either_has k).
Proof. intros s p c t t' H. exact H. Qed.

Lemma either_write k r k' v : preserves (either_has k) (write r k' v).
Proof.
  intros st [H|H]; destruct r; simpl;
    first [left; apply dom_insert_there, H | right; apply dom_insert_there, H
          | left; exact H | right; exact H].
Qed.

End CreateInvariant.

Ltac create_inv_tac :=
  repeat first
    [ inv_step ltac:(apply create_inv_ignores)
        ltac:(idtac;
              lazymatch goal with
              | |- preserves _ (write TheSettings _ _) =>
                  apply create_inv_write_settings
              | |- preserves _ (write TheProtected _ _) =>
                  apply create_inv_write_protected; reflexivity
              end)
    | unfold_method ].

Ltac either_tac :=
  repeat first
    [ inv_step ltac:(apply either_ignores) ltac:(apply either_write)
    | unfold_method ].

Section Provision.

Context (cmd : Env).
Context (subscription_id resource_group_name cluster_name cluster_location : string).

Lemma hoare_block {B} (k : string) (block : M unit) (rest : M B)
    (P : store -> Prop) (Q : B -> store -> Prop) :
  hoare (fun _ => True) block (fun _ st => k ∈ dom (protected st)) ->
  hoare (either_has k) rest Q ->
  hoare P
    (config ← read TheSettings;
     protected_config ← read TheProtected;
     (if negb (truthy (py_get config k))
         && negb (truthy (py_get protected_config k))
      then block else mret tt);;
     rest) Q.
Proof.
  intros Hb Hr st b st' _ E. unfold mbind, M_bind, read in E.
  cbn beta iota in E.
  destruct (negb (truthy (py_get (settings st) k))
            && negb (truthy (py_get (protected st) k))) eqn:G.
  - destruct (block st) as [[e|[]] st1] eqn:Eb; [discriminate|].
    apply (Hr st1 b st'); [|exact E]. right. exact (Hb st tt st1 I Eb).
  - apply (Hr st b st'); [|exact E].
    apply andb_false_iff in G as [G|G]; apply negb_false_iff in G.
    + left. apply truthy_present. exact G.
    + right. apply truthy_present. exact G.
Qed.

Lemma hoare_last_block (k : string) (block : M unit) (P : store -> Prop) :
  hoare (fun _ => True) block (fun _ st => k ∈ dom (protected st)) ->
  hoare P
    (config ← read TheSettings;
     protected_config ← read TheProtected;
     if negb (truthy (py_get config k))
        && negb (truthy (py_get protected_config k))
     then block else mret tt)
    (fun _ => either_has k).
Proof.
  intros Hb st b st' _ E. unfold mbind, M_bind, read in E.
  cbn beta iota in E.
  destruct (negb (truthy (py_get (settings st) k))
            && negb (truthy (py_get (protected st) k))) eqn:G.
  - right. destruct b. exact (Hb st tt st' I E).
  - injection E as <- <-.
    apply andb_false_iff in G as [G|G]; apply negb_false_iff in G.
    + left. apply truthy_present. exact G.
    + right. apply truthy_present. exact G.
Qed.

Lemma provision_post :
  hoare (fun _ => True)
    (__create_required_resource cmd TheSettings TheProtected subscription_id
       resource_group_name cluster_name cluster_location)
    (fun _ st =>
       either_has RELAY_SERVER_CONNECTION_STRING st
       /\ either_has SERVICE_BUS_CONNECTION_STRING st).
Proof.
  unfold __create_required_resource. cbv zeta.
  do 3 (apply hoare_any_bind; intros ?).
  apply (hoare_block RELAY_SERVER_CONNECTION_STRING).
  - apply hoare_any_bind; intros [].
    apply hoare_any_bind; intros [[conn hc_id] hc_name].
    hoare_run. simpl. apply dom_insert_here.
  - apply hoare_and.
    + apply hoare_preserves. either_tac.
    + apply (hoare_last_block SERVICE_BUS_CONNECTION_STRING).
      apply hoare_any_bind; intros [].
      apply hoare_any_bind; intros [[conn sb_id]|].
      * hoare_run. simpl. apply dom_insert_here.
      * intros st0 r st0' _ E. discriminate E.
Qed.

End Provision.

Ltac inv_bind :=
  lazymatch goal with
  | |- hoare ?I (_ ≫= _) _ => apply (hoare_inv_bind I)
  end.

(** ** [Create]: the connection strings of the manifest *)

Section ChartEntries.

Implicit Types (d : gmap string value).

Lemma chart_entry_agrees key chart d d' :
  d !! key = d' !! key -> d !! chart = d' !! chart ->
  chart_entry key chart d = chart_entry key chart d'.
Proof.
  intros Hk Hc. unfold chart_entry, get_default. rewrite Hk, Hc. reflexivity.
Qed.

Local Abbreviation fill ref_value l d :=
  (fold_left (fun output_dict key =>
                <[key := get_default output_dict key ref_value]> output_dict)
     l d).

Lemma fill_chart v chart d :
  fill v [chart] d !! chart = Some (get_default d chart v).
Proof. simpl. apply lookup_insert_eq. Qed.

Lemma dereference_relay_chart d :
  _dereference reference_mapping d !! RELAY_CONNECTION_STRING_KEY
  = chart_entry RELAY_SERVER_CONNECTION_STRING RELAY_CONNECTION_STRING_KEY d.
Proof.
  unfold reference_mapping. rewrite dereference_cons.
  rewrite dereference_other by (apply not_listed; reflexivity).
  unfold chart_entry.
  destruct (d !! RELAY_SERVER_CONNECTION_STRING) as [v|]; [|reflexivity].
  apply fill_chart.
Qed.

Lemma dereference_service_bus_chart d :
  _dereference reference_mapping d !! SERVICE_BUS_CONNECTION_STRING_KEY
  = chart_entry SERVICE_BUS_CONNECTION_STRING
      SERVICE_BUS_CONNECTION_STRING_KEY d.
Proof.
  unfold reference_mapping. rewrite dereference_cons.
  set (d1 := match d !! RELAY_SERVER_CONNECTION_STRING with
             | Some v => fill v [RELAY_CONNECTION_STRING_KEY] d
             | None => d
             end).
  rewrite dereference_cons.
  rewrite dereference_other by (apply not_listed; reflexivity).
  assert (H : forall k, k <> RELAY_CONNECTION_STRING_KEY -> d1 !! k = d !! k).
  { intros k Hk. unfold d1.
    destruct (d !! RELAY_SERVER_CONNECTION_STRING); [|reflexivity].
    apply fill_other. intros Hin. apply elem_of_cons in Hin as [Hin|Hin];
      [contradiction|inversion Hin]. }
  rewrite <- (chart_entry_agrees SERVICE_BUS_CONNECTION_STRING
                SERVICE_BUS_CONNECTION_STRING_KEY d1 d)
    by (apply H; discriminate).
  unfold chart_entry.
  destruct (d1 !! SERVICE_BUS_CONNECTION_STRING) as [v|]; [|reflexivity].
  apply fill_chart.
Qed.

End ChartEntries.

Section StringBlocks.

Context (key : string) (keys : list string) (provisioned : string -> Prop).
Context (s0 p0 : gmap string value).
Context (Hkey : watched keys key = true).

Local Abbreviation string_post :=
  (fun st => exists p1, agrees_on keys s0 p1 st
                        /\ string_outcome provisioned key s0 p0 p1).

Local Abbreviation block_post :=
  (fun st => exists conn, provisioned conn
                          /\ agrees_on keys s0 (<[key := VStr conn]> p0) st).

Lemma hoare_string_block {B} (block : M unit) (rest : M B) :
  hoare (agrees_on keys s0 p0) block (fun _ => block_post) ->
  (forall p1, preserves (agrees_on keys s0 p1) rest) ->
  hoare (agrees_on keys s0 p0)
    (config ← read TheSettings;
     protected_config ← read TheProtected;
     (if negb (truthy (py_get config key))
         && negb (truthy (py_get protected_config key))
      then block else mret tt);;
     rest)
    (fun _ => string_post).
Proof.
  intros Hb Hr st b st' HI E. unfold mbind, M_bind, read in E.
  cbn beta iota in E.
  destruct (agrees_py_get keys s0 p0 st key HI Hkey) as [G1 G2].
  rewrite G1, G2 in E. unfold string_outcome, has_truthy.
  destruct (truthy (py_get s0 key) || truthy (py_get p0 key)) eqn:G.
  - assert (G' : negb (truthy (py_get s0 key))
                 && negb (truthy (py_get p0 key)) = false).
    { rewrite <- negb_orb, G. reflexivity. }
    rewrite G' in E. unfold mret at 1, M_ret at 1 in E. cbn beta iota in E.
    exists p0. split; [|reflexivity].
    pose proof (Hr p0 st HI) as H. rewrite E in H. exact H.
  - assert (G' : negb (truthy (py_get s0 key))
                 && negb (truthy (py_get p0 key)) = true).
    { rewrite <- negb_orb, G. reflexivity. }
    rewrite G' in E.
    destruct (block st) as [[e|[]] st1] eqn:Eb; [discriminate|].
    destruct (Hb st tt st1 HI Eb) as (conn & Hc & HI1).
    exists (<[key := VStr conn]> p0). split; [|exists conn; auto].
    pose proof (Hr _ st1 HI1) as H. rewrite E in H. exact H.
Qed.

Lemma hoare_last_string_block (block : M unit) :
  hoare (agrees_on keys s0 p0) block (fun _ => block_post) ->
  hoare (agrees_on keys s0 p0)
    (config ← read TheSettings;
     protected_config ← read TheProtected;
     if negb (truthy (py_get config key))
        && negb (truthy (py_get protected_config key))
     then block else mret tt)
    (fun _ => string_post).
Proof.
  intros Hb st b st' HI E. unfold mbind, M_bind, read in E.
  cbn beta iota in E.
  destruct (agrees_py_get keys s0 p0 st key HI Hkey) as [G1 G2].
  rewrite G1, G2 in E. unfold string_outcome, has_truthy.
  destruct (truthy (py_get s0 key) || truthy (py_get p0 key)) eqn:G.
  - assert (G' : negb (truthy (py_get s0 key))
                 && negb (truthy (py_get p0 key)) = false).
    { rewrite <- negb_orb, G. reflexivity. }
    rewrite G' in E. injection E as <- <-.
    exists p0. split; [exact HI|reflexivity].
  - assert (G' : negb (truthy (py_get s0 key))
                 && negb (truthy (py_get p0 key)) = true).
    { rewrite <- negb_orb, G. reflexivity. }
    rewrite G' in E. destruct b.
    destruct (Hb st tt st' HI E) as (conn & Hc & HI1).
    exists (<[key := VStr conn]> p0). split; [exact HI1|exists conn; auto].
Qed.

End StringBlocks.

Section ProvisionStrings.

Context (cmd : Env).
Context (subscription_id resource_group_name cluster_name cluster_location : string).
Context (s0 p0 : gmap string value).

Lemma relay_returns (auth_rule_name : string) (get_key_only : bool) :
  hoare (fun _ => True)
    (_get_relay_connection_str cmd subscription_id resource_group_name
       cluster_name cluster_location auth_rule_name get_key_only)
    (fun r _ => provisioned_relay cmd (fst (fst r))).
Proof.
  unfold _get_relay_connection_str. cbv zeta.
  apply hoare_any_bind; intros relay_namespace_name.
  apply hoare_any_bind; intros hc_resource_id.
  intros st r st' _ E. unfold call, mbind, M_bind, emit, outcome in E.
  cbn beta iota in E.
  destruct (relay_list_keys cmd resource_group_name relay_namespace_name
              cluster_name auth_rule_name) as [e|key] eqn:R;
    [discriminate E|].
  injection E as <- <-. exists resource_group_name, relay_namespace_name,
    cluster_name, auth_rule_name. exact R.
Qed.

Lemma service_bus_returns (topic_sub_mapping : list (string * string))
    (get_key_only : bool) :
  hoare (fun _ => True)
    (_get_service_bus_connection_string cmd subscription_id
       resource_group_name cluster_name cluster_location topic_sub_mapping
       get_key_only)
    (fun r _ => match r with
                | Some (conn, _) => provisioned_service_bus cmd conn
                | None => True
                end).
Proof.
  unfold _get_service_bus_connection_string. cbv zeta.
  apply hoare_any_bind; intros service_bus_namespace_name.
  apply hoare_any_bind; intros [].
  apply hoare_any_bind; intros service_bus_resource_id.
  apply hoare_any_bind; intros [|rule auth_rules].
  - intros st r st' _ E. injection E as <- <-. exact I.
  - intros st r st' _ E. unfold call, mbind, M_bind, emit, outcome in E.
    cbn beta iota in E.
    destruct (servicebus_list_keys cmd resource_group_name
                service_bus_namespace_name rule) as [e|key] eqn:R;
      [discriminate E|].
    injection E as <- <-. exists resource_group_name,
      service_bus_namespace_name, rule. exact R.
Qed.

Lemma provision_relay :
  hoare (agrees_on [RELAY_SERVER_CONNECTION_STRING; RELAY_CONNECTION_STRING_KEY]
           s0 p0)
    (__create_required_resource cmd TheSettings TheProtected subscription_id
       resource_group_name cluster_name cluster_location)
    (fun _ st =>
       exists p1,
         agrees_on [RELAY_SERVER_CONNECTION_STRING; RELAY_CONNECTION_STRING_KEY]
           s0 p1 st
         /\ string_outcome (provisioned_relay cmd)
              RELAY_SERVER_CONNECTION_STRING s0 p0 p1).
Proof.
  unfold __create_required_resource. cbv zeta.
  do 3 (inv_bind; [agrees_tac|intros ?]).
  apply (hoare_string_block RELAY_SERVER_CONNECTION_STRING
           [RELAY_SERVER_CONNECTION_STRING; RELAY_CONNECTION_STRING_KEY]
           (provisioned_relay cmd) s0 p0 eq_refl);
    [|intros p1; agrees_tac].
  inv_bind; [agrees_tac|intros []].
  eapply hoare_bind.
  { apply hoare_and.
    - apply hoare_preserves. agrees_tac.
    - apply hoare_always, relay_returns. }
  intros [[conn hc_id] hc_name] st1 r st2 [HI Hc] E.
  mrun_in E. injection E as <- <-. exists conn. split; [exact Hc|].
  intros k Hk. cbn [settings protected].
  destruct (HI k Hk) as [H1 H2].
  apply watched_cons in Hk as [->|Hk];
    [|apply watched_cons in Hk as [->|Hk]; [|discriminate Hk]].
  - rewrite !lookup_insert_eq.
    rewrite !lookup_insert_ne by discriminate. auto.
  - rewrite !lookup_insert_ne by discriminate. auto.
Qed.

Lemma provision_service_bus :
  hoare (agrees_on [SERVICE_BUS_CONNECTION_STRING;
                    SERVICE_BUS_CONNECTION_STRING_KEY] s0 p0)
    (__create_required_resource cmd TheSettings TheProtected subscription_id
       resource_group_name cluster_name cluster_location)
    (fun _ st =>
       exists p1,
         agrees_on [SERVICE_BUS_CONNECTION_STRING;
                    SERVICE_BUS_CONNECTION_STRING_KEY] s0 p1 st
         /\ string_outcome (provisioned_service_bus cmd)
              SERVICE_BUS_CONNECTION_STRING s0 p0 p1).
Proof.
  unfold __create_required_resource. cbv zeta.
  do 6 (inv_bind; [agrees_tac|intros ?]).
  apply (hoare_last_string_block SERVICE_BUS_CONNECTION_STRING
           [SERVICE_BUS_CONNECTION_STRING; SERVICE_BUS_CONNECTION_STRING_KEY]
           (provisioned_service_bus cmd) s0 p0 eq_refl).
  inv_bind; [agrees_tac|intros []].
  eapply hoare_bind.
  { apply hoare_and.
    - apply hoare_preserves. agrees_tac.
    - apply hoare_always, service_bus_returns. }
  intros [[conn sb_id]|] st1 r st2 [HI Hc] E; [|discriminate E].
  mrun_in E. injection E as <- <-. exists conn. split; [exact Hc|].
  intros k Hk. cbn [settings protected].
  destruct (HI k Hk) as [H1 H2].
  apply watched_cons in Hk as [->|Hk];
    [|apply watched_cons in Hk as [->|Hk]; [|discriminate Hk]].
  - rewrite !lookup_insert_eq.
    rewrite !lookup_insert_ne by discriminate. auto.
  - rewrite !lookup_insert_ne by discriminate. auto.
Qed.

End ProvisionStrings.

Section CreateManifest.

Context (cmd : Env).
Context (resource_group_name cluster_name name cluster_type : string).
Context (the_extension_type : string) (the_scope : option string).
Context (the_auto_upgrade : option bool).
Context (the_release_train the_version : option string).
Context (target_namespace release_namespace : option string).
Context (settings_file protected_settings_file : option string).

Local Abbreviation Create_here :=
  (Create cmd resource_group_name cluster_name name cluster_type
     the_extension_type the_scope the_auto_upgrade the_release_train
     the_version target_namespace release_namespace TheSettings TheProtected
     settings_file protected_settings_file).

Local Abbreviation the_release_namespace :=
  (if falsy_str release_namespace then DEFAULT_RELEASE_NAMESPACE
   else default "" release_namespace).

(** The manifest [Create] builds from the two dictionaries. *)
Local Abbreviation manifest_of s p :=
  {| extension_type := the_extension_type;
     auto_upgrade_minor_version := the_auto_upgrade;
     release_train := default "stable" the_release_train;
     version := the_version;
     scope := {| scope_cluster :=
                   Some {| sc_release_namespace := the_release_namespace |};
                 scope_namespace := None |};
     configuration_settings := _dereference reference_mapping s;
     configuration_protected_settings := _dereference reference_mapping p;
     identity := None;
     location := "" |}.

Lemma validate_post (rn : string) :
  hoare (fun _ => True) (__validate_config cmd TheSettings TheProtected rn)
    (fun _ => create_inv [ENABLE_INFERENCE; ENABLE_TRAINING]).
Proof.
  unfold __validate_config. cbv zeta.
  do 6 (apply hoare_any_bind; intros ?).
  hoare_run. split; intros k Hk; simpl;
    apply watched_cons in Hk as [->|Hk];
    try (apply watched_cons in Hk as [->|Hk]); try discriminate Hk.
  - apply dom_insert_here.
  - apply dom_insert_there, dom_insert_here.
  - apply dom_delete_not, dom_delete_here.
  - apply dom_delete_here.
Qed.

Lemma Create_post :
  hoare (fun _ => True) Create_here
    (fun r st' =>
       (create_inv [CLUSTER_NAME_FRIENDLY_KEY; JOB_SCHEDULER_LOCATION_KEY;
                    "location"; "domain"; "cluster_name";
                    ENABLE_INFERENCE; ENABLE_TRAINING] st'
        /\ either_has RELAY_SERVER_CONNECTION_STRING st'
        /\ either_has SERVICE_BUS_CONNECTION_STRING st')
       /\ r = (manifest_of (settings st') (protected st'), name, true)).
Proof.
  unfold Create. cbv zeta.
  apply hoare_any_bind; intros [].
  apply (hoare_bind _ _ (fun _ => create_inv [ENABLE_INFERENCE; ENABLE_TRAINING]));
    [apply validate_post|intros []].
  cbv beta.
  inv_bind; [create_inv_tac|intros [cluster_rp parent_api_version]].
  cbv beta iota.
  inv_bind; [create_inv_tac|intros resource_location].
  do 5 (inv_bind; [apply preserves_read|intros ?];
        eapply hoare_bind; [apply create_inv_grow|intros []; cbv beta]).
  eapply hoare_bind.
  { apply hoare_and.
    - apply hoare_preserves. create_inv_tac.
    - apply hoare_always, provision_post. }
  intros []. hoare_run. split; [exact HP|reflexivity].
Qed.

Lemma has_key_true k (d : gmap string value) : k ∈ dom d -> has_key k d = true.
Proof. intros H. apply bool_decide_eq_true_2. exact H. Qed.

Lemma has_key_false k (d : gmap string value) : k ∉ dom d -> has_key k d = false.
Proof. intros H. apply bool_decide_eq_false_2. exact H. Qed.

Lemma present_concrete k ref_key (st : store) :
  (ref_key, [k]) ∈ reference_mapping ->
  either_has ref_key st ->
  present k (_dereference reference_mapping (settings st))
    (_dereference reference_mapping (protected st)) = true.
Proof.
  intros Hin [H|H]; unfold present; apply orb_true_iff; [left|right];
    apply has_key_true;
    apply (dereference_concrete reference_mapping _ ref_key [k] k Hin);
    first [left | exact H].
Qed.

Ltac Create_string_tac provision :=
  unfold Create; cbv zeta;
  inv_bind; [agrees_tac|intros []];
  inv_bind; [agrees_tac|intros []];
  inv_bind; [agrees_tac|intros [cluster_rp parent_api_version]];
  cbv beta iota;
  inv_bind; [agrees_tac|intros resource_location];
  do 5 (inv_bind; [agrees_tac|intros ?]; inv_bind; [agrees_tac|intros []]);
  eapply hoare_bind; [apply provision|];
  let st1 := fresh "st" in
  let r := fresh "r" in
  let st2 := fresh "st" in
  let p1 := fresh "p" in
  let HI := fresh "HI" in
  let Ho := fresh "Ho" in
  let E := fresh "E" in
  let Es := fresh "Es" in
  intros [] st1 r st2 (p1 & HI & Ho) E; mrun_in E;
  pose proof (f_equal snd E) as Es; cbn [snd] in Es; subst st2;
  exists p1; split; [exact HI|exact Ho].

Lemma Create_relay_string (s0 p0 : gmap string value) :
  hoare (agrees_on [RELAY_SERVER_CONNECTION_STRING; RELAY_CONNECTION_STRING_KEY]
           s0 p0)
    Create_here
    (fun _ st =>
       exists p1,
         agrees_on [RELAY_SERVER_CONNECTION_STRING; RELAY_CONNECTION_STRING_KEY]
           s0 p1 st
         /\ string_outcome (provisioned_relay cmd)
              RELAY_SERVER_CONNECTION_STRING s0 p0 p1).
Proof. Create_string_tac provision_relay. Qed.

Lemma Create_service_bus_string (s0 p0 : gmap string value) :
  hoare (agrees_on [SERVICE_BUS_CONNECTION_STRING;
                    SERVICE_BUS_CONNECTION_STRING_KEY] s0 p0)
    Create_here
    (fun _ st =>
       exists p1,
         agrees_on [SERVICE_BUS_CONNECTION_STRING;
                    SERVICE_BUS_CONNECTION_STRING_KEY] s0 p1 st
         /\ string_outcome (provisioned_service_bus cmd)
              SERVICE_BUS_CONNECTION_STRING s0 p0 p1).
Proof. Create_string_tac provision_service_bus. Qed.

Lemma agrees_on_refl keys (st : store) :
  agrees_on keys (settings st) (protected st) st.
Proof. intros k _. auto. Qed.

Lemma holds_string_of (provisioned : string -> Prop) (key chart : string)
    (s0 p0 p1 : gmap string value) (st' : store) (ext : Extension) :
  key <> chart ->
  configuration_settings ext !! chart = chart_entry key chart (settings st') ->
  configuration_protected_settings ext !! chart
  = chart_entry key chart (protected st') ->
  agrees_on [key; chart] s0 p1 st' ->
  string_outcome provisioned key s0 p0 p1 ->
  holds_string provisioned key chart s0 p0 ext.
Proof.
  intros Hne Hs Hp HI Ho.
  assert (Hk : watched [key; chart] key = true).
  { unfold watched. cbn [existsb]. rewrite String.eqb_refl. reflexivity. }
  assert (Hc : watched [key; chart] chart = true).
  { unfold watched. cbn [existsb]. rewrite String.eqb_refl.
    apply orb_true_iff. right. reflexivity. }
  destruct (HI key Hk) as [Hsk Hpk]. destruct (HI chart Hc) as [Hsc Hpc].
  unfold holds_string. split.
  - rewrite Hs. apply chart_entry_agrees; assumption.
  - unfold string_outcome in Ho.
    destruct (has_truthy key s0 p0).
    + subst p1. rewrite Hp. apply chart_entry_agrees; assumption.
    + destruct Ho as (conn & Hconn & ->). exists conn. split; [exact Hconn|].
      rewrite Hp. unfold chart_entry, get_default.
      rewrite Hpk, Hpc, lookup_insert_eq.
      rewrite lookup_insert_ne by exact Hne. reflexivity.
Qed.

(** X22.  The manifest [Create] returns always has, in its settings, the
    two enable flags, cluster_name, domain, location, jobSchedulerLocation,
    cluster_name_friendly and the two keys derived from cluster_name; never
    has the enable flags in its protected settings; and has the relay and
    the service bus connection strings under their chart keys, in the
    settings or in the protected settings.  What it has there: the settings
    have what [_dereference] leaves of the settings [Create] was given, that
    is their own value under the chart key, and else the connection string
    they have; the protected settings likewise when a non-empty connection
    string was given, in either dictionary; and when none was, the
    connection string that the service answered the request for the keys
    with, unless the protected settings were given a value of their own
    under the chart key. *)
Theorem Create_manifest (st st' : store) (ext : Extension) (n : string)
    (create_identity : bool) :
  Create_here st = (inr (ext, n, create_identity), st') ->
  forallb (fun k => has_key k (configuration_settings ext)) generated_keys
  = true
  /\ has_key ENABLE_TRAINING (configuration_protected_settings ext) = false
  /\ has_key ENABLE_INFERENCE (configuration_protected_settings ext) = false
  /\ present RELAY_CONNECTION_STRING_KEY (configuration_settings ext)
       (configuration_protected_settings ext) = true
  /\ present SERVICE_BUS_CONNECTION_STRING_KEY (configuration_settings ext)
       (configuration_protected_settings ext) = true
  /\ holds_string (provisioned_relay cmd) RELAY_SERVER_CONNECTION_STRING
       RELAY_CONNECTION_STRING_KEY (settings st) (protected st) ext
  /\ holds_string (provisioned_service_bus cmd) SERVICE_BUS_CONNECTION_STRING
       SERVICE_BUS_CONNECTION_STRING_KEY (settings st) (protected st) ext.
Proof.
  intros H.
  destruct (Create_post st _ st' I H) as [[[Hs Hp] [Hr Hb]] Heq].
  destruct (Create_relay_string (settings st) (protected st) st _ st'
              (agrees_on_refl _ st) H) as (p1 & HI1 & Ho1).
  destruct (Create_service_bus_string (settings st) (protected st) st _ st'
              (agrees_on_refl _ st) H) as (p2 & HI2 & Ho2).
  pose proof (f_equal (fun r => fst (fst r)) Heq) as Hext.
  cbn [fst] in Hext. rewrite Hext.
  cbn [configuration_settings configuration_protected_settings].
  clear Heq Hext H.
  assert (Hin : forall k,
            watched [CLUSTER_NAME_FRIENDLY_KEY; JOB_SCHEDULER_LOCATION_KEY;
                     "location"; "domain"; "cluster_name";
                     ENABLE_INFERENCE; ENABLE_TRAINING] k = true ->
            has_key k (_dereference reference_mapping (settings st')) = true).
  { intros k Hk. apply has_key_true, dereference_dom, Hs, Hk. }
  assert (Hc : forall k,
            k ∈ ["clusterId";
                 "prometheus.prometheusSpec.externalLabels.cluster_name"] ->
            has_key k (_dereference reference_mapping (settings st')) = true).
  { intros k Hk. apply has_key_true.
    apply (dereference_concrete reference_mapping _ "cluster_name"
             ["clusterId";
              "prometheus.prometheusSpec.externalLabels.cluster_name"] k);
      [do 2 right; left|exact Hk|apply Hs; reflexivity]. }
  split; [|split; [|split; [|split; [|split; [|split]]]]].
  - unfold generated_keys. cbn [forallb].
    rewrite !Hin by reflexivity.
    rewrite (Hc "clusterId") by left.
    rewrite (Hc "prometheus.prometheusSpec.externalLabels.cluster_name")
      by (right; left).
    reflexivity.
  - apply has_key_false, dereference_not_dom; [reflexivity|].
    apply Hp. reflexivity.
  - apply has_key_false, dereference_not_dom; [reflexivity|].
    apply Hp. reflexivity.
  - apply (present_concrete _ RELAY_SERVER_CONNECTION_STRING); [left|exact Hr].
  - apply (present_concrete _ SERVICE_BUS_CONNECTION_STRING);
      [right; left|exact Hb].
  - apply (holds_string_of _ _ _ _ _ p1 st');
      [discriminate|apply dereference_relay_chart
      |apply dereference_relay_chart|exact HI1|exact Ho1].
  - apply (holds_string_of _ _ _ _ _ p2 st');
      [discriminate|apply dereference_service_bus_chart
      |apply dereference_service_bus_chart|exact HI2|exact Ho2].
Qed.

(** X23.  What [Create] returns with the manifest: the name it was given
    and a request to create an identity; the manifest has the release train
    'stable' when none is given, the cluster scope with the release
    namespace 'azureml' when none or an empty one is given, no namespace
    scope, no identity and an empty location; and its two dictionaries are
    the dereferenced copies of the caller's dictionaries as [Create] left
    them. *)
Theorem Create_manifest_shape (st st' : store) (ext : Extension) (n : string)
    (create_identity : bool) :
  Create_here st = (inr (ext, n, create_identity), st') ->
  n = name /\ create_identity = true
  /\ ext = {| extension_type := the_extension_type;
              auto_upgrade_minor_version := the_auto_upgrade;
              release_train := default "stable" the_release_train;
              version := the_version;
              scope :=
                {| scope_cluster :=
                     Some {| sc_release_namespace :=
                               if falsy_str release_namespace then "azureml"
                               else default "" release_namespace |};
                   scope_namespace := None |};
              configuration_settings :=
                _dereference reference_mapping (settings st');
              configuration_protected_settings :=
                _dereference reference_mapping (protected st');
              identity := None;
              location := "" |}.
Proof.
  intros H. destruct (Create_post st _ st' I H) as [_ Heq].
  pose proof (f_equal (fun r => fst (fst r)) Heq) as Hext.
  pose proof (f_equal (fun r => snd (fst r)) Heq) as Hn.
  pose proof (f_equal snd Heq) as Hc.
  cbn [fst snd] in Hext, Hn, Hc. auto.
Qed.

End CreateManifest.

Lemma Create_manifest_witness :
  match sample_Create sample_env (Some "cluster")
          {["enableTraining" := VStr "true"]} ∅ with
  | (inr (ext, _, _), _) =>
      forallb (fun k => has_key k (configuration_settings ext)) generated_keys
      = true
      /\ configuration_protected_settings ext
         !! "relayserver.relayConnectionString" = Some (VStr "relay-key")
      /\ configuration_protected_settings ext !! "servicebus.connectionString"
         = Some (VStr "sb-key")
  | (inl _, _) => False
  end.
Proof.
  assert (R : returned (sample_Create sample_env (Some "cluster")
                          {["enableTraining" := VStr "true"]} ∅) = true)
    by (vm_compute; reflexivity).
  destruct (sample_Create sample_env (Some "cluster")
              {["enableTraining" := VStr "true"]} ∅)
    as [[e|[[ext n] ci]] st'] eqn:E.
  - discriminate R.
  - destruct (Create_manifest sample_env "rg" "mycluster" "amlarc"
                "connectedClusters" "Microsoft.AzureML.Kubernetes"
                (Some "cluster") None None None None None None None
                (initial {["enableTraining" := VStr "true"]} ∅) st' ext n ci E)
      as (H & _ & _ & _ & _ & [_ Hrelay] & [_ Hbus]).
    split; [exact H|].
    change (has_truthy _ _ _) with false in Hrelay, Hbus.
    destruct Hrelay as (conn & (rg & ns & hc & rule & Hconn) & Hrelay).
    destruct Hbus as (conn' & (rg' & ns' & rule' & Hconn') & Hbus).
    injection Hconn as <-. injection Hconn' as <-.
    split; [exact Hrelay|exact Hbus].
Defined.

Lemma Create_manifest_shape_witness :
  match sample_Create sample_env (Some "cluster")
          {["enableTraining" := VStr "true"]} ∅ with
  | (inr (ext, n, _), _) =>
      n = "amlarc" /\ release_train ext = "stable"
      /\ scope_cluster (scope ext) = Some {| sc_release_namespace := "azureml" |}
  | (inl _, _) => False
  end.
Proof.
  assert (R : returned (sample_Create sample_env (Some "cluster")
                          {["enableTraining" := VStr "true"]} ∅) = true)
    by (vm_compute; reflexivity).
  destruct (sample_Create sample_env (Some "cluster")
              {["enableTraining" := VStr "true"]} ∅)
    as [[e|[[ext n] ci]] st'] eqn:E.
  - discriminate R.
  - destruct (Create_manifest_shape sample_env "rg" "mycluster" "amlarc"
                "connectedClusters" "Microsoft.AzureML.Kubernetes"
                (Some "cluster") None None None None None None None
                (initial {["enableTraining" := VStr "true"]} ∅) st' ext n ci E)
      as (-> & _ & ->).
    auto.
Defined.

(** ** [__normalize_config] and [_check_nodeselector_existed] *)

Section Normalize.

(** [_check_nodeselector_existed] answers true exactly when some key of the
    settings or of the protected settings contains 'nodeSelector', in that
    letter case, anywhere in its name; the order in which the keys are
    visited does not matter. *)
Lemma check_nodeselector_spec (cs cps : gmap string value) :
  _check_nodeselector_existed cs cps = true
  <-> exists k, (k ∈ dom cs \/ k ∈ dom cps)
                /\ PyStr.contains "nodeSelector" k = true.
Proof.
  unfold _check_nodeselector_existed. cbv zeta. rewrite existsb_exists.
  split.
  - intros (k & Hin & Hk). exists k. split; [|exact Hk].
    apply list_elem_of_In, elem_of_elements, elem_of_union in Hin. exact Hin.
  - intros (k & Hin & Hk). exists k. split; [|exact Hk].
    apply list_elem_of_In, elem_of_elements, elem_of_union. exact Hin.
Qed.

Lemma lookup_insert_same (d : gmap string value) k v :
  <[k := v]> d !! k = Some v.
Proof. apply lookup_insert_eq. Qed.

Ltac lookups :=
  repeat first
    [ rewrite lookup_insert_same
    | rewrite lookup_insert_ne by (intros Hq; discriminate Hq) ].

(** X24.  The normalisation [Update] starts with never fails and touches
    nothing but three keys of the settings.  For each of the flags
    inferenceLoadBalancerHA, privateEndpointNodeport and privateEndpointILB
    that is given, it sets clusterPurpose to DevTest or FastProd and the two
    service types to whether the flag reads 'true': a flag given with
    another value is written as False, and both service types can be set to
    True at once. *)
Theorem normalize_config_spec (st : store) :
  let s := settings st in
  let p := protected st in
  exists st',
    __normalize_config TheSettings TheProtected st = (inr tt, st')
    /\ protected st' = p /\ copied st' = copied st
    /\ (forall k,
          watched ["clusterPurpose"; "scoringFe.serviceType.nodePort";
                   "scoringFe.serviceType.internalLoadBalancer"] k = false ->
          settings st' !! k = s !! k)
    /\ settings st' !! "clusterPurpose"
       = (if given_flag inferenceLoadBalancerHA s p
          then Some (VStr (if reads "false" inferenceLoadBalancerHA s p
                           then "DevTest" else "FastProd"))
          else s !! "clusterPurpose")
    /\ settings st' !! "scoringFe.serviceType.nodePort"
       = (if given_flag privateEndpointNodeport s p
          then Some (VBool (reads "true" privateEndpointNodeport s p))
          else s !! "scoringFe.serviceType.nodePort")
    /\ settings st' !! "scoringFe.serviceType.internalLoadBalancer"
       = (if given_flag privateEndpointILB s p
          then Some (VBool (reads "true" privateEndpointILB s p))
          else s !! "scoringFe.serviceType.internalLoadBalancer").
Proof.
  intros s p. subst s p. unfold __normalize_config, given_flag, reads. mrun.
  assert (Hw : forall k k',
            watched ["clusterPurpose"; "scoringFe.serviceType.nodePort";
                     "scoringFe.serviceType.internalLoadBalancer"] k = false ->
            watched ["clusterPurpose"; "scoringFe.serviceType.nodePort";
                     "scoringFe.serviceType.internalLoadBalancer"] k' = true ->
            k' <> k).
  { intros k k' H H' ->. congruence. }
  destruct (is_not_None
              (_get_value_from_config_protected_config
                 inferenceLoadBalancerHA (settings st) (protected st))) eqn:E1;
    [destruct (str_lower_is "false"
                 (_get_value_from_config_protected_config
                    inferenceLoadBalancerHA (settings st) (protected st)))|];
    mrun; rewrite ?effective_insert_ne by discriminate;
    (destruct (is_not_None
                 (_get_value_from_config_protected_config
                    privateEndpointNodeport (settings st) (protected st))) eqn:E2);
    mrun; rewrite ?effective_insert_ne by discriminate;
    (destruct (is_not_None
                 (_get_value_from_config_protected_config
                    privateEndpointILB (settings st) (protected st))) eqn:E3);
    mrun;
    (eexists; split; [reflexivity|]);
    cbn [settings protected copied];
    (split; [reflexivity|]); (split; [reflexivity|]);
    (split;
     [intros k Hk;
      rewrite ?lookup_insert_ne by (apply (Hw k); [exact Hk|reflexivity]);
      reflexivity|]);
    lookups; auto.
Qed.

End Normalize.

(** ** [Update] looks up only what is missing *)

Section UpdateSkips.

Context (I : store -> Prop).

Lemma preserves_try_except {A} (m : M A) (h : exn -> M A) :
  preserves I m -> (forall e, preserves I (h e)) ->
  preserves I (try_except m h).
Proof.
  intros Hm Hh st H. specialize (Hm st H). unfold try_except.
  destruct (m st) as [[e|a] st1]; simpl in *; [|exact Hm].
  apply Hh. exact Hm.
Qed.

Lemma emits_under_read (P : event -> bool) {B} (r : dict_ref)
    (k : gmap string value -> M B) :
  (forall st, I st ->
     emits_from P
       (k match r with
          | TheSettings => settings st
          | TheProtected => protected st
          | TheCopy => copied st
          end) st) ->
  emits_under I P (read r ≫= k).
Proof. intros H st HI. exact (H st HI). Qed.

Lemma emits_under_if (P : event -> bool) {A} (b : bool) (m1 m2 : M A) :
  emits_under I P m1 -> emits_under I P m2 ->
  emits_under I P (if b then m1 else m2).
Proof. destruct b; auto. Qed.

End UpdateSkips.

Ltac agrees_tac' :=
  repeat first
    [ agrees_step
    | lazymatch goal with
      | |- preserves _ (try_except _ _) =>
          apply preserves_try_except; [|intros ?]
      end
    | unfold_method ].

Ltac under_step' :=
  lazymatch goal with
  | |- emits_under _ _ (match ?x with _ => _ end) => destruct x
  | |- emits_under _ _ (_ ≫= _) =>
      apply emits_under_bind; [agrees_tac'|emits_tac|intros ?]
  end.

Section UpdateLookupsSkipped.

Context (cmd : Env).
Context (resource_group_name cluster_name : string).
Context (auto_upgrade_minor_version : option bool).
Context (release_train version : option string).
Context (yes : bool).

Local Abbreviation Update_here :=
  (Update cmd resource_group_name cluster_name auto_upgrade_minor_version
     release_train version TheSettings TheProtected yes).

Lemma agrees_has_key keys (s0 p0 : gmap string value) (st : store) k :
  agrees_on keys s0 p0 st -> watched keys k = true ->
  has_key k (protected st) = has_key k p0.
Proof.
  intros H Hk. destruct (H k Hk) as [_ Hp]. unfold has_key.
  apply bool_decide_ext. rewrite !elem_of_dom, Hp. reflexivity.
Qed.

Lemma emits_at {A} (P : event -> bool) (m : M A) (st : store) :
  emits P m -> emits_from P m st.
Proof. intros H. apply H. Qed.

(** X25.  [Update] looks up only the connection strings that are missing:
    when the protected settings already have the Log Analytics, the relay or
    the service bus connection string, whatever its value, the corresponding
    service is not called. *)
Theorem Update_skips_lookups (st : store) :
  (has_key AZURE_LOG_ANALYTICS_CONNECTION_STRING (protected st) = true ->
   emits_from (fun e => negb (is_workspace_call e)) Update_here st)
  /\ (has_key RELAY_SERVER_CONNECTION_STRING (protected st) = true ->
      emits_from (fun e => negb (is_relay_call e)) Update_here st)
  /\ (has_key SERVICE_BUS_CONNECTION_STRING (protected st) = true ->
      emits_from (fun e => negb (is_service_bus_call e)) Update_here st).
Proof.
  split; [|split]; intros Hk.
  - assert (H : emits_under
                  (agrees_on [AZURE_LOG_ANALYTICS_CONNECTION_STRING]
                     (settings st) (protected st))
                  (fun e => negb (is_workspace_call e)) Update_here).
    { unfold Update. do 4 under_step'.
      apply emits_under_then; [|intros ?; emits_tac].
      apply emits_under_if; [|apply emits_under_all, emits_ret].
      cbv zeta. apply emits_under_then; [|intros ?; emits_tac].
      unfold Update_log_analytics. apply emits_under_read.
      intros st1 HI.
      rewrite (agrees_has_key _ _ _ st1 AZURE_LOG_ANALYTICS_CONNECTION_STRING HI eq_refl), Hk.
      apply emits_at, emits_ret. }
    apply H, agrees_initially.
  - assert (H : emits_under
                  (agrees_on [RELAY_SERVER_CONNECTION_STRING]
                     (settings st) (protected st))
                  (fun e => negb (is_relay_call e)) Update_here).
    { unfold Update. do 4 under_step'.
      apply emits_under_then; [|intros ?; emits_tac].
      apply emits_under_if; [|apply emits_under_all, emits_ret].
      cbv zeta. under_step'.
      apply emits_under_then; [|intros ?; emits_tac].
      unfold Update_relay. apply emits_under_read.
      intros st1 HI.
      rewrite (agrees_has_key _ _ _ st1 RELAY_SERVER_CONNECTION_STRING HI eq_refl), Hk.
      apply emits_at, emits_ret. }
    apply H, agrees_initially.
  - assert (H : emits_under
                  (agrees_on [SERVICE_BUS_CONNECTION_STRING]
                     (settings st) (protected st))
                  (fun e => negb (is_service_bus_call e)) Update_here).
    { unfold Update. do 4 under_step'.
      apply emits_under_then; [|intros ?; emits_tac].
      apply emits_under_if; [|apply emits_under_all, emits_ret].
      cbv zeta. do 2 under_step'.
      apply emits_under_then; [|intros ?; emits_tac].
      unfold Update_service_bus. apply emits_under_read.
      intros st1 HI.
      rewrite (agrees_has_key _ _ _ st1 SERVICE_BUS_CONNECTION_STRING HI eq_refl), Hk.
      apply emits_at, emits_ret. }
    apply H, agrees_initially.
Qed.

End UpdateLookupsSkipped.

Lemma Update_skips_lookups_witness :
  emits_from (fun e => negb (is_relay_call e))
    (Update sample_env "rg" "mycluster" None None None TheSettings
       TheProtected true)
    (initial ∅ {["relayServerConnectionString" := VStr ""]}).
Proof.
  apply (Update_skips_lookups sample_env "rg" "mycluster" None None None true
           (initial ∅ {["relayServerConnectionString" := VStr ""]})).
  vm_compute. reflexivity.
Defined.

(** ** [Create] reads the PEM files it is given *)

Section CreateOpens.

Lemma value_eqb_refl (v : value) : value_eqb v v = true.
Proof.
  destruct v as [|s|b]; simpl;
    [reflexivity|apply String.eqb_refl|destruct b; reflexivity].
Qed.

Context (cmd : Env).

Lemma emits_read_b64 (P : event -> bool) (path : value) :
  P (OpenFile path) = true -> emits P (read_b64 cmd path).
Proof.
  intros H. unfold read_b64.
  apply emits_bind; [apply emits_emit; exact H|intros ?]. emits_tac.
Qed.

Lemma emits_ssl_from_file (cps : dict_ref) (cert key : value) :
  emits (opens_paths cert key) (__set_inference_ssl_from_file cmd cps cert key).
Proof.
  unfold __set_inference_ssl_from_file.
  apply emits_bind;
    [apply emits_read_b64; simpl; rewrite value_eqb_refl; reflexivity
    |intros ?].
  apply emits_bind; [emits_tac|intros ?].
  apply emits_bind;
    [apply emits_read_b64; simpl; rewrite value_eqb_refl; apply orb_true_r
    |intros ?].
  emits_tac.
Qed.

Context (s0 p0 : gmap string value).

Local Abbreviation paths_inv :=
  (agrees_on [sslCertPemFile; sslKeyPemFile] s0 p0).

Local Abbreviation given_paths :=
  (opens_paths (py_get p0 sslCertPemFile) (py_get p0 sslKeyPemFile)).

Lemma validate_opens (rn : string) :
  emits_under paths_inv given_paths
    (__validate_config cmd TheSettings TheProtected rn).
Proof.
  unfold __validate_config. cbv zeta.
  do 5 under_step.
  apply emits_under_then; [|intros ?; emits_tac].
  apply emits_under_if; [|apply emits_under_all; emits_tac].
  do 2 under_step.
  unfold __set_up_inference_ssl. cbv zeta.
  under_step.
  apply emits_under_if; [|apply emits_under_all; emits_tac].
  under_step.
  apply emits_under_read. intros st HI.
  destruct (agrees_py_get _ _ _ st sslCertPemFile HI eq_refl) as [_ ->].
  destruct (agrees_py_get _ _ _ st sslKeyPemFile HI eq_refl) as [_ ->].
  apply emits_at. apply emits_if; [apply emits_ssl_from_file|emits_tac].
Qed.

End CreateOpens.

Section CreateOpensTheorem.

Context (cmd : Env).
Context (resource_group_name cluster_name name cluster_type extension_type : string).
Context (scope : option string) (auto_upgrade_minor_version : option bool).
Context (release_train version target_namespace release_namespace : option string).
Context (settings_file protected_settings_file : option string).

Local Abbreviation Create_here :=
  (Create cmd resource_group_name cluster_name name cluster_type extension_type
     scope auto_upgrade_minor_version release_train version target_namespace
     release_namespace TheSettings TheProtected settings_file
     protected_settings_file).

(** X26.  The only files [Create] opens are the two whose paths the
    protected settings give under sslCertPemFile and sslKeyPemFile. *)
Theorem Create_opens_given_paths (st : store) :
  emits_from
    (opens_paths (py_get (protected st) sslCertPemFile)
       (py_get (protected st) sslKeyPemFile))
    Create_here st.
Proof.
  assert (H : emits_under
                (agrees_on [sslCertPemFile; sslKeyPemFile]
                   (settings st) (protected st))
                (opens_paths (py_get (protected st) sslCertPemFile)
                   (py_get (protected st) sslKeyPemFile))
                Create_here).
  { unfold Create. cbv zeta. under_step.
    apply emits_under_then; [apply validate_opens|intros ?; emits_tac]. }
  apply H, agrees_initially.
Qed.

End CreateOpensTheorem.

Lemma Create_opens_given_paths_witness :
  let p : gmap string value :=
    {["sslCertPemFile" := VStr "/tmp/cert.pem";
      "sslKeyPemFile" := VStr "/tmp/key.pem"]} in
  emits_from
    (opens_paths (py_get (protected (initial {["enableInference" := VStr "true"]} p))
                    sslCertPemFile)
       (py_get (protected (initial {["enableInference" := VStr "true"]} p))
          sslKeyPemFile))
    (Create sample_env "rg" "mycluster" "amlarc" "connectedClusters"
       "Microsoft.AzureML.Kubernetes" None None None None None None
       TheSettings TheProtected None None)
    (initial {["enableInference" := VStr "true"]} p)
  /\ py_get p sslCertPemFile = VStr "/tmp/cert.pem"
  /\ existsb is_open_file
       (trace (snd (sample_Create sample_env None
                      {["enableInference" := VStr "true"]} p))) = true.
Proof.
  intros p. split; [|split].
  - apply (Create_opens_given_paths sample_env "rg" "mycluster" "amlarc"
             "connectedClusters" "Microsoft.AzureML.Kubernetes" None None None
             None None None None None
             (initial {["enableInference" := VStr "true"]} p)).
  - vm_compute. reflexivity.
  - vm_compute. reflexivity.
Defined.

(** ** [Update]: what a failed lookup becomes *)

Section UpdateFailures.

Context (cmd : Env).
Context (resource_group_name cluster_name : string).
Context (the_auto_upgrade : option bool).
Context (the_release_train the_version : option string).
Context (yes : bool).

Local Abbreviation Update_here :=
  (Update cmd resource_group_name cluster_name the_auto_upgrade
     the_release_train the_version TheSettings TheProtected yes).

Local Abbreviation subscription := (get_subscription_id cmd).

(** The normalisation and the confirmation. *)
Local Abbreviation Update_head :=
  (__normalize_config TheSettings TheProtected;;
   config ← read TheSettings;
   if bool_decide (config ≠ ∅)
   then Update_prompt cmd TheSettings TheProtected yes
   else mret tt).

Local Abbreviation log_analytics_step :=
  (Update_log_analytics cmd TheProtected subscription resource_group_name
     cluster_name).

Local Abbreviation relay_step :=
  (Update_relay cmd TheProtected subscription resource_group_name
     cluster_name).

Local Abbreviation service_bus_step :=
  (Update_service_bus cmd TheProtected subscription resource_group_name
     cluster_name).

Local Abbreviation the_patch config protected_config :=
  {| patch_auto_upgrade_minor_version := the_auto_upgrade;
     patch_release_train := the_release_train;
     patch_version := the_version;
     patch_configuration_settings := config;
     patch_configuration_protected_settings := protected_config |}.

(** What [Update] does once the Log Analytics step is over. *)
Local Abbreviation Update_rest :=
  (cps' ←
     (relay_step;;
      service_bus_step;;
      protected_config ← read TheProtected;
      modify TheCopy (fun _ => _dereference reference_mapping protected_config);;
      copy ← read TheCopy;
      (if has_key sslKeyPemFile copy && has_key sslCertPemFile copy
       then info ("Both " +:+ sslKeyPemFile +:+ " and " +:+ sslCertPemFile
                  +:+ " are set, update ssl key.");;
            __set_inference_ssl_from_file cmd TheCopy (VStr sslCertPemFile)
              (VStr sslKeyPemFile)
       else mret tt);;
      mret TheCopy);
   config ← read TheSettings;
   protected_config ← read cps';
   mret (the_patch config protected_config)).

Lemma Update_lookups (st st1 : store) :
  Update_head st = (inr tt, st1) ->
  protected st ≠ ∅ ->
  protected st1 = protected st
  /\ Update_here st
     = match log_analytics_step st1 with
       | (inl e, st2) => (inl e, st2)
       | (inr _, st2) => Update_rest st2
       end.
Proof.
  intros Hhead Hne.
  assert (Hp : protected st1 = protected st).
  { pose proof (Update_head_keeps cmd yes st) as H. rewrite Hhead in H.
    exact H. }
  split; [exact Hp|].
  revert Hhead. unfold Update. cbv zeta. unfold mbind, M_bind, read.
  cbn beta iota.
  destruct (__normalize_config TheSettings TheProtected st) as [[e|[]] st0];
    [discriminate|].
  cbn beta iota.
  destruct (bool_decide (settings st0 ≠ ∅)).
  - destruct (Update_prompt cmd TheSettings TheProtected yes st0)
      as [[e|[]] st0']; [discriminate|].
    intros E. injection E as ->. rewrite Hp.
    rewrite bool_decide_eq_true_2 by exact Hne.
    destruct (log_analytics_step st1) as [[e|[]] st2]; reflexivity.
  - unfold mret at 1, M_ret at 1. intros E. injection E as ->.
    unfold mret at 1, M_ret at 1. cbn beta iota. rewrite Hp.
    rewrite bool_decide_eq_true_2 by exact Hne.
    destruct (log_analytics_step st1) as [[e|[]] st2]; reflexivity.
Qed.

Lemma protected_lack_ignores keys : ignores_trace (protected_lack keys).
Proof. intros s p c t t' H. exact H. Qed.

Lemma copied_lack_ignores keys : ignores_trace (copied_lack keys).
Proof. intros s p c t t' H. exact H. Qed.

Lemma protected_lack_write keys r k v :
  watched keys k = false -> preserves (protected_lack keys) (write r k v).
Proof.
  intros Hk st H k' Hk'. specialize (H k' Hk').
  destruct r; simpl; try exact H.
  apply dom_insert_not; [|exact H]. intros ->. congruence.
Qed.

Lemma copied_lack_write keys r k v :
  watched keys k = false -> preserves (copied_lack keys) (write r k v).
Proof.
  intros Hk st H k' Hk'. specialize (H k' Hk').
  destruct r; simpl; try exact H.
  apply dom_insert_not; [|exact H]. intros ->. congruence.
Qed.

Lemma hoare_read_protected {B} (P : store -> Prop)
    (k : gmap string value -> M B) (Q : B -> store -> Prop) :
  (forall d, hoare (fun st => P st /\ protected st = d) (k d) Q) ->
  hoare P (read TheProtected ≫= k) Q.
Proof.
  intros H st b st' HP E. exact (H (protected st) st b st' (conj HP eq_refl) E).
Qed.

Lemma agrees_absent keys (s0 p0 : gmap string value) (st : store) k :
  agrees_on keys s0 p0 st -> watched keys k = true ->
  k ∉ dom p0 -> k ∉ dom (protected st).
Proof.
  intros H Hk Hout. destruct (H k Hk) as [_ Hp].
  apply not_elem_of_dom. rewrite Hp. apply not_elem_of_dom. exact Hout.
Qed.

Lemma log_analytics_step_keeps_relay (s0 p0 : gmap string value) :
  preserves (agrees_on [RELAY_SERVER_CONNECTION_STRING] s0 p0)
    log_analytics_step.
Proof. agrees_tac'. Qed.

Lemma log_analytics_step_keeps_service_bus (s0 p0 : gmap string value) :
  preserves (agrees_on [SERVICE_BUS_CONNECTION_STRING] s0 p0)
    log_analytics_step.
Proof. agrees_tac'. Qed.

Lemma relay_step_keeps_service_bus (s0 p0 : gmap string value) :
  preserves (agrees_on [SERVICE_BUS_CONNECTION_STRING] s0 p0) relay_step.
Proof. agrees_tac'. Qed.

Ltac lack_tac ign wr :=
  repeat first
    [ inv_step ign wr
    | lazymatch goal with
      | |- preserves _ (try_except _ _) =>
          apply preserves_try_except; [|intros ?]
      end
    | unfold_method ].

Lemma Update_rest_lacks :
  hoare (protected_lack [AZURE_LOG_ANALYTICS_CONNECTION_STRING]) Update_rest
    (fun patch _ =>
       has_key AZURE_LOG_ANALYTICS_CONNECTION_STRING
         (patch_configuration_protected_settings patch) = false).
Proof.
  apply (hoare_bind _ _
           (fun cps' st =>
              cps' = TheCopy
              /\ copied_lack [AZURE_LOG_ANALYTICS_CONNECTION_STRING] st)).
  - apply hoare_inv_bind;
      [lack_tac ltac:(apply protected_lack_ignores)
         ltac:(apply protected_lack_write; reflexivity)
      |intros []].
    apply hoare_inv_bind;
      [lack_tac ltac:(apply protected_lack_ignores)
         ltac:(apply protected_lack_write; reflexivity)
      |intros []].
    apply hoare_read_protected. intros d.
    apply (hoare_bind _ _
             (fun _ => copied_lack [AZURE_LOG_ANALYTICS_CONNECTION_STRING])).
    + intros st a st' [HP Hd] E. mrun_in E.
      set (copy := _dereference reference_mapping d) in E.
      injection E as <- <-. subst copy. intros k Hk. cbn [copied].
      rewrite <- Hd.
      apply dereference_not_dom; [|exact (HP k Hk)].
      apply watched_cons in Hk as [->|Hk]; [reflexivity|discriminate Hk].
    + intros [].
      apply hoare_inv_bind; [apply preserves_read|intros copy].
      apply hoare_inv_bind;
        [lack_tac ltac:(apply copied_lack_ignores)
           ltac:(apply copied_lack_write; reflexivity)
        |intros []].
      apply hoare_ret. auto.
  - intros cps'. intros st patch st' [-> H] E. mrun_in E.
    injection E as <- <-. simpl. apply has_key_false, H. reflexivity.
Qed.

(** C6 (amended).  In a run of [Update] on protected settings that are not
    empty, once the normalisation and the confirmation are over, a failed
    lookup for a connection string whose key is absent from the caller's
    protected settings becomes the following.  Log Analytics: an HTTP
    response error is not fatal, whatever its status code (not found or
    not): it is logged, the protected settings are left as they were,
    [Update] goes on with the relay, and no patch it returns has the key.
    Relay and Service Bus: a response error is fatal for [Update]: status
    404 is raised as a resource-not-found error, any other status as an
    Azure response error. *)
Theorem Update_lookup_failures (st st1 st2 st3 st4 : store) (status_code : Z) :
  Update_head st = (inr tt, st1) ->
  protected st ≠ ∅ ->
  (AZURE_LOG_ANALYTICS_CONNECTION_STRING ∉ dom (protected st) ->
   _get_log_analytics_ws_connection_string cmd subscription
     resource_group_name cluster_name "" true st1
   = (inl (Foreign (HttpResponseError status_code)), st2) ->
   Update_here st
   = Update_rest
       (logged st2 [LogInfo "Failed to get log analytics connection string."])
   /\ protected st2 = protected st
   /\ forall patch st',
        Update_here st = (inr patch, st') ->
        has_key AZURE_LOG_ANALYTICS_CONNECTION_STRING
          (patch_configuration_protected_settings patch) = false)
  /\ (RELAY_SERVER_CONNECTION_STRING ∉ dom (protected st) ->
      log_analytics_step st1 = (inr tt, st2) ->
      _get_relay_connection_str cmd subscription resource_group_name
        cluster_name "" RELAY_HC_AUTH_NAME true st2
      = (inl (Foreign (ErrorResponseException status_code)), st3) ->
      Update_here st
      = (inl (if status_code =? 404
              then ResourceNotFoundError "Relay server not found."
              else AzureResponseError "Failed to get relay connection string."),
         st3))
  /\ (SERVICE_BUS_CONNECTION_STRING ∉ dom (protected st) ->
      log_analytics_step st1 = (inr tt, st2) ->
      relay_step st2 = (inr tt, st3) ->
      _get_service_bus_connection_string cmd subscription
        resource_group_name cluster_name "" [] true st3
      = (inl (Foreign (HttpResponseError status_code)), st4) ->
      Update_here st
      = (inl (if status_code =? 404
              then ResourceNotFoundError "Service bus not found."
              else AzureResponseError
                     "Failed to get service bus connection string."),
         st4)).
Proof.
  intros Hhead Hne.
  destruct (Update_lookups st st1 Hhead Hne) as [Hp Hupdate].
  split; [|split].
  - intros Hkey Hlookup.
    assert (Hkey1 : AZURE_LOG_ANALYTICS_CONNECTION_STRING ∉ dom (protected st1))
      by (rewrite Hp; exact Hkey).
    destruct (proj1 (lookup_step_failures cmd subscription resource_group_name
                       cluster_name st1 st2 status_code) Hkey1 Hlookup)
      as [Hstep Hp2].
    assert (Hrun : Update_here st
                   = Update_rest
                       (logged st2
                          [LogInfo "Failed to get log analytics connection string."])).
    { rewrite Hupdate, Hstep. reflexivity. }
    split; [exact Hrun|]. split; [rewrite Hp2; exact Hp|].
    intros patch st' H. rewrite Hrun in H.
    apply (Update_rest_lacks
             (logged st2
                [LogInfo "Failed to get log analytics connection string."])
             patch st'); [|exact H].
    intros k Hk. simpl. rewrite Hp2, Hp.
    apply watched_cons in Hk as [->|Hk]; [exact Hkey|discriminate Hk].
  - intros Hkey Hstep Hlookup.
    assert (Hkey2 : RELAY_SERVER_CONNECTION_STRING ∉ dom (protected st2)).
    { pose proof (log_analytics_step_keeps_relay (settings st1) (protected st1)
                    st1 (agrees_initially _ st1)) as H.
      rewrite Hstep in H.
      apply (agrees_absent _ _ _ _ RELAY_SERVER_CONNECTION_STRING H eq_refl).
      rewrite Hp. exact Hkey. }
    rewrite Hupdate, Hstep. cbn beta iota.
    apply bind_inl. apply bind_inl.
    exact (proj1 (proj2 (lookup_step_failures cmd subscription
                           resource_group_name cluster_name st2 st3
                           status_code)) Hkey2 Hlookup).
  - intros Hkey Hstep Hrelay Hlookup.
    assert (Hkey3 : SERVICE_BUS_CONNECTION_STRING ∉ dom (protected st3)).
    { pose proof (log_analytics_step_keeps_service_bus (settings st1)
                    (protected st1) st1 (agrees_initially _ st1)) as H.
      rewrite Hstep in H.
      pose proof (relay_step_keeps_service_bus (settings st1) (protected st1)
                    st2 H) as H'.
      rewrite Hrelay in H'.
      apply (agrees_absent _ _ _ _ SERVICE_BUS_CONNECTION_STRING H' eq_refl).
      rewrite Hp. exact Hkey. }
    rewrite Hupdate, Hstep. cbn beta iota.
    apply bind_inl. rewrite (bind_inr _ _ _ _ _ Hrelay). apply bind_inl.
    exact (proj2 (proj2 (lookup_step_failures cmd subscription
                           resource_group_name cluster_name st3 st4
                           status_code)) Hkey3 Hlookup).
Qed.

End UpdateFailures.

Lemma Update_lookup_failures_witness :
  let st := initial ∅ {["k" := VStr "v"]} in
  let run env :=
    Update env "rg" "mycluster" None None None TheSettings TheProtected true st in
  (forall patch st',
     run (lookup_env (inl (HttpResponseError 500)) (inr "relay-key")
            (inr "sb-id")) = (inr patch, st') ->
     has_key AZURE_LOG_ANALYTICS_CONNECTION_STRING
       (patch_configuration_protected_settings patch) = false)
  /\ fst (run (lookup_env (inr "shared") (inl (ErrorResponseException 404))
                 (inr "sb-id")))
     = inl (ResourceNotFoundError "Relay server not found.")
  /\ fst (run (lookup_env (inr "shared") (inr "relay-key")
                 (inl (HttpResponseError 503))))
     = inl (AzureResponseError "Failed to get service bus connection string.").
Proof.
  intros st run. split; [|split].
  - set (env := lookup_env (inl (HttpResponseError 500)) (inr "relay-key")
                  (inr "sb-id")).
    apply (proj1 (Update_lookup_failures env "rg" "mycluster" None None None
                    true st st
                    (logged st [Remote (WorkspacesGetSharedKeys "rg"
                                          "myclustersubrg")])
                    st st 500 eq_refl
                    ltac:(apply (bool_decide_unpack _); vm_compute; exact I))).
    + apply (bool_decide_unpack _). vm_compute. exact I.
    + vm_compute. reflexivity.
  - set (env := lookup_env (inr "shared") (inl (ErrorResponseException 404))
                  (inr "sb-id")).
    set (st2 := snd (Update_log_analytics env TheProtected "sub" "rg"
                       "mycluster" st)).
    set (st3 := snd (_get_relay_connection_str env "sub" "rg" "mycluster" ""
                       RELAY_HC_AUTH_NAME true st2)).
    unfold run.
    rewrite (proj1 (proj2 (Update_lookup_failures env "rg" "mycluster" None
                             None None true st st st2 st3 st 404 eq_refl
                             ltac:(apply (bool_decide_unpack _); vm_compute;
                                   exact I)))).
    + reflexivity.
    + apply (bool_decide_unpack _). vm_compute. exact I.
    + vm_compute. reflexivity.
    + vm_compute. reflexivity.
  - set (env := lookup_env (inr "shared") (inr "relay-key")
                  (inl (HttpResponseError 503))).
    set (st2 := snd (Update_log_analytics env TheProtected "sub" "rg"
                       "mycluster" st)).
    set (st3 := snd (Update_relay env TheProtected "sub" "rg" "mycluster" st2)).
    set (st4 := snd (_get_service_bus_connection_string env "sub" "rg"
                       "mycluster" "" [] true st3)).
    unfold run.
    rewrite (proj2 (proj2 (Update_lookup_failures env "rg" "mycluster" None
                             None None true st st st2 st3 st4 503 eq_refl
                             ltac:(apply (bool_decide_unpack _); vm_compute;
                                   exact I)))).
    + reflexivity.
    + apply (bool_decide_unpack _). vm_compute. exact I.
    + vm_compute. reflexivity.
    + vm_compute. reflexivity.
    + vm_compute. reflexivity.
Defined.

(** ** [_get_valid_name] on every string *)

Section UnicodeFacts.

Lemma points_cons (c : ascii) (s : string) :
  Unicode.points (String c s) = PyStr.code c :: Unicode.points s.
Proof. reflexivity. Qed.

Lemma points_append (a b : string) :
  Unicode.points (a +:+ b) = Unicode.points a ++ Unicode.points b.
Proof.
  induction a as [|c a IH]; [reflexivity|].
  change (String c a +:+ b) with (String c (a +:+ b)).
  rewrite !points_cons, IH. reflexivity.
Qed.

Lemma length_points (s : string) :
  length (Unicode.points s) = String.length s.
Proof.
  induction s as [|c s IH]; [reflexivity|]. rewrite points_cons. simpl.
  rewrite IH. reflexivity.
Qed.

Lemma len_points (s : string) : Unicode.len (Unicode.points s) = PyStr.len s.
Proof. unfold Unicode.len, PyStr.len. rewrite length_points. reflexivity. Qed.

Lemma len_slice (s : list Z) (n : Z) :
  0 <= n <= Unicode.len s -> Unicode.len (Unicode.slice_to s n) = n.
Proof.
  intros H. unfold Unicode.slice_to, Unicode.len in *.
  destruct (Z.leb_spec 0 n); [|lia].
  rewrite length_firstn. lia.
Qed.

Lemma encode_surrogate (s : list Z) :
  Unicode.encode_utf8 s = None <-> Unicode.has_surrogate s = true.
Proof.
  induction s as [|z s IH]; [split; discriminate|].
  simpl. unfold Unicode.utf8_point.
  destruct (Unicode.is_surrogate z) eqn:Hz.
  - unfold Unicode.is_surrogate, PyStr.between in Hz.
    apply andb_true_iff in Hz as [H1 H2].
    apply Z.leb_le in H1. apply Z.leb_le in H2.
    destruct (Z.ltb_spec z 128); [lia|].
    destruct (Z.ltb_spec z 2048); [lia|]. simpl. split; reflexivity.
  - simpl. rewrite <- IH.
    destruct (z <? 128); [|destruct (z <? 2048); [|destruct (z <? 65536)]];
      destruct (Unicode.encode_utf8 s); split; congruence.
Qed.

End UnicodeFacts.

Section ValidNameUnicode.

(** [str.isalnum], whatever it answers on each code point. *)
Context (isalnum : Z -> bool).

Local Abbreviation normalized_points input_name :=
  (List.filter isalnum input_name).

Lemma valid_name_points_fits (input_name : list Z) (suffix_len max_len : Z)
    (st : store) :
  normalized_points input_name <> [] ->
  Unicode.len (normalized_points input_name) <= max_len ->
  Unicode._get_valid_name isalnum input_name suffix_len max_len st
  = (inr (normalized_points input_name), st).
Proof.
  intros Hne Hle. unfold Unicode._get_valid_name. cbv zeta.
  destruct (normalized_points input_name) as [|z l] eqn:E; [congruence|].
  destruct (Z.leb_spec (Unicode.len (z :: l)) max_len); [|lia].
  reflexivity.
Qed.

Lemma valid_name_points_long (input_name : list Z) (max_len : Z) (st : store) :
  max_len < Unicode.len (normalized_points input_name) ->
  6 <= max_len ->
  Unicode._get_valid_name isalnum input_name 6 max_len st
  = match Unicode.encode_utf8 input_name with
    | None => (inl UnicodeEncodeError, st)
    | Some input_bytes =>
        (inr (Unicode.slice_to (normalized_points input_name) (max_len - 6)
              ++ Unicode.points
                   (PyStr.slice_to (MD5.hexdigest input_bytes) 6)), st)
    end.
Proof.
  intros Hlt H6. unfold Unicode._get_valid_name. cbv zeta.
  destruct (normalized_points input_name) as [|z l] eqn:E.
  { unfold Unicode.len in Hlt. simpl in Hlt. lia. }
  destruct (Z.leb_spec (Unicode.len (z :: l)) max_len); [lia|].
  unfold mbind, M_bind.
  destruct (Z.ltb_spec max_len 6); [lia|].
  unfold mret, M_ret. cbn beta iota.
  destruct (Unicode.encode_utf8 input_name); reflexivity.
Qed.

Lemma valid_name_points_store (input_name : list Z) (suffix_len max_len : Z)
    (st st' : store) :
  fst (Unicode._get_valid_name isalnum input_name suffix_len max_len st)
  = fst (Unicode._get_valid_name isalnum input_name suffix_len max_len st').
Proof.
  unfold Unicode._get_valid_name. cbv zeta.
  destruct (normalized_points input_name); [reflexivity|].
  destruct (Z.leb _ _); [reflexivity|].
  unfold mbind, M_bind.
  destruct (Z.ltb _ _); unfold mret, M_ret, warning, emit; cbn beta iota;
    destruct (Unicode.encode_utf8 input_name); reflexivity.
Qed.

(** C8 (amended).  [_get_valid_name] with suffix length 6, on every Python
    string, whatever [str.isalnum] answers on its characters.  An input
    whose alphanumeric-filtered form is not empty and has at most [max_len]
    characters is returned filtered and otherwise unchanged.  An input whose
    filtered form is longer than [max_len], for [max_len] at least 6: if it
    holds no lone surrogate, so that it has a UTF-8 encoding, the name has
    exactly [max_len] characters and ends with the first 6 characters of
    the MD5 hex digest of that encoding of the unfiltered input; if it holds
    a lone surrogate, the call fails with a [UnicodeEncodeError].  And the
    result does not depend on the store the function is called in. *)
Theorem valid_name_spec (input_name : list Z) (max_len : Z) (st : store) :
  (normalized_points input_name <> [] ->
   Unicode.len (normalized_points input_name) <= max_len ->
   Unicode._get_valid_name isalnum input_name 6 max_len st
   = (inr (normalized_points input_name), st))
  /\ (max_len < Unicode.len (normalized_points input_name) ->
      6 <= max_len ->
      (Unicode.has_surrogate input_name = false ->
       exists input_bytes out,
         Unicode.encode_utf8 input_name = Some input_bytes
         /\ Unicode._get_valid_name isalnum input_name 6 max_len st
            = (inr out, st)
         /\ Unicode.len out = max_len
         /\ Unicode.len
              (Unicode.points (PyStr.slice_to (MD5.hexdigest input_bytes) 6))
            = 6
         /\ out = Unicode.slice_to (normalized_points input_name) (max_len - 6)
                  ++ Unicode.points
                       (PyStr.slice_to (MD5.hexdigest input_bytes) 6))
      /\ (Unicode.has_surrogate input_name = true ->
          Unicode._get_valid_name isalnum input_name 6 max_len st
          = (inl UnicodeEncodeError, st)))
  /\ (forall st',
        fst (Unicode._get_valid_name isalnum input_name 6 max_len st')
        = fst (Unicode._get_valid_name isalnum input_name 6 max_len st)).
Proof.
  split; [|split].
  - apply valid_name_points_fits.
  - intros Hlt H6. pose proof (valid_name_points_long input_name max_len st
                                 Hlt H6) as Hrun.
    split.
    + intros Hs.
      destruct (Unicode.encode_utf8 input_name) as [input_bytes|] eqn:E.
      2:{ apply encode_surrogate in E. congruence. }
      exists input_bytes. eexists. split; [reflexivity|].
      split; [exact Hrun|].
      assert (Hhex : Unicode.len
                       (Unicode.points
                          (PyStr.slice_to (MD5.hexdigest input_bytes) 6)) = 6).
      { rewrite len_points. apply len_slice_to. unfold PyStr.len.
        rewrite length_hexdigest. lia. }
      split; [|split; [exact Hhex|reflexivity]].
      unfold Unicode.len in *. rewrite length_app, Nat2Z.inj_add, Hhex.
      fold (Unicode.len (Unicode.slice_to (normalized_points input_name)
                           (max_len - 6))).
      rewrite len_slice; unfold Unicode.len; lia.
    + intros Hs. apply encode_surrogate in Hs. rewrite Hs in Hrun.
      exact Hrun.
  - intros st'. apply valid_name_points_store.
Qed.

End ValidNameUnicode.

Lemma valid_name_spec_witness :
  Unicode._get_valid_name Unicode.isalnum_latin1
    (Unicode.points "my-cluster") 6 50 (Store ∅ ∅ ∅ [])
  = (inr (Unicode.points "mycluster"), Store ∅ ∅ ∅ [])
  /\ (exists input_bytes out,
        Unicode.encode_utf8 (Unicode.points "abc-defgh-ijk")
        = Some input_bytes
        /\ Unicode._get_valid_name Unicode.isalnum_latin1
             (Unicode.points "abc-defgh-ijk") 6 8 (Store ∅ ∅ ∅ [])
           = (inr out, Store ∅ ∅ ∅ [])
        /\ Unicode.len out = 8
        /\ Unicode.len
             (Unicode.points (PyStr.slice_to (MD5.hexdigest input_bytes) 6))
           = 6
        /\ out = Unicode.slice_to
                   (List.filter Unicode.isalnum_latin1
                      (Unicode.points "abc-defgh-ijk")) (8 - 6)
                 ++ Unicode.points
                      (PyStr.slice_to (MD5.hexdigest input_bytes) 6))
  /\ Unicode._get_valid_name Unicode.isalnum_latin1
       (repeat 97 60 ++ [56575]) 6 50 (Store ∅ ∅ ∅ [])
     = (inl UnicodeEncodeError, Store ∅ ∅ ∅ []).
Proof.
  split; [|split].
  - apply (proj1 (valid_name_spec Unicode.isalnum_latin1
                    (Unicode.points "my-cluster") 50 (Store ∅ ∅ ∅ []))).
    + vm_compute. discriminate.
    + vm_compute. discriminate.
  - apply (proj1 (proj2 (valid_name_spec Unicode.isalnum_latin1
                           (Unicode.points "abc-defgh-ijk") 8
                           (Store ∅ ∅ ∅ [])))).
    + vm_compute. reflexivity.
    + lia.
    + vm_compute. reflexivity.
  - apply (proj1 (proj2 (valid_name_spec Unicode.isalnum_latin1
                           (repeat 97 60 ++ [56575]) 50 (Store ∅ ∅ ∅ [])))).
    + vm_compute. reflexivity.
    + lia.
    + vm_compute. reflexivity.
Defined.

(** C8 as stated fails in three places: for a maximal length below 6 the
    suffix is cut to the maximal length, so the name cannot end with 6
    characters of the digest; an input without any alphanumeric character is
    rejected by the assertion, although its (empty) filtered form fits; and
    an input with a lone surrogate whose filtered form is too long (sixty
    times 'a', then U+DCFF) gives no name at all, as it has no UTF-8
    encoding. *)
Lemma valid_name_counterexample :
  (fst (run (Unicode._get_valid_name Unicode.isalnum_latin1
               (Unicode.points "abcdefgh") 6 3) ∅ ∅)
   = inr (Unicode.points "e8d")
   /\ PyStr.slice_to (md5_hex "abcdefgh") 6 = "e8dc40"
   /\ PyStr.endswith "e8dc40" "e8d" = false)
  /\ (Unicode.len (List.filter Unicode.isalnum_latin1 (Unicode.points "---"))
      <= 50
      /\ fst (run (Unicode._get_valid_name Unicode.isalnum_latin1
                     (Unicode.points "---") 6 50) ∅ ∅)
         = inl (AssertionError "normalized name empty"))
  /\ (50 < Unicode.len (List.filter Unicode.isalnum_latin1
                          (repeat 97 60 ++ [56575]))
      /\ fst (run (Unicode._get_valid_name Unicode.isalnum_latin1
                     (repeat 97 60 ++ [56575]) 6 50) ∅ ∅)
         = inl UnicodeEncodeError).
Proof.
  split; [split; [|split]|split; [split|split]]; vm_compute;
    try reflexivity; discriminate.
Qed.

(** ** The two models of [_get_valid_name] agree

    On a string of code points below U+0100 the function on all code points
    does what the installer's model of it does. *)

Section ValidNameAgrees.

Context (isalnum : Z -> bool).
Hypothesis isalnum_latin1 :
  forall c : ascii, isalnum (PyStr.code c) = PyStr.isalnum_char c.

Lemma points_filter (s : string) :
  List.filter isalnum (Unicode.points s)
  = Unicode.points (PyStr.filter PyStr.isalnum_char s).
Proof.
  induction s as [|c s IH]; [reflexivity|].
  rewrite points_cons. simpl. rewrite isalnum_latin1, IH.
  destruct (PyStr.isalnum_char c); reflexivity.
Qed.

Lemma points_take (n : nat) (s : string) :
  firstn n (Unicode.points s) = Unicode.points (PyStr.take n s).
Proof.
  revert s. induction n as [|n IH]; intros [|c s]; try reflexivity.
  rewrite points_cons. simpl. rewrite IH. reflexivity.
Qed.

Lemma points_slice_to (s : string) (n : Z) :
  Unicode.slice_to (Unicode.points s) n = Unicode.points (PyStr.slice_to s n).
Proof.
  unfold Unicode.slice_to, PyStr.slice_to. rewrite len_points.
  destruct (0 <=? n); apply points_take.
Qed.

Lemma code_range (c : ascii) : 0 <= PyStr.code c < 256.
Proof.
  unfold PyStr.code. pose proof (N_ascii_bounded c) as H. lia.
Qed.

Lemma encode_points (s : string) :
  Unicode.encode_utf8 (Unicode.points s) = Some (PyStr.encode_utf8 s).
Proof.
  induction s as [|c s IH]; [reflexivity|].
  rewrite points_cons. simpl. rewrite IH.
  unfold Unicode.utf8_point, PyStr.utf8_char. cbv zeta.
  pose proof (code_range c) as Hc.
  destruct (Z.ltb_spec (PyStr.code c) 128); [reflexivity|].
  destruct (Z.ltb_spec (PyStr.code c) 2048); [reflexivity|lia].
Qed.

Lemma valid_name_agrees (input_name : string) (suffix_len max_len : Z)
    (st : store) :
  Unicode._get_valid_name isalnum (Unicode.points input_name) suffix_len
    max_len st
  = as_points (_get_valid_name input_name suffix_len max_len st).
Proof.
  unfold Unicode._get_valid_name, _get_valid_name, as_points. cbv zeta.
  rewrite points_filter, encode_points.
  destruct (PyStr.filter PyStr.isalnum_char input_name) as [|c n] eqn:E;
    [reflexivity|].
  rewrite points_cons, <- points_cons, len_points.
  change (String.eqb (String c n) "") with false. cbn iota.
  destruct (PyStr.len (String c n) <=? max_len); [reflexivity|].
  unfold mbind, M_bind.
  destruct (max_len <? suffix_len); unfold warning, emit, mret, M_ret;
    cbn beta iota; cbn [fst snd];
    rewrite points_append, points_slice_to; reflexivity.
Qed.

End ValidNameAgrees.

Lemma isalnum_latin1_exact (c : ascii) :
  Unicode.isalnum_latin1 (PyStr.code c) = PyStr.isalnum_char c.
Proof.
  unfold Unicode.isalnum_latin1. pose proof (code_range c) as Hc.
  destruct (Z.leb_spec 0 (PyStr.code c)); [|lia].
  destruct (Z.ltb_spec (PyStr.code c) 256); [|lia].
  unfold PyStr.chr, PyStr.code. rewrite N2Z.id, ascii_N_embedding.
  reflexivity.
Qed.
